(** * ColorTransform.h: linear, sRGB and RGBM pixel conversions

    A shallow embedding of [libs/image/include/image/ColorTransform.h].
    The C++ [float] is IEEE 754 binary32; it is modelled bit-exactly with the
    executable specification of the Standard Library ([SpecFloat], precision
    24, maximal exponent 128).  Every arithmetic operator of the source is the
    correctly rounded operation of that format. *)

From Stdlib Require Import ZArith Lia Bool List QArith Qabs Qpower Lqa.
From Stdlib Require Import SpecFloat.
From stdpp Require Import base list.

Open Scope Z_scope.

(** ** Single-precision floating point *)

Module F32.

Definition prec : Z := 24.
Definition emax : Z := 128.

Definition float32 : Type := spec_float.

Definition fadd : float32 -> float32 -> float32 := SFadd prec emax.
Definition fsub : float32 -> float32 -> float32 := SFsub prec emax.
Definition fmul : float32 -> float32 -> float32 := SFmul prec emax.
Definition fdiv : float32 -> float32 -> float32 := SFdiv prec emax.
Definition fsqrt : float32 -> float32 := SFsqrt prec emax.

  (** [a < b] and [a <= b] of C++: false as soon as an operand is a NaN. *)
Definition flt : float32 -> float32 -> bool := SFltb.
Definition fle : float32 -> float32 -> bool := SFleb.

  (** Conversion of an integer to [float], round to nearest even. *)
Definition of_Z (z : Z) : float32 := binary_normalize prec emax z 0 false.

  (** A decimal literal [n/d], with [n] and [d] below [2^24]: the quotient of
      two exactly represented integers is rounded once, which is what the
      compiler does with the decimal constant. *)
Definition lit (n d : Z) : float32 := fdiv (of_Z n) (of_Z d).

Definition valid (x : float32) : bool := valid_binary prec emax x.

Definition is_nan (x : float32) : bool :=
    match x with S754_nan => true | _ => false end.

Definition is_finite (x : float32) : bool :=
    match x with S754_zero _ | S754_finite _ _ _ => true | _ => false end.

  (** The rational number a finite float stands for (0 for the others). *)
Definition to_Q (x : float32) : Q :=
    match x with
    | S754_finite s m e =>
        let v := (inject_Z (Zpos m) * Qpower 2 e)%Q in
        if s then Qopp v else v
    | _ => 0%Q
    end.

  (** [std::max(a, b)] is [(a < b) ? b : a]; [std::min(a, b)] is
      [(b < a) ? b : a]. *)
Definition std_max (a b : float32) : float32 := if flt a b then b else a.
Definition std_min (a b : float32) : float32 := if flt b a then b else a.

  (** [std::ceil]: zeros, infinities, NaN and integral values are returned
      unchanged; a value in (-1, 0) gives -0. *)
Definition ceil (x : float32) : float32 :=
    match x with
    | S754_finite s m e =>
        if 0 <=? e then x
        else
          let q := Z.shiftr (Zpos m) (- e) in
          let r := Z.land (Zpos m) (Z.ones (- e)) in
          if s then
            match q with
            | Z0 => S754_zero true
            | _ => binary_normalize prec emax (- q) 0 true
            end
          else of_Z (if r =? 0 then q else q + 1)
    | _ => x
    end.

End F32.

Import F32.

(** ** Vectors ([math/vec3.h], [math/vec4.h]) *)

Record float3 : Type := Float3 { r3 : float32; g3 : float32; b3 : float32 }.

Record float4 : Type :=
  Float4 { r4 : float32; g4 : float32; b4 : float32; a4 : float32 }.

(** [v[i]]; the source never indexes past the last component. *)
Definition get3 (v : float3) (i : nat) : float32 :=
  match i with O => r3 v | 1%nat => g3 v | _ => b3 v end.

Definition set3 (v : float3) (i : nat) (x : float32) : float3 :=
  match i with
  | O => Float3 x (g3 v) (b3 v)
  | 1%nat => Float3 (r3 v) x (b3 v)
  | 2%nat => Float3 (r3 v) (g3 v) x
  | _ => v
  end.

Definition get4 (v : float4) (i : nat) : float32 :=
  match i with O => r4 v | 1%nat => g4 v | 2%nat => b4 v | _ => a4 v end.

Definition set4 (v : float4) (i : nat) (x : float32) : float4 :=
  match i with
  | O => Float4 x (g4 v) (b4 v) (a4 v)
  | 1%nat => Float4 (r4 v) x (b4 v) (a4 v)
  | 2%nat => Float4 (r4 v) (g4 v) x (a4 v)
  | 3%nat => Float4 (r4 v) (g4 v) (b4 v) x
  | _ => v
  end.

(** The swizzle [v.rgb], read and assigned. *)
Definition rgb (v : float4) : float3 := Float3 (r4 v) (g4 v) (b4 v).
Definition set_rgb (v : float4) (c : float3) : float4 :=
  Float4 (r3 c) (g3 c) (b3 c) (a4 v).
Definition set_a (v : float4) (x : float32) : float4 :=
  Float4 (r4 v) (g4 v) (b4 v) x.

Definition map3 (f : float32 -> float32) (v : float3) : float3 :=
  Float3 (f (r3 v)) (f (g3 v)) (f (b3 v)).

Definition map4 (f : float32 -> float32) (v : float4) : float4 :=
  Float4 (f (r4 v)) (f (g4 v)) (f (b4 v)) (f (a4 v)).

(** Component-wise operators of the vector headers. *)
Definition vsqrt3 : float3 -> float3 := map3 fsqrt.
Definition vdiv3 (v : float3) (s : float32) : float3 := map3 (fun c => fdiv c s) v.
Definition vmul3 (v : float3) (s : float32) : float3 := map3 (fun c => fmul c s) v.
Definition vdiv4 (v : float4) (s : float32) : float4 := map4 (fun c => fdiv c s) v.
Definition vmul4 (v : float4) (s : float32) : float4 := map4 (fun c => fmul c s) v.
Definition vmul3v (u v : float3) : float3 :=
  Float3 (fmul (r3 u) (r3 v)) (fmul (g3 u) (g3 v)) (fmul (b3 u) (b3 v)).

(** Modelled from the spec: [math::clamp] and [math::saturate] of
    [math/scalar.h], which is not among the sources.  The glossary defines
    saturate as "clamp a value to [0,1]"; clamp is the usual composition
    [std::min(max, std::max(min, v))]. *)
Definition clamp (v lo hi : float32) : float32 := std_min hi (std_max lo v).
Definition saturate (v : float32) : float32 := clamp v (of_Z 0) (of_Z 1).
Definition saturate3 : float3 -> float3 := map3 saturate.

(** ** A [for] loop whose counter runs from [i] over [n] iterations *)

Fixpoint for_range {S : Type} (i n : nat) (body : nat -> S -> S) (s : S) : S :=
  match n with
  | O => s
  | Datatypes.S n' => for_range (Datatypes.S i) n' body (body i s)
  end.

(** ** RGBM codec *)

(** [linearToRGBM], lines 32-51: the local [RGBM] is updated in place. *)
Definition linearToRGBM (linear : float3) : float4 :=
  let RGBM := Float4 (get3 linear 0) (get3 linear 1) (get3 linear 2) (of_Z 1) in
  let RGBM := set_rgb RGBM (vsqrt3 (rgb RGBM)) in
  let RGBM := set_rgb RGBM (vdiv3 (rgb RGBM) (of_Z 16)) in
  let maxComponent :=
    std_max (std_max (r4 RGBM) (g4 RGBM)) (std_max (b4 RGBM) (lit 1 1000000)) in
  let RGBM := set_a RGBM (clamp maxComponent (fdiv (of_Z 1) (of_Z 16)) (of_Z 1)) in
  let RGBM := set_a RGBM (fdiv (ceil (fmul (a4 RGBM) (of_Z 255))) (of_Z 255)) in
  let RGBM := set_rgb RGBM (saturate3 (vdiv3 (rgb RGBM) (a4 RGBM))) in
  RGBM.

(** [RGBMtoLinear], lines 53-61. *)
Definition RGBMtoLinear (rgbm : float4) : float3 :=
  let linear := Float3 (get4 rgbm 0) (get4 rgbm 1) (get4 rgbm 2) in
  let linear := vmul3 linear (fmul (a4 rgbm) (of_Z 16)) in
  vmul3v linear linear.

(** ** Transfer functions

    [std::pow] on two [float] operands and [powf] are the same library
    function; IEEE 754 does not fix its rounding, so it is a parameter. *)

Section TransferFunction.

Variable pow : float32 -> float32 -> float32.

  (** [linearTosRGB] on a 3-component colour, lines 63-78.  The local [sRGB]
      is declared without an initial value: [junk] stands for whatever it
      holds before the loop fills it. *)
Definition linearTosRGB (junk : float3) (linear : float3) : float3 :=
    let a := lit 55 1000 in
    let a1 := lit 1055 1000 in
    let p := fdiv (of_Z 1) (lit 24 10) in
    for_range 0 3
      (fun i sRGB =>
         if fle (get3 linear i) (lit 31308 10000000)
         then set3 sRGB i (fmul (get3 linear i) (lit 1292 100))
         else set3 sRGB i (fsub (fmul a1 (pow (get3 linear i) p)) a))
      junk.

  (** The scalar overload of [linearTosRGB], lines 80-89. *)
Definition linearTosRGB_float (linear : float32) : float32 :=
    if fle linear (lit 31308 10000000) then fmul linear (lit 1292 100)
    else
      let a := lit 55 1000 in
      let a1 := lit 1055 1000 in
      let p := fdiv (of_Z 1) (lit 24 10) in
      fsub (fmul a1 (pow linear p)) a.

  (** [sRGBToLinear<math::float3>], lines 94-109. *)
Definition sRGBToLinear_float3 (junk : float3) (sRGB : float3) : float3 :=
    let a := lit 55 1000 in
    let a1 := lit 1055 1000 in
    let p := lit 24 10 in
    for_range 0 3
      (fun i linear =>
         if fle (get3 sRGB i) (lit 4045 100000)
         then set3 linear i (fmul (get3 sRGB i) (fdiv (of_Z 1) (lit 1292 100)))
         else set3 linear i (pow (fdiv (fadd (get3 sRGB i) a) a1) p))
      junk.

  (** [sRGBToLinear<math::float4>], lines 111-127. *)
Definition sRGBToLinear_float4 (junk : float4) (sRGB : float4) : float4 :=
    let a := lit 55 1000 in
    let a1 := lit 1055 1000 in
    let p := lit 24 10 in
    let linear :=
      for_range 0 3
        (fun i linear =>
           if fle (get4 sRGB i) (lit 4045 100000)
           then set4 linear i (fmul (get4 sRGB i) (fdiv (of_Z 1) (lit 1292 100)))
           else set4 linear i (pow (fdiv (fadd (get4 sRGB i) a) a1) p))
        junk in
    set4 linear 3 (get4 sRGB 3).

  (** [linearToSRGB<math::float3>], lines 132-142; [sRGBColor.size()] is 3. *)
Definition linearToSRGB_float3 (color : float3) : float3 :=
    let sRGBColor := color in
    for_range 0 3
      (fun i sRGBColor =>
         set3 sRGBColor i
           (if fle (get3 sRGBColor i) (lit 31308 10000000)
            then fmul (get3 sRGBColor i) (lit 1292 100)
            else fsub (fmul (pow (get3 sRGBColor i) (fdiv (of_Z 1) (lit 24 10)))
                            (lit 1055 1000))
                      (lit 55 1000)))
      sRGBColor.

End TransferFunction.

(** ** The linear image container *)

(** Modelled from the spec: the [LinearImage] container of
    [image/LinearImage.h], which is not among the sources.  Section 6 gives
    its interface: width, height and channel count, 32-bit floats stored row
    by row with the channels of a pixel next to each other, typed access to a
    pixel and raw access to a row.  Positions in the storage are counted in
    floats. *)
Record LinearImage : Type := MkLinearImage {
  getWidth : Z;
  getHeight : Z;
  getChannels : Z;
  getData : list float32
}.

Definition uint32 (z : Z) : Z := z mod 2 ^ 32.

(** The constructor takes three [uint32_t] and zero-fills the storage. *)
Definition new_LinearImage (width height channels : Z) : LinearImage :=
  MkLinearImage width height channels
    (replicate (Z.to_nat (width * height * channels)) (S754_zero false)).

Definition getPixelRef (image : LinearImage) (column row : Z) : Z :=
  (row * getWidth image + column) * getChannels image.

(** [*p] for a float pointer into the storage; reading past the end is
    undefined in C++ and gives a NaN here. *)
Definition load (data : list float32) (p : Z) : float32 :=
  default S754_nan (data !! Z.to_nat p).

(** [*image.get<float3>(x, y)]. *)
Definition get_float3 (image : LinearImage) (x y : Z) : float3 :=
  let p := getPixelRef image x y in
  Float3 (load (getData image) p) (load (getData image) (p + 1))
         (load (getData image) (p + 2)).

(** [*image.get<float4>(x, y)]. *)
Definition get_float4 (image : LinearImage) (x y : Z) : float4 :=
  let p := getPixelRef image x y in
  Float4 (load (getData image) p) (load (getData image) (p + 1))
         (load (getData image) (p + 2)) (load (getData image) (p + 3)).

(** [*d = v] for a [float3] pointer [d] into the storage, counted in pixels
    of three floats. *)
Definition store_float3 (data : list float32) (d : nat) (v : float3)
  : list float32 :=
  <[(3 * d + 2)%nat := b3 v]> (<[(3 * d + 1)%nat := g3 v]> (<[(3 * d)%nat := r3 v]> data)).

(** [*d = v] for a [float4] pointer [d] into the storage, counted in pixels
    of four floats. *)
Definition store_float4 (data : list float32) (d : nat) (v : float4)
  : list float32 :=
  <[(4 * d + 3)%nat := a4 v]>
    (<[(4 * d + 2)%nat := b4 v]>
       (<[(4 * d + 1)%nat := g4 v]> (<[(4 * d)%nat := r4 v]> data))).

(** The invariant of an image that exists in memory: 32-bit dimensions, one
    float per channel of each pixel, and every float a binary32 value. *)
Definition image_wf (image : LinearImage) : Prop :=
  (0 <= getWidth image < 2 ^ 32) /\ (0 <= getHeight image < 2 ^ 32) /\ 
  (0 <= getChannels image < 2 ^ 32) /\ 
  Z.of_nat (length (getData image)) =
    getWidth image * getHeight image * getChannels image /\ 
  Forall (fun v => valid v = true) (getData image).

(** ** Packers and unpackers, generic in the integer type [T] *)

(** What a call does: it returns, or an [assert] stops the program. *)
Inductive outcome (A : Type) : Type :=
  | Returned (a : A)
  | AssertionFailed.
Arguments Returned {A} a.
Arguments AssertionFailed {A}.

(** A destination buffer [new uint8_t[byte_size]] seen through the [T*] the
    packers write with: one cell per [T], [None] until it is written. *)
Record packed (sample : Type) : Type := MkPacked {
  byte_size : Z;
  cells : list (option sample)
}.
Arguments MkPacked {sample} byte_size cells.
Arguments byte_size {sample} p.
Arguments cells {sample} p.

Section Packers.

  (** The values of [T], [std::numeric_limits<T>::max()], the conversion
      [T(x)] of a float, [sizeof(T)] and the value of type [T] that
      [sizeof(T)] consecutive bytes hold. *)
Variable sample : Type.
Variable T_max : Z.
Variable T_cast : float32 -> sample.
Variable sizeof_T : Z.
Variable T_of_bytes : list Z -> sample.

Variable pow : float32 -> float32 -> float32.

  (** [fromLinearTosRGB], lines 146-165.  [assert] is the one of <cassert>
      with NDEBUG not defined. *)
Definition fromLinearTosRGB (junk : float3) (image : LinearImage)
    : outcome (packed sample) :=
    let w := getWidth image in
    let h := getHeight image in
    let channels := getChannels image in
    if negb (3 <=? channels) then AssertionFailed
    else
      let dst := replicate (Z.to_nat (w * h * 3)) None in
      let '(dst, _) :=
        for_range 0 (Z.to_nat h)
          (fun y st =>
             for_range 0 (Z.to_nat w)
               (fun x '(dst, d) =>
                  let src := get_float3 image (uint32 (Z.of_nat x)) (uint32 (Z.of_nat y)) in
                  let l := vmul3 (linearTosRGB pow junk (saturate3 src)) (of_Z T_max) in
                  (for_range 0 3
                     (fun i dst => <[(d + i)%nat := Some (T_cast (get3 l i))]> dst)
                     dst,
                   (d + 3)%nat))
               st)
          (dst, O) in
      Returned (MkPacked (w * h * 3 * sizeof_T) dst).

  (** [fromLinearToRGB], lines 169-188. *)
Definition fromLinearToRGB (image : LinearImage) : outcome (packed sample) :=
    let w := getWidth image in
    let h := getHeight image in
    let channels := getChannels image in
    if negb (3 <=? channels) then AssertionFailed
    else
      let dst := replicate (Z.to_nat (w * h * 3)) None in
      let '(dst, _) :=
        for_range 0 (Z.to_nat h)
          (fun y st =>
             for_range 0 (Z.to_nat w)
               (fun x '(dst, d) =>
                  let src := get_float3 image (uint32 (Z.of_nat x)) (uint32 (Z.of_nat y)) in
                  let l := vmul3 (saturate3 src) (of_Z T_max) in
                  (for_range 0 3
                     (fun i dst => <[(d + i)%nat := Some (T_cast (get3 l i))]> dst)
                     dst,
                   (d + 3)%nat))
               st)
          (dst, O) in
      Returned (MkPacked (w * h * 3 * sizeof_T) dst).

  (** [fromLinearToRGBM], lines 192-211. *)
Definition fromLinearToRGBM (image : LinearImage) : outcome (packed sample) :=
    let w := getWidth image in
    let h := getHeight image in
    let channels := getChannels image in
    if negb (3 <=? channels) then AssertionFailed
    else
      let dst := replicate (Z.to_nat (w * h * 4)) None in
      let '(dst, _) :=
        for_range 0 (Z.to_nat h)
          (fun y st =>
             for_range 0 (Z.to_nat w)
               (fun x '(dst, d) =>
                  let src := get_float3 image (uint32 (Z.of_nat x)) (uint32 (Z.of_nat y)) in
                  let l := vmul4 (linearToRGBM src) (of_Z T_max) in
                  (for_range 0 4
                     (fun i dst => <[(d + i)%nat := Some (T_cast (get4 l i))]> dst)
                     dst,
                   (d + 4)%nat))
               st)
          (dst, O) in
      Returned (MkPacked (w * h * 4 * sizeof_T) dst).

  (** [fromLinearToGrayscale], lines 215-230. *)
Definition fromLinearToGrayscale (image : LinearImage)
    : outcome (packed sample) :=
    let w := getWidth image in
    let h := getHeight image in
    if negb (getChannels image =? 1) then AssertionFailed
    else
      let dst := replicate (Z.to_nat (w * h)) None in
      let '(dst, _) :=
        for_range 0 (Z.to_nat h)
          (fun y '(dst, d) =>
             let p := getPixelRef image 0 (Z.of_nat y) in
             let '(dst, d, _) :=
               for_range 0 (Z.to_nat w)
                 (fun x '(dst, d, p) =>
                    let gray := fmul (saturate (load (getData image) p)) (of_Z T_max) in
                    (<[d := Some (T_cast gray)]> dst, Datatypes.S d, p + 1))
                 (dst, d, p) in
             (dst, d))
          (dst, O) in
      Returned (MkPacked (w * h * sizeof_T) dst).

  (** [p[k]] for a [T const*] at byte offset [p] of the blob [src]: the value
      held by the [sizeof(T)] bytes from [p + k * sizeof(T)] on. *)
Definition load_T (src : Z -> Z) (p : Z) (k : Z) : sample :=
    T_of_bytes
      (map (fun j => src (p + k * sizeof_T + Z.of_nat j)) (seq 0 (Z.to_nat sizeof_T))).

  (** [toLinear], lines 235-249.  [src] gives the byte at each offset of the
      blob; [d] counts pixels of the result, [p] bytes of the source.  The
      loops run to the [size_t] bounds [w] and [h] while the storage has
      the [uint32_t] dimensions: with [w] or [h] of 2^32 or more and neither
      of them 0, the source writes past the end of the storage, which is
      undefined.  Such a write is dropped here, so that the definition
      stands for the source when [w] and [h] are below 2^32, or when one of
      them is 0 and no write takes place. *)
Definition toLinear (w h bpr : Z) (src : Z -> Z)
      (proc : sample -> float32) (transform : float3 -> float3) : LinearImage :=
    let result := new_LinearImage (uint32 w) (uint32 h) 3 in
    let data := fst (
      for_range 0 (Z.to_nat h)
        (fun y '(data, d) =>
           let p := Z.of_nat y * bpr in
           let '(data, d, _) :=
             for_range 0 (Z.to_nat w)
               (fun x '(data, d, p) =>
                  let sRGB :=
                    Float3 (proc (load_T src p 0)) (proc (load_T src p 1))
                           (proc (load_T src p 2)) in
                  let sRGB := vdiv3 sRGB (of_Z T_max) in
                  (store_float3 data d (transform sRGB), Datatypes.S d,
                   p + 3 * sizeof_T))
               (data, d, p) in
           (data, d))
        (getData result, O)) in
    MkLinearImage (getWidth result) (getHeight result) (getChannels result) data.

  (** [toLinearWithAlpha], lines 263-277: as [toLinear], with four samples
      a pixel and a transform on four components. *)
Definition toLinearWithAlpha (w h bpr : Z) (src : Z -> Z)
      (proc : sample -> float32) (transform : float4 -> float4) : LinearImage :=
    let result := new_LinearImage (uint32 w) (uint32 h) 4 in
    let data := fst (
      for_range 0 (Z.to_nat h)
        (fun y '(data, d) =>
           let p := Z.of_nat y * bpr in
           let '(data, d, _) :=
             for_range 0 (Z.to_nat w)
               (fun x '(data, d, p) =>
                  let sRGB :=
                    Float4 (proc (load_T src p 0)) (proc (load_T src p 1))
                           (proc (load_T src p 2)) (proc (load_T src p 3)) in
                  let sRGB := vdiv4 sRGB (of_Z T_max) in
                  (store_float4 data d (transform sRGB), Datatypes.S d,
                   p + 4 * sizeof_T))
               (data, d, p) in
           (data, d))
        (getData result, O)) in
    MkLinearImage (getWidth result) (getHeight result) (getChannels result) data.

End Packers.

(** [toLinearFromRGBM], lines 289-298: [src] is the array of RGBM pixels. *)
Definition toLinearFromRGBM (src : list float4) (w h : Z) : LinearImage :=
  let result := new_LinearImage w h 3 in
  let '(data, _) :=
    for_range 0 (Z.to_nat h)
      (fun row st =>
         for_range 0 (Z.to_nat w)
           (fun col '(data, k) =>
              (store_float3 data k
                 (RGBMtoLinear (default (Float4 S754_nan S754_nan S754_nan S754_nan)
                                        (src !! k))),
               Datatypes.S k))
           st)
      (getData result, O) in
  MkLinearImage (getWidth result) (getHeight result) (getChannels result) data.

(** ** Unsigned integer types for [T] *)

(** [std::numeric_limits<T>::max()] for an unsigned type of [bits] bits. *)
Definition uint_max (bits : Z) : Z := 2 ^ bits - 1.

(** The fractional part of a finite value dropped (truncation to zero). *)
Definition truncate (m : positive) (e : Z) : Z :=
  if 0 <=? e then Z.shiftl (Zpos m) e else Z.shiftr (Zpos m) (- e).

(** [T(x)] for a float [x] and an unsigned [T] of [bits] bits (C++
    [conv.fpint]): the value is truncated, and the conversion is undefined,
    [None], when the truncated value is not a value of [T]. *)
Definition uint_cast (bits : Z) (x : float32) : option Z :=
  match x with
  | S754_zero _ => Some 0
  | S754_finite s m e =>
      let t := truncate m e in
      if s then (if t =? 0 then Some 0 else None)
      else if t <=? uint_max bits then Some t else None
  | _ => None
  end.

(** ** The statements of the specification, for comparison *)

(** Channel [c] of pixel [(x, y)] of an image. *)
Definition pixel_channel (image : LinearImage) (x y c : Z) : float32 :=
  load (getData image) ((y * getWidth image + x) * getChannels image + c).

(** Pure black. *)
Definition black : float3 := Float3 (of_Z 0) (of_Z 0) (of_Z 0).

(** The maximum of four values, taken from left to right. *)
Definition max4 (a b c d : float32) : float32 :=
  fold_left std_max [b; c; d] a.

(** The RGBM encoder as section 4.2 of the specification lists its steps. *)
Definition rgbm_encode_steps (v : float3) : float4 :=
  let r := fdiv (fsqrt (r3 v)) (of_Z 16) in
  let g := fdiv (fsqrt (g3 v)) (of_Z 16) in
  let b := fdiv (fsqrt (b3 v)) (of_Z 16) in
  let maxComponent := max4 r g b (lit 1 1000000) in
  let M := clamp maxComponent (fdiv (of_Z 1) (of_Z 16)) (of_Z 1) in
  let M := fdiv (ceil (fmul M (of_Z 255))) (of_Z 255) in
  Float4 (saturate (fdiv r M)) (saturate (fdiv g M)) (saturate (fdiv b M)) M.

(** The maximum component after the clamp of step 5, before it is
    quantized. *)
Definition clamped_max (v : float3) : float32 :=
  clamp (max4 (fdiv (fsqrt (r3 v)) (of_Z 16)) (fdiv (fsqrt (g3 v)) (of_Z 16))
              (fdiv (fsqrt (b3 v)) (of_Z 16)) (lit 1 1000000))
        (fdiv (of_Z 1) (of_Z 16)) (of_Z 1).

(** The rule that both overloads of [sRGBToLinear] apply to a colour
    component (lines 102-106 and 119-123). *)
Definition sRGBToLinear_component (pow : float32 -> float32 -> float32)
    (x : float32) : float32 :=
  if fle x (lit 4045 100000) then fmul x (fdiv (of_Z 1) (lit 1292 100))
  else pow (fdiv (fadd x (lit 55 1000)) (lit 1055 1000)) (lit 24 10).

(** [M] is the step [k/255]. *)
Definition is_step (M : float32) (k : Z) : Prop := M = fdiv (of_Z k) (of_Z 255).

(** [d] is within [1/1000] of [v], relative to [v]. *)
Definition rel_close (d v : float32) : Prop :=
  is_finite d = true /\
  (Qabs (to_Q d - to_Q v) <= (1 # 1000) * Qabs (to_Q v))%Q.

(** A float of the closed range [0, 16]: a well-formed binary32 value that
    compares [0 <= x] and [x <= 16] (so neither NaN nor infinite; both
    zeros qualify). *)
Definition within_0_16 (x : float32) : Prop :=
  valid x = true /\ fle (of_Z 0) x = true /\ fle x (of_Z 16) = true.

(** A float of the closed range [0, 256]. *)
Definition within_0_256 (x : float32) : Prop :=
  valid x = true /\ fle (of_Z 0) x = true /\ fle x (of_Z 256) = true.

(** [d] is finite and within [eps] of [v], relative to [v]. *)
Definition rel_close_by (eps : Q) (d v : float32) : Prop :=
  is_finite d = true /\
  (Qabs (to_Q d - to_Q v) <= eps * Qabs (to_Q v))%Q.

(** [2^-125], twice the least positive normal binary32 value. *)
Definition two_pow_m125 : float32 := S754_finite false 8388608 (-148).

(** A float of the linear segment of the sRGB encoding that is not so small
    that a product by it leaves the normal range: a well-formed binary32
    value with [2^-125 <= x] and [x <= 0.0031308f]. *)
Definition in_linear_segment (x : float32) : Prop :=
  valid x = true /\ fle two_pow_m125 x = true /\
  fle x (lit 31308 10000000) = true.

(** The sign bit of a float; a NaN counts as unsigned. *)
Definition sign_bit (x : float32) : bool :=
  match x with
  | S754_zero s | S754_infinity s | S754_finite s _ _ => s
  | S754_nan => false
  end.

(** ** Auxiliary notions for the proofs *)

(** The order of the comparison on values that are not NaN: sign class,
    then exponent, then mantissa, the last two reversed below zero. *)
Definition key (x : float32) : Z * (Z * Z) :=
  match x with
  | S754_zero _ | S754_nan => (0, (0, 0))
  | S754_infinity s => (if s then -2 else 2, (0, 0))
  | S754_finite s m e => if s then (-1, (- e, Zneg m)) else (1, (e, Zpos m))
  end.

Definition key_lt (k1 k2 : Z * (Z * Z)) : Prop :=
  fst k1 < fst k2 \/
  (fst k1 = fst k2 /\
   (fst (snd k1) < fst (snd k2) \/
    (fst (snd k1) = fst (snd k2) /\ snd (snd k1) < snd (snd k2)))).

(** The pixel that [toLinear] computes from the three samples at byte
    offset [p] of the source. *)
Definition toLinear_pixel (sample : Type) (T_max sizeof_T : Z)
    (T_of_bytes : list Z -> sample) (src : Z -> Z) (proc : sample -> float32)
    (transform : float3 -> float3) (p : Z) : float3 :=
  transform
    (vdiv3 (Float3 (proc (load_T sample sizeof_T T_of_bytes src p 0))
                   (proc (load_T sample sizeof_T T_of_bytes src p 1))
                   (proc (load_T sample sizeof_T T_of_bytes src p 2)))
           (of_Z T_max)).

(** The number of binary digits of a mantissa, the exponent function and
    the value [m * 2^E] as a float when [m <= 2^24]. *)
Definition digits (m : Z) : Z := Zdigits2 m.

Definition fexp32 (e : Z) : Z := Z.max (e - 24) (-149).

Definition mk_float (s : bool) (m E : Z) : float32 :=
  match m with
  | Z0 => S754_zero s
  | Zpos p =>
      if m =? 16777216 then
        if E + 1 <=? 104 then S754_finite s 8388608 (E + 1) else S754_infinity s
      else
        if E <=? 104 then S754_finite s p E else S754_infinity s
  | Zneg _ => S754_nan
  end.

(** The value of a finite float counted in units of [2^-149], the least
    positive binary32 value. *)
Definition ival (x : float32) : Z :=
  match x with
  | S754_finite s m e => (if s then -1 else 1) * (Zpos m * 2 ^ (e + 149))
  | _ => 0
  end.

(** ** Sample inputs *)

Definition two : float32 := of_Z 2.
Definition half : float32 := lit 1 2.

(** A 1 x 1 image of three channels with the pixel (2, 2, 2). *)
Definition bright_pixel : LinearImage := MkLinearImage 1 1 3 [two; two; two].

(** A 2 x 1 image of three channels: (0.5, 0.5, 0.5) and (1, 0, 0). *)
Definition two_pixels : LinearImage :=
  MkLinearImage 2 1 3 [half; half; half; of_Z 1; of_Z 0; of_Z 0].

(** A 2 x 1 image of one channel. *)
Definition gray_pixels : LinearImage := MkLinearImage 2 1 1 [half; two].

(** A stand-in for [pow] and for the conversion to an 8-bit [T]. *)
Definition pow_first (x y : float32) : float32 := x.
Definition cast_u8 (x : float32) : Z := default 0 (uint_cast 8 x).

(** A colour, a one-byte [T] read from its byte, and a blob whose byte at
    offset [off] is [off mod 256]. *)
Definition sample_color : float3 := Float3 half two (of_Z 0).
Definition first_byte (bytes : list Z) : Z := hd 0 bytes.
Definition ramp (off : Z) : Z := off mod 256.
Definition identity3 (v : float3) : float3 := v.

(** ** A packed 8-bit buffer handed to the unpacker *)

(** The bytes of a buffer that a packer filled with [T = uint8_t], as
    [src.get()] gives them to a reader: the byte at an offset is the cell
    written there.  A cell that was not written, or that an undefined
    conversion wrote, has no defined content; it reads as 0 here. *)
Definition get_u8 (buf : packed (option Z)) (off : Z) : Z :=
  match cells buf !! Z.to_nat off with
  | Some (Some (Some n)) => n
  | _ => 0
  end.

(** The overload of [toLinear] on a [std::unique_ptr<uint8_t[]>], lines
    251-258, with [T = uint8_t]: the call is passed on with [src.get()]. *)
Definition toLinear_unique_ptr_u8 (w h bpr : Z) (src : packed (option Z))
    (proc : Z -> float32) (transform : float3 -> float3) : LinearImage :=
  toLinear Z (uint_max 8) 1 first_byte w h bpr (get_u8 src) proc transform.

(** A dark colour of the linear segment of the sRGB encoding, a colour
    that reaches the top of the RGBM range, an RGBM pixel and the identity
    on four components. *)
Definition dim_color : float3 := Float3 (lit 1 1000) (lit 2 1000) (lit 3 1000).
Definition bright_color : float3 := Float3 (of_Z 100) (of_Z 256) (of_Z 0).
Definition rgbm_pixel : float4 := Float4 half (of_Z 1) (of_Z 0) half.
Definition identity4 (v : float4) : float4 := v.

(** A 2 x 1 image of three channels with values above 1 and below 0:
    (2, 0.5, -0.5) and (3, 0, 1). *)
Definition clipped_pixels : LinearImage :=
  MkLinearImage 2 1 3 [two; half; lit (-1) 2; of_Z 3; of_Z 0; of_Z 1].

(** Four RGBM pixels, the source of a 2 x 2 image. *)
Definition rgbm_pixels : list float4 :=
  [rgbm_pixel; Float4 (of_Z 1) half (of_Z 0) (of_Z 1);
   Float4 (of_Z 0) (of_Z 0) half half; Float4 half half half (lit 1 16)].

(** A colour beyond the RGBM range, with an infinite component. *)
Definition huge_color : float3 :=
  Float3 (of_Z 1000) (S754_infinity false) (of_Z 0).

(** Powers of two as rationals, the factor [1 + 2^-23] of one rounding, and
    "[z] is [t] up to the factor [f]". *)
Definition bpow (e : Z) : Q := Qpower 2 e.

Definition one_ulp : Q := 8388609 # 8388608.

Definition near (f t z : Q) : Prop := (t <= z * f /\ z <= t * f)%Q.

(** What the round trip through bytes uses of the quotient [n/255],
    checked for one byte [n]. *)
Definition byte_check (n : Z) : bool :=
  is_finite (fdiv (of_Z n) (of_Z 255)) &&
  Qle_bool (to_Q (fdiv (of_Z n) (of_Z 255))) (inject_Z n * (1 # 255) * one_ulp) &&
  Qle_bool (inject_Z n * (1 # 255)) (to_Q (fdiv (of_Z n) (of_Z 255)) * one_ulp).

(** A zero or a canonical positive finite value. *)
Definition nonneg (x : float32) : Prop :=
  match x with
  | S754_zero _ => True
  | S754_finite false _ _ => valid x = true
  | _ => False
  end.

Definition positive_finite (x : float32) : Prop :=
  match x with
  | S754_finite false _ _ => valid x = true
  | _ => False
  end.

(** What the proof of the round trip uses of the multiplier [k/255] and of
    its product by 16, checked for one [k]. *)
Definition multiplier_check (k : Z) : bool :=
  match fdiv (of_Z k) (of_Z 255) with
  | S754_finite false pm em =>
      valid (S754_finite false pm em) &&
      Qle_bool (1 # 16) (to_Q (S754_finite false pm em)) &&
      Qle_bool (to_Q (S754_finite false pm em)) 1 &&
      Qle_bool (inject_Z k) (255 * to_Q (S754_finite false pm em) * one_ulp) &&
      match fmul (S754_finite false pm em) (of_Z 16) with
      | S754_finite false pa ea =>
          valid (S754_finite false pa ea) &&
          Qeq_bool (to_Q (S754_finite false pa ea))
                   (16 * to_Q (S754_finite false pm em))
      | _ => false
      end
  | _ => false
  end.

(** * Comparisons and elementary facts about the arithmetic *)

Lemma flt_key (x y : float32) :
  flt x y = true <->
  is_nan x = false /\ is_nan y = false /\ key_lt (key x) (key y).
Proof.
  unfold flt, SFltb, key_lt.
  destruct x as [[]|[]| |[] mx ex], y as [[]|[]| |[] my ey]; simpl;
    try (split; [discriminate | intros (? & ? & ?); try discriminate; lia]);
    try (split; [intros _; repeat split; lia | reflexivity]).
  - destruct (Z.compare_spec ex ey) as [->|H|H].
    + rewrite Pos.compare_cont_spec; simpl.
      destruct (Pos.compare_spec mx my) as [->|H|H]; simpl;
        (split; [try discriminate; intros _; repeat split; lia
                | intros (_ & _ & ?); try reflexivity; lia]).
    + split; [discriminate | intros (_ & _ & ?); lia].
    + split; [intros _; repeat split; lia | reflexivity].
  - destruct (Z.compare_spec ex ey) as [->|H|H].
    + rewrite Pos.compare_cont_spec; simpl.
      destruct (Pos.compare_spec mx my) as [->|H|H]; simpl;
        (split; [try discriminate; intros _; repeat split; lia
                | intros (_ & _ & ?); try reflexivity; lia]).
    + split; [intros _; repeat split; lia | reflexivity].
    + split; [discriminate | intros (_ & _ & ?); lia].
Qed.

Lemma flt_trans (x y z : float32) :
  flt x y = true -> flt y z = true -> flt x z = true.
Proof.
  rewrite !flt_key. unfold key_lt.
  intros (? & ? & ?) (? & ? & ?). repeat split; try assumption. lia.
Qed.

Lemma flt_asym (x y : float32) : flt x y = true -> flt y x = false.
Proof.
  intros H. destruct (flt y x) eqn:E; [|reflexivity].
  apply flt_key in H. apply flt_key in E. unfold key_lt in *.
  destruct H as (_ & _ & H), E as (_ & _ & E). lia.
Qed.

Lemma flt_fle (x y : float32) : flt x y = true -> fle x y = true.
Proof.
  unfold flt, fle, SFltb, SFleb. destruct (SFcompare x y) as [[]|]; congruence.
Qed.

Lemma fmul_comm (x y : float32) : fmul x y = fmul y x.
Proof.
  destruct x as [sx|sx| |sx mx ex], y as [sy|sy| |sy my ey]; simpl;
    try reflexivity; try (rewrite xorb_comm; reflexivity).
  rewrite xorb_comm, Pos.mul_comm, Z.add_comm. reflexivity.
Qed.

(** The result of [clamp] lies between its bounds whatever the value is. *)
Lemma clamp_cases (v lo hi : float32) :
  clamp v lo hi = lo \/ clamp v lo hi = hi \/
  (clamp v lo hi = v /\ flt lo v = true /\ flt v hi = true).
Proof.
  unfold clamp, std_min, std_max.
  destruct (flt lo v) eqn:E1.
  - destruct (flt v hi) eqn:E2; auto.
  - destruct (flt lo hi) eqn:E2; auto.
Qed.

(** * The RGBM encoder and the transfer functions *)

Lemma clamp_max_regroup (X b : float32) :
  clamp (std_max X (std_max b (lit 1 1000000))) (fdiv (of_Z 1) (of_Z 16)) (of_Z 1) =
  clamp (std_max (std_max X b) (lit 1 1000000)) (fdiv (of_Z 1) (of_Z 16)) (of_Z 1).
Proof.
  set (eps := lit 1 1000000). set (lo := fdiv (of_Z 1) (of_Z 16)).
  assert (Heps : flt eps lo = true) by reflexivity.
  unfold std_max at 2 3 4.
  destruct (flt b eps) eqn:E1.
  - destruct (flt X b) eqn:E2.
    + rewrite E1. unfold std_max. rewrite (flt_trans _ _ _ E2 E1). reflexivity.
    + reflexivity.
  - unfold std_max at 1. fold (std_max X b).
    destruct (flt (std_max X b) eps) eqn:E2; [|reflexivity].
    unfold clamp at 1. unfold std_max at 1.
    rewrite (flt_asym _ _ (flt_trans _ _ _ E2 Heps)). reflexivity.
Qed.

Lemma linearToRGBM_unfold (v : float3) :
  linearToRGBM v = rgbm_encode_steps v.
Proof.
  destruct v as [r g b]. unfold linearToRGBM, rgbm_encode_steps, max4.
  cbn [get3 r3 g3 b3 r4 g4 b4 a4 rgb set_rgb set_a vsqrt3 vdiv3 saturate3 map3
       fold_left].
  rewrite clamp_max_regroup. reflexivity.
Qed.

(** C1: for every input, [linearToRGBM] returns the tuple that the steps of
    the specification compute in order: component-wise square root, division
    by 16, maxComponent = max(r, g, b, 1e-6), M = clamp(maxComponent, 1/16, 1),
    M = ceil(M*255)/255, and the first three components saturate(c / M), with
    M as the fourth. *)
Theorem linearToRGBM_steps (v : float3) :
  linearToRGBM v = rgbm_encode_steps v.
Proof. apply linearToRGBM_unfold. Qed.

(** C2, as stated, fails: the multiplier of black is not 1/16. *)
Lemma black_multiplier_not_one_sixteenth :
  a4 (linearToRGBM black) <> fdiv (of_Z 1) (of_Z 16).
Proof. vm_compute. discriminate. Qed.

(** C2, amended: the multiplier of black is the step 16/255, the first step
    of 1/255 above 1/16; it is above 1/16 and above 0. *)
Theorem black_multiplier :
  is_step (a4 (linearToRGBM black)) 16 /\
  flt (fdiv (of_Z 1) (of_Z 16)) (a4 (linearToRGBM black)) = true /\
  flt (of_Z 0) (a4 (linearToRGBM black)) = true.
Proof. repeat split. Qed.

(** C9: the 4-component [sRGBToLinear] copies the fourth component and maps
    each of the first three on its own with the scalar rule: x/12.92, which
    the source computes as the product of x and the float 1.0f/12.92f, when
    x <= 0.04045, and ((x + 0.055)/1.055)^2.4 otherwise.  Nothing of what the
    local held before the loop remains. *)
Theorem sRGBToLinear_float4_alpha
    (pow : float32 -> float32 -> float32) (junk v : float4) :
  sRGBToLinear_float4 pow junk v =
    Float4 (sRGBToLinear_component pow (r4 v))
           (sRGBToLinear_component pow (g4 v))
           (sRGBToLinear_component pow (b4 v))
           (a4 v) /\
  a4 (sRGBToLinear_float4 pow junk v) = a4 v.
Proof.
  destruct v as [r g b a], junk as [jr jg jb ja].
  unfold sRGBToLinear_float4, sRGBToLinear_component. cbn.
  destruct (fle r _), (fle g _), (fle b _); split; reflexivity.
Qed.

Lemma linearTosRGB_map3
    (pow : float32 -> float32 -> float32) (junk c : float3) :
  linearTosRGB pow junk c = map3 (linearTosRGB_float pow) c.
Proof.
  destruct c as [r g b], junk as [jr jg jb].
  unfold linearTosRGB, linearTosRGB_float, map3. cbn.
  destruct (fle r _), (fle g _), (fle b _); reflexivity.
Qed.

Lemma linearToSRGB_float3_map3
    (pow : float32 -> float32 -> float32) (c : float3) :
  linearToSRGB_float3 pow c = map3 (linearTosRGB_float pow) c.
Proof.
  destruct c as [r g b].
  unfold linearToSRGB_float3, linearTosRGB_float, map3. cbn.
  rewrite !(fmul_comm (pow _ _) (lit 1055 1000)).
  destruct (fle r _), (fle g _), (fle b _); reflexivity.
Qed.

(** C10: the two 3-component implementations of the linear to sRGB transfer
    agree on every input, and both apply to each component the scalar rule
    x*12.92 for x <= 0.0031308 and 1.055*x^(1/2.4) - 0.055 otherwise, which is
    the scalar overload of [linearTosRGB]. *)
Theorem linearTosRGB_linearToSRGB
    (pow : float32 -> float32 -> float32) (junk c : float3) :
  linearTosRGB pow junk c = linearToSRGB_float3 pow c /\
  linearToSRGB_float3 pow c = map3 (linearTosRGB_float pow) c.
Proof.
  rewrite linearTosRGB_map3, linearToSRGB_float3_map3. split; reflexivity.
Qed.

(** * Loops over the pixels *)

Lemma for_range_inv {S : Type} (P : nat -> S -> Prop)
    (body : nat -> S -> S) (n i : nat) (s : S) :
  P i s ->
  (forall j t, (i <= j < i + n)%nat -> P j t -> P (Datatypes.S j) (body j t)) ->
  P (i + n)%nat (for_range i n body s).
Proof.
  revert i s. induction n as [|n IH]; intros i s H0 Hstep; simpl.
  - rewrite Nat.add_0_r. exact H0.
  - replace (i + Datatypes.S n)%nat with (Datatypes.S i + n)%nat by lia.
    apply IH.
    + apply Hstep; [lia | exact H0].
    + intros j t Hj. apply Hstep. lia.
Qed.

Lemma pixel_index_lt (w k n' n i : nat) :
  (n' < n -> i < k -> n' * k + i < n * k)%nat.
Proof. intros. nia. Qed.

Lemma row_index_lt (w x y y' x' : nat) :
  (x' < w -> y' < y \/ (y' = y /\ x' < x) -> y' * w + x' < y * w + x)%nat.
Proof. intros. nia. Qed.

Lemma pixel_bound (w h k x y : nat) :
  (x < w -> y < h -> (y * w + x) * k + k <= h * w * k)%nat.
Proof.
  intros Hx Hy.
  assert (H : (Datatypes.S (y * w + x) <= h * w)%nat) by nia.
  apply (Nat.mul_le_mono_r _ _ k) in H. lia.
Qed.

Section WriteCells.

Context {A : Type}.

  (** The inner loop of the packers: [k] cells written from [d] on. *)
Lemma write_cells (k : nat) (f : nat -> A) (d : nat) (dst : list (option A)) :
    (d + k <= length dst)%nat ->
    let dst' := for_range 0 k (fun i dst => <[(d + i)%nat := Some (f i)]> dst) dst in
    length dst' = length dst /\
    (forall i, (i < k)%nat -> dst' !! (d + i)%nat = Some (Some (f i))) /\
    (forall j, (j < d)%nat -> dst' !! j = dst !! j).
Proof.
    intros Hlen dst'. subst dst'.
    pose (P := fun (i : nat) (t : list (option A)) =>
      length t = length dst /\
      (forall i', (i' < i)%nat -> t !! (d + i')%nat = Some (Some (f i'))) /\
      (forall j, (j < d)%nat -> t !! j = dst !! j)).
    assert (H : P (0 + k)%nat
      (for_range 0 k (fun i dst => <[(d + i)%nat := Some (f i)]> dst) dst)).
    { apply for_range_inv.
      - repeat split; intros; try reflexivity; lia.
      - intros j t Hj (Hl & Hw & Hu). repeat split.
        + rewrite length_insert. exact Hl.
        + intros i' Hi'. destruct (decide (i' = j)) as [->|Hne].
          * apply list_lookup_insert_eq. lia.
          * rewrite list_lookup_insert_ne by lia. apply Hw. lia.
        + intros j' Hj'. rewrite list_lookup_insert_ne by lia. apply Hu, Hj'. }
    exact H.
Qed.

  (** The two nested loops of the packers that write [k] cells a pixel. *)
Lemma pack_loop (k w h : nat) (px : nat -> nat -> nat -> A)
      (dst0 : list (option A)) :
    length dst0 = (h * w * k)%nat ->
    exists dst,
      for_range 0 h
        (fun y st =>
           for_range 0 w
             (fun x '(dst, d) =>
                (for_range 0 k
                   (fun i dst => <[(d + i)%nat := Some (px x y i)]> dst) dst,
                 (d + k)%nat))
             st)
        (dst0, O) = (dst, (h * w * k)%nat) /\
      length dst = (h * w * k)%nat /\
      forall x y i, (x < w)%nat -> (y < h)%nat -> (i < k)%nat ->
        dst !! ((y * w + x) * k + i)%nat = Some (Some (px x y i)).
Proof.
    intros Hlen.
    pose (Q := fun (y : nat) (st : list (option A) * nat) =>
      exists dst, st = (dst, (y * w * k)%nat) /\ length dst = (h * w * k)%nat /\
        forall x' y' i, (x' < w)%nat -> (y' < y)%nat -> (i < k)%nat ->
          dst !! ((y' * w + x') * k + i)%nat = Some (Some (px x' y' i))).
    match goal with |- exists _, ?loop = _ /\ _ => assert (H : Q (0 + h)%nat loop) end.
    { apply for_range_inv.
      - exists dst0. repeat split; [assumption | intros; lia].
      - intros y st Hy (dst & -> & Hl & Hw).
        pose (P := fun (x : nat) (st : list (option A) * nat) =>
          exists dst, st = (dst, ((y * w + x) * k)%nat) /\
            length dst = (h * w * k)%nat /\
            forall x' y' i, (x' < w)%nat -> (i < k)%nat ->
              (y' < y \/ (y' = y /\ x' < x))%nat ->
              dst !! ((y' * w + x') * k + i)%nat = Some (Some (px x' y' i))).
        match goal with |- Q _ ?loop => assert (H : P (0 + w)%nat loop) end.
        { apply for_range_inv.
          - exists dst. split; [|split]; [f_equal; lia | assumption |].
            intros x' y' i Hx' Hi [Hy'|[_ Hx]]; [apply Hw; assumption | lia].
          - intros x st Hx (dst1 & -> & Hl1 & Hw1).
            destruct (write_cells k (px x y) ((y * w + x) * k)%nat dst1)
              as (Hl2 & Hnew & Hold).
            { rewrite Hl1. apply pixel_bound; lia. }
            eexists. split; [|split].
            + f_equal. lia.
            + rewrite Hl2. exact Hl1.
            + intros x' y' i Hx' Hi Hcase.
              destruct (decide (y' = y /\ x' = x)) as [[-> ->]|Hne].
              * apply Hnew. exact Hi.
              * rewrite Hold.
                -- apply Hw1; [assumption | assumption | lia].
                -- apply (pixel_index_lt w); [|assumption].
                   apply (row_index_lt w); [assumption | lia]. }
        destruct H as (dst2 & -> & Hl2 & Hw2).
        exists dst2. repeat split; [f_equal; lia | assumption |].
        intros x' y' i Hx' Hy' Hi. apply Hw2; [assumption | assumption | lia]. }
    destruct H as (dst & -> & Hl & Hw).
    exists dst. repeat split; [assumption | apply Hw].
Qed.

End WriteCells.

Lemma get3_map3 (f : float32 -> float32) (v : float3) (i : nat) :
  get3 (map3 f v) i = f (get3 v i).
Proof. destruct i as [|[|i]]; reflexivity. Qed.

Lemma get3_get_float3 (image : LinearImage) (x y : Z) (i : nat) :
  (i < 3)%nat ->
  get3 (get_float3 image x y) i = pixel_channel image x y (Z.of_nat i).
Proof.
  intros Hi. unfold get_float3, pixel_channel, getPixelRef.
  destruct i as [|[|[|i]]]; cbn [get3 r3 g3 b3]; try lia; f_equal; lia.
Qed.

Lemma uint32_small (z : Z) : 0 <= z < 2 ^ 32 -> uint32 z = z.
Proof. intros H. unfold uint32. apply Z.mod_small. exact H. Qed.

Section PackerLayout.

Variable sample : Type.
Variable T_max : Z.
Variable T_cast : float32 -> sample.
Variable sizeof_T : Z.
Variable pow : float32 -> float32 -> float32.

  (** C5: on an image with at least three channels, [fromLinearTosRGB<T>]
      returns a buffer of width * height * 3 * sizeof(T) bytes, that is
      width * height * 3 cells of type [T] without padding, in which the
      three samples of pixel (x, y) start at cell (y*width + x)*3; sample i
      is channel i of the pixel, saturated, sent through the linear to sRGB
      transfer, scaled by the maximum of [T] and converted to [T].  Only the
      channels 0, 1 and 2 of the image occur. *)
Theorem fromLinearTosRGB_layout (junk : float3) (image : LinearImage) :
    image_wf image ->
    3 <= getChannels image ->
    exists buf,
      fromLinearTosRGB sample T_max T_cast sizeof_T pow junk image = Returned buf /\
      byte_size buf = getWidth image * getHeight image * 3 * sizeof_T /\
      Z.of_nat (length (cells buf)) = getWidth image * getHeight image * 3 /\
      forall x y i,
        0 <= x < getWidth image -> 0 <= y < getHeight image -> 0 <= i < 3 ->
        cells buf !! Z.to_nat ((y * getWidth image + x) * 3 + i) =
          Some (Some (T_cast
            (fmul (linearTosRGB_float pow (saturate (pixel_channel image x y i)))
                  (of_Z T_max)))).
Proof.
    intros (Hw & Hh & _ & _) Hc. unfold fromLinearTosRGB.
    replace (negb (3 <=? getChannels image)) with false
      by (symmetry; apply negb_false_iff, Z.leb_le, Hc).
    set (W := Z.to_nat (getWidth image)). set (H := Z.to_nat (getHeight image)).
    destruct (pack_loop 3 W H
      (fun x y i => T_cast (get3 (vmul3 (linearTosRGB pow junk
         (saturate3 (get_float3 image (uint32 (Z.of_nat x)) (uint32 (Z.of_nat y)))))
         (of_Z T_max)) i))
      (replicate (Z.to_nat (getWidth image * getHeight image * 3)) None))
      as (dst & Heq & Hl & Hcell).
    { rewrite length_replicate. subst W H. lia. }
    match goal with
    | |- context [for_range 0 H ?b ?s] =>
        replace (for_range 0 H b s) with (dst, (H * W * 3)%nat)
          by (symmetry; exact Heq)
    end.
    eexists. split; [reflexivity|]. cbn [byte_size cells].
    split; [reflexivity|]. split; [rewrite Hl; subst W H; lia|].
    intros x y i Hx Hy Hi.
    replace (Z.to_nat ((y * getWidth image + x) * 3 + i))
      with ((Z.to_nat y * W + Z.to_nat x) * 3 + Z.to_nat i)%nat
      by (subst W; lia).
    rewrite Hcell by (subst W H; lia).
    rewrite !Z2Nat.id by lia.
    rewrite !uint32_small by lia.
    rewrite linearTosRGB_map3. unfold vmul3, saturate3. rewrite !get3_map3.
    rewrite get3_get_float3 by lia. rewrite Z2Nat.id by lia. reflexivity.
Qed.

End PackerLayout.

Section GrayLoop.

Context {A : Type}.

  (** The loops of the grayscale packer: a source position that restarts at
      [base y] on each row and one cell written a pixel. *)
Lemma gray_loop (w h : nat) (val : Z -> A) (base : nat -> Z)
      (dst0 : list (option A)) :
    length dst0 = (h * w)%nat ->
    exists dst,
      for_range 0 h
        (fun y '(dst, d) =>
           let p := base y in
           let '(dst, d, _) :=
             for_range 0 w
               (fun x '(dst, d, p) =>
                  (<[d := Some (val p)]> dst, Datatypes.S d, p + 1))
               (dst, d, p) in
           (dst, d))
        (dst0, O) = (dst, (h * w)%nat) /\
      length dst = (h * w)%nat /\
      forall x y, (x < w)%nat -> (y < h)%nat ->
        dst !! (y * w + x)%nat = Some (Some (val (base y + Z.of_nat x))).
Proof.
    intros Hlen.
    pose (Q := fun (y : nat) (st : list (option A) * nat) =>
      exists dst, st = (dst, (y * w)%nat) /\ length dst = (h * w)%nat /\
        forall x' y', (x' < w)%nat -> (y' < y)%nat ->
          dst !! (y' * w + x')%nat = Some (Some (val (base y' + Z.of_nat x')))).
    match goal with |- exists _, ?loop = _ /\ _ => assert (H : Q (0 + h)%nat loop) end.
    { apply for_range_inv.
      - exists dst0. repeat split; [assumption | intros; lia].
      - intros y st Hy (dst & -> & Hl & Hw).
        pose (P := fun (x : nat) (st : list (option A) * nat * Z) =>
          exists dst, st = (dst, (y * w + x)%nat, base y + Z.of_nat x) /\
            length dst = (h * w)%nat /\
            forall x' y', (x' < w)%nat -> (y' < y \/ (y' = y /\ x' < x))%nat ->
              dst !! (y' * w + x')%nat = Some (Some (val (base y' + Z.of_nat x')))).
        cbv zeta.
        match goal with |- context [for_range 0 w ?b ?s] =>
          assert (H : P (0 + w)%nat (for_range 0 w b s)) end.
        { apply for_range_inv.
          - exists dst. split; [|split]; [apply f_equal2; [apply f_equal2; [reflexivity | lia] | lia] | assumption |].
            intros x' y' Hx' [Hy'|[_ Hx]]; [apply Hw; assumption | lia].
          - intros x st Hx (dst1 & -> & Hl1 & Hw1).
            eexists. split; [|split].
            + apply f_equal2; [apply f_equal2; [reflexivity | lia] | lia].
            + rewrite length_insert. exact Hl1.
            + intros x' y' Hx' Hcase.
              destruct (decide (y' = y /\ x' = x)) as [[-> ->]|Hne].
              * apply list_lookup_insert_eq. rewrite Hl1.
                pose proof (pixel_bound w h 1 x y). lia.
              * rewrite list_lookup_insert_ne.
                -- apply Hw1; [assumption | lia].
                -- pose proof (row_index_lt w x y y' x'). lia. }
        destruct H as (dst2 & -> & Hl2 & Hw2).
        exists dst2. split; [|split]; [f_equal; lia | assumption |].
        intros x' y' Hx' Hy'. apply Hw2; [assumption | lia]. }
    destruct H as (dst & -> & Hl & Hw).
    exists dst. repeat split; [assumption | apply Hw].
Qed.

End GrayLoop.

Lemma store_float3_spec (data : list float32) (d : nat) (v : float3) :
  (3 * d + 3 <= length data)%nat ->
  length (store_float3 data d v) = length data /\
  (forall c, (c < 3)%nat -> store_float3 data d v !! (3 * d + c)%nat = Some (get3 v c)) /\
  (forall j, (j < 3 * d)%nat -> store_float3 data d v !! j = data !! j).
Proof.
  intros Hlen. unfold store_float3. repeat split.
  - rewrite !length_insert. reflexivity.
  - intros c Hc. destruct c as [|[|[|c]]]; try lia; cbn [get3].
    + rewrite !list_lookup_insert_ne by lia. rewrite Nat.add_0_r.
      apply list_lookup_insert_eq. lia.
    + rewrite list_lookup_insert_ne by lia.
      apply list_lookup_insert_eq. rewrite length_insert. lia.
    + apply list_lookup_insert_eq. rewrite !length_insert. lia.
  - intros j Hj. rewrite !list_lookup_insert_ne by lia. reflexivity.
Qed.

(** The loops of [toLinear]: a byte position that restarts at [base y] on
    each row and advances by [step], one pixel stored an iteration. *)
Lemma unpack_loop (w h : nat) (val : Z -> float3) (base : nat -> Z) (step : Z)
    (data0 : list float32) :
  length data0 = (3 * (h * w))%nat ->
  exists data,
    for_range 0 h
      (fun y '(data, d) =>
         let p := base y in
         let '(data, d, _) :=
           for_range 0 w
             (fun x '(data, d, p) =>
                (store_float3 data d (val p), Datatypes.S d, p + step))
             (data, d, p) in
         (data, d))
      (data0, O) = (data, (h * w)%nat) /\
    length data = (3 * (h * w))%nat /\
    forall x y c, (x < w)%nat -> (y < h)%nat -> (c < 3)%nat ->
      data !! (3 * (y * w + x) + c)%nat =
        Some (get3 (val (base y + Z.of_nat x * step)) c).
Proof.
  intros Hlen.
  pose (Q := fun (y : nat) (st : list float32 * nat) =>
    exists data, st = (data, (y * w)%nat) /\ length data = (3 * (h * w))%nat /\
      forall x' y' c, (x' < w)%nat -> (y' < y)%nat -> (c < 3)%nat ->
        data !! (3 * (y' * w + x') + c)%nat =
          Some (get3 (val (base y' + Z.of_nat x' * step)) c)).
  match goal with |- exists _, ?loop = _ /\ _ => assert (H : Q (0 + h)%nat loop) end.
  { apply for_range_inv.
    - exists data0. repeat split; [assumption | intros; lia].
    - intros y st Hy (data & -> & Hl & Hw).
      pose (P := fun (x : nat) (st : list float32 * nat * Z) =>
        exists data, st = (data, (y * w + x)%nat, base y + Z.of_nat x * step) /\
          length data = (3 * (h * w))%nat /\
          forall x' y' c, (x' < w)%nat -> (c < 3)%nat ->
            (y' < y \/ (y' = y /\ x' < x))%nat ->
            data !! (3 * (y' * w + x') + c)%nat =
              Some (get3 (val (base y' + Z.of_nat x' * step)) c)).
      cbv zeta.
      match goal with |- context [for_range 0 w ?b ?s] =>
        assert (H : P (0 + w)%nat (for_range 0 w b s)) end.
      { apply for_range_inv.
        - exists data. split; [|split]; [apply f_equal2; [apply f_equal2; [reflexivity | lia] | lia] | assumption |].
          intros x' y' c Hx' Hc [Hy'|[_ Hx]]; [apply Hw; assumption | lia].
        - intros x st Hx (data1 & -> & Hl1 & Hw1).
          destruct (store_float3_spec data1 (y * w + x)
                      (val (base y + Z.of_nat x * step)))
            as (Hl2 & Hnew & Hold).
          { rewrite Hl1. pose proof (pixel_bound w h 1 x y). lia. }
          eexists. split; [|split].
          + apply f_equal2; [apply f_equal2; [reflexivity | lia] | lia].
          + rewrite Hl2. exact Hl1.
          + intros x' y' c Hx' Hc Hcase.
            destruct (decide (y' = y /\ x' = x)) as [[-> ->]|Hne].
            * apply Hnew. exact Hc.
            * rewrite Hold.
              -- apply Hw1; [assumption | assumption | lia].
              -- pose proof (row_index_lt w x y y' x'). lia. }
      destruct H as (data2 & -> & Hl2 & Hw2).
      exists data2. split; [|split]; [f_equal; lia | assumption |].
      intros x' y' c Hx' Hy' Hc. apply Hw2; [assumption | assumption | lia]. }
  destruct H as (data & -> & Hl & Hw).
  exists data. repeat split; [assumption | apply Hw].
Qed.

(** * The grayscale packer and the unpacker *)

Section GrayscalePacker.

Variable sample : Type.
Variable T_max : Z.
Variable T_cast : float32 -> sample.
Variable sizeof_T : Z.

  (** C7: on an image whose channel count is not 1 the assertion of
      [fromLinearToGrayscale<T>] stops the call before the buffer exists and
      no value is returned; with one channel the assertion holds, the call
      returns, and each of the width * height cells has been written. *)
Theorem fromLinearToGrayscale_contract (image : LinearImage) :
    image_wf image ->
    (getChannels image <> 1 ->
       fromLinearToGrayscale sample T_max T_cast sizeof_T image = AssertionFailed) /\
    (getChannels image = 1 ->
       exists buf,
         fromLinearToGrayscale sample T_max T_cast sizeof_T image = Returned buf /\
         byte_size buf = getWidth image * getHeight image * sizeof_T /\
         Z.of_nat (length (cells buf)) = getWidth image * getHeight image /\
         forall x y,
           0 <= x < getWidth image -> 0 <= y < getHeight image ->
           cells buf !! Z.to_nat (y * getWidth image + x) =
             Some (Some (T_cast
               (fmul (saturate (pixel_channel image x y 0)) (of_Z T_max))))).
Proof.
    intros (Hw & Hh & _ & _). unfold fromLinearToGrayscale. split.
    - intros Hc. apply Z.eqb_neq in Hc. rewrite Hc. reflexivity.
    - intros Hc. rewrite Hc. cbn [Z.eqb Pos.eqb negb].
      set (W := Z.to_nat (getWidth image)). set (H := Z.to_nat (getHeight image)).
      destruct (gray_loop W H
        (fun p => T_cast (fmul (saturate (load (getData image) p)) (of_Z T_max)))
        (fun y => getPixelRef image 0 (Z.of_nat y))
        (replicate (Z.to_nat (getWidth image * getHeight image)) None))
        as (dst & Heq & Hl & Hcell).
      { rewrite length_replicate. subst W H. lia. }
      match goal with
      | |- context [for_range 0 H ?b ?s] =>
          replace (for_range 0 H b s) with (dst, (H * W)%nat)
            by (symmetry; exact Heq)
      end.
      eexists. split; [reflexivity|]. cbn [byte_size cells].
      split; [reflexivity|]. split; [rewrite Hl; subst W H; lia|].
      intros x y Hx Hy.
      replace (Z.to_nat (y * getWidth image + x))
        with (Z.to_nat y * W + Z.to_nat x)%nat by (subst W; lia).
      rewrite Hcell by (subst W H; lia).
      unfold pixel_channel, getPixelRef. rewrite Hc, !Z2Nat.id by lia.
      do 6 f_equal. lia.
Qed.

End GrayscalePacker.

Section Unpacker.

Variable sample : Type.
Variable T_max : Z.
Variable sizeof_T : Z.
Variable T_of_bytes : list Z -> sample.

Lemma load_T_ext (src src' : Z -> Z) (p k : Z) :
    (forall j, 0 <= j < sizeof_T ->
       src' (p + k * sizeof_T + j) = src (p + k * sizeof_T + j)) ->
    load_T sample sizeof_T T_of_bytes src' p k =
    load_T sample sizeof_T T_of_bytes src p k.
Proof.
    intros H. unfold load_T. f_equal. apply map_ext_in.
    intros j Hj. apply in_seq in Hj. apply H. lia.
Qed.

Lemma toLinear_data (w h bpr : Z) (src : Z -> Z)
      (proc : sample -> float32) (transform : float3 -> float3) :
    0 <= w < 2 ^ 32 -> 0 <= h < 2 ^ 32 ->
    exists data,
      toLinear sample T_max sizeof_T T_of_bytes w h bpr src proc transform =
        MkLinearImage w h 3 data /\
      length data = (3 * (Z.to_nat h * Z.to_nat w))%nat /\
      forall x y c, (x < Z.to_nat w)%nat -> (y < Z.to_nat h)%nat -> (c < 3)%nat ->
        data !! (3 * (y * Z.to_nat w + x) + c)%nat =
          Some (get3 (toLinear_pixel sample T_max sizeof_T T_of_bytes src proc transform
                        (Z.of_nat y * bpr + Z.of_nat x * (3 * sizeof_T))) c).
Proof.
    intros Hw Hh. unfold toLinear.
    rewrite !uint32_small by assumption.
    cbn [new_LinearImage getWidth getHeight getChannels getData].
    destruct (unpack_loop (Z.to_nat w) (Z.to_nat h)
      (toLinear_pixel sample T_max sizeof_T T_of_bytes src proc transform) (fun y => Z.of_nat y * bpr) (3 * sizeof_T)
      (replicate (Z.to_nat (w * h * 3)) (S754_zero false)))
      as (data & Heq & Hl & Hcell).
    { rewrite length_replicate. lia. }
    match goal with
    | |- context [for_range 0 (Z.to_nat h) ?b ?s] =>
        replace (for_range 0 (Z.to_nat h) b s)
          with (data, (Z.to_nat h * Z.to_nat w)%nat)
          by (symmetry; exact Heq)
    end.
    exists data. repeat split; assumption.
Qed.

  (** C6, amended to widths and heights below 2^32, the values that the
      [uint32_t] dimensions of a [LinearImage] hold: [toLinear<T>] returns a
      w x h image of 3 channels whose pixel (x, y) is [transform] applied to
      (proc(p[0]), proc(p[1]), proc(p[2])) divided by the maximum of [T],
      where [p] is at byte offset y*bpr + x*3*sizeof(T) of the source; a
      source that differs only outside the first w*3*sizeof(T) bytes of the
      rows gives the same image. *)
Theorem toLinear_pixels (w h bpr : Z) (src : Z -> Z)
      (proc : sample -> float32) (transform : float3 -> float3) :
    0 <= w < 2 ^ 32 -> 0 <= h < 2 ^ 32 ->
    let result :=
      toLinear sample T_max sizeof_T T_of_bytes w h bpr src proc transform in
    getWidth result = w /\ getHeight result = h /\ getChannels result = 3 /\
    (forall x y, 0 <= x < w -> 0 <= y < h ->
       get_float3 result x y =
         transform
           (vdiv3
              (Float3
                 (proc (load_T sample sizeof_T T_of_bytes src
                          (y * bpr + x * (3 * sizeof_T)) 0))
                 (proc (load_T sample sizeof_T T_of_bytes src
                          (y * bpr + x * (3 * sizeof_T)) 1))
                 (proc (load_T sample sizeof_T T_of_bytes src
                          (y * bpr + x * (3 * sizeof_T)) 2)))
              (of_Z T_max))) /\
    (forall src' : Z -> Z,
       (forall y j, 0 <= y < h -> 0 <= j < w * 3 * sizeof_T ->
          src' (y * bpr + j) = src (y * bpr + j)) ->
       toLinear sample T_max sizeof_T T_of_bytes w h bpr src' proc transform =
       result).
Proof.
    intros Hw Hh result.
    destruct (toLinear_data w h bpr src proc transform Hw Hh)
      as (data & Heq & Hl & Hcell).
    subst result. rewrite Heq. cbn [getWidth getHeight getChannels].
    repeat split.
    - intros x y Hx Hy. unfold get_float3, getPixelRef, load.
      cbn [getWidth getHeight getChannels getData].
      pose proof (Hcell (Z.to_nat x) (Z.to_nat y)) as Hc.
      rewrite !Z2Nat.id in Hc by lia.
      replace (Z.to_nat ((y * w + x) * 3))
        with (3 * (Z.to_nat y * Z.to_nat w + Z.to_nat x) + 0)%nat by lia.
      replace (Z.to_nat ((y * w + x) * 3 + 1))
        with (3 * (Z.to_nat y * Z.to_nat w + Z.to_nat x) + 1)%nat by lia.
      replace (Z.to_nat ((y * w + x) * 3 + 2))
        with (3 * (Z.to_nat y * Z.to_nat w + Z.to_nat x) + 2)%nat by lia.
      rewrite !Hc by lia. cbn [default get3].
      unfold toLinear_pixel. destruct (transform _); reflexivity.
    - intros src' Hagree.
      destruct (toLinear_data w h bpr src' proc transform Hw Hh)
        as (data' & Heq' & Hl' & Hcell').
      rewrite Heq'. f_equal. apply list_eq. intros j.
      destruct (decide (j < 3 * (Z.to_nat h * Z.to_nat w))%nat) as [Hj|Hj].
      + set (W := Z.to_nat w) in *. set (H := Z.to_nat h) in *.
        assert (HW : (0 < W)%nat) by nia.
        pose proof (Nat.div_mod_eq j 3) as E3.
        pose proof (Nat.mod_upper_bound j 3 ltac:(lia)) as B3.
        pose proof (Nat.div_mod_eq (j / 3) W) as EW.
        pose proof (Nat.mod_upper_bound (j / 3) W ltac:(lia)) as BW.
        set (n := (j / 3)%nat) in *. set (c := (j mod 3)%nat) in *.
        set (y := (n / W)%nat) in *. set (x := (n mod W)%nat) in *.
        assert (Hy : (y < H)%nat) by nia.
        replace j with (3 * (y * W + x) + c)%nat by lia.
        rewrite Hcell, Hcell' by assumption. do 2 f_equal.
        unfold toLinear_pixel. do 2 f_equal.
        assert (Hin : forall k, 0 <= k < 3 ->
          load_T sample sizeof_T T_of_bytes src'
            (Z.of_nat y * bpr + Z.of_nat x * (3 * sizeof_T)) k =
          load_T sample sizeof_T T_of_bytes src
            (Z.of_nat y * bpr + Z.of_nat x * (3 * sizeof_T)) k).
        { intros k Hk. apply load_T_ext. intros i Hi.
          replace (Z.of_nat y * bpr + Z.of_nat x * (3 * sizeof_T) + k * sizeof_T + i)
            with (Z.of_nat y * bpr + ((3 * Z.of_nat x + k) * sizeof_T + i)) by lia.
          apply Hagree; [subst W H; lia|].
          assert (3 * Z.of_nat x + k + 1 <= 3 * w) by (subst W; lia).
          nia. }
        rewrite !Hin by lia. reflexivity.
      + rewrite !lookup_ge_None_2 by lia. reflexivity.
Qed.

End Unpacker.

(** C6, as stated, fails: a width of 2^32 is a [size_t].  With a height of 0
    the loops do not run and nothing is stored; the call returns the image
    that was constructed, whose width is the [uint32_t] 0 and not 2^32. *)
Lemma toLinear_width_truncated :
  toLinear Z 255 1 first_byte (2 ^ 32) 0 (3 * 2 ^ 32) ramp of_Z identity3 =
    MkLinearImage 0 0 3 [] /\
  getWidth (toLinear Z 255 1 first_byte (2 ^ 32) 0 (3 * 2 ^ 32)
              ramp of_Z identity3) <> 2 ^ 32.
Proof.
  assert (E : toLinear Z 255 1 first_byte (2 ^ 32) 0 (3 * 2 ^ 32) ramp of_Z identity3 =
              MkLinearImage 0 0 3 []) by (vm_compute; reflexivity).
  split; [exact E|]. rewrite E. cbn [getWidth]. discriminate.
Qed.

(** * Rounding to binary32

    What [binary_round_aux] returns, in terms of the integers it works on. *)

Lemma digits2_pos_bounds (p : positive) :
  2 ^ (Zpos (digits2_pos p) - 1) <= Zpos p < 2 ^ Zpos (digits2_pos p).
Proof.
  induction p as [p IH|p IH|]; cbn [digits2_pos].
  - rewrite Pos2Z.inj_succ.
    replace (Z.succ (Zpos (digits2_pos p)) - 1)
      with (Z.succ (Zpos (digits2_pos p) - 1)) by lia.
    rewrite !Z.pow_succ_r by lia. lia.
  - rewrite Pos2Z.inj_succ.
    replace (Z.succ (Zpos (digits2_pos p)) - 1)
      with (Z.succ (Zpos (digits2_pos p) - 1)) by lia.
    rewrite !Z.pow_succ_r by lia. lia.
  - cbn. lia.
Qed.

Lemma digits_bounds (m : Z) :
  0 < m -> 0 < digits m /\ 2 ^ (digits m - 1) <= m < 2 ^ digits m.
Proof.
  intros Hm. destruct m as [|p|p]; try lia.
  unfold digits, Zdigits2. split; [lia | apply digits2_pos_bounds].
Qed.

Lemma digits_nonneg (m : Z) : 0 <= digits m.
Proof. destruct m; unfold digits, Zdigits2; lia. Qed.

Lemma digits_le (m d : Z) : 0 <= d -> 0 <= m < 2 ^ d -> digits m <= d.
Proof.
  intros Hd Hm. destruct (Z.eq_dec m 0) as [->|Hz]; [cbn; lia|].
  destruct (digits_bounds m ltac:(lia)) as (Hp & Hlo & _).
  destruct (Z_le_gt_dec (digits m) d) as [|Hgt]; [assumption|].
  assert (2 ^ d <= 2 ^ (digits m - 1)) by (apply Z.pow_le_mono_r; lia). lia.
Qed.

Lemma digits_ge (m d : Z) : 0 < m -> 2 ^ (d - 1) <= m -> d <= digits m.
Proof.
  intros Hpos Hm.
  destruct (digits_bounds m Hpos) as (Hp & _ & Hhi).
  destruct (Z_le_gt_dec d (digits m)) as [|Hgt]; [assumption|].
  assert (2 ^ digits m <= 2 ^ (d - 1)) by (apply Z.pow_le_mono_r; lia). lia.
Qed.

Lemma digits_unique (m d : Z) :
  0 < m -> 2 ^ (d - 1) <= m < 2 ^ d -> digits m = d.
Proof.
  intros Hpos [Hlo Hhi].
  assert (0 <= d).
  { destruct (Z_lt_le_dec d 0); [|assumption].
    rewrite (Z.pow_neg_r 2 d) in Hhi by lia. lia. }
  pose proof (digits_le m d). pose proof (digits_ge m d). lia.
Qed.

Lemma fexp32_eq (e : Z) : fexp prec emax e = fexp32 e.
Proof. reflexivity. Qed.

Lemma fexp32_mono (a b : Z) : a <= b -> fexp32 a <= fexp32 b.
Proof. unfold fexp32. lia. Qed.

(** ** Shifting a mantissa right *)

Lemma iter_pos_nat {A : Type} (f : A -> A) (p : positive) (x : A) :
  SpecFloat.iter_pos f p x = Nat.iter (Pos.to_nat p) f x.
Proof.
  revert x. induction p as [p IH|p IH|]; intros x; cbn [SpecFloat.iter_pos].
  - rewrite !IH, Pos2Nat.inj_xI.
    replace (Datatypes.S (2 * Pos.to_nat p))
      with (Pos.to_nat p + (Pos.to_nat p + 1))%nat by lia.
    rewrite !Nat.iter_add. reflexivity.
  - rewrite !IH, Pos2Nat.inj_xO.
    replace (2 * Pos.to_nat p)%nat with (Pos.to_nat p + Pos.to_nat p)%nat by lia.
    rewrite Nat.iter_add. reflexivity.
  - reflexivity.
Qed.

Lemma shr_1_spec (m : Z) (r s : bool) :
  0 <= m ->
  shr_1 (Build_shr_record m r s) = Build_shr_record (m / 2) (Z.odd m) (r || s).
Proof.
  intros Hm. rewrite <- Z.div2_div.
  destruct m as [|[p|p|]|p]; try lia; reflexivity.
Qed.

Lemma mod_pow2_succ (m n : Z) :
  0 <= n ->
  (m mod 2 ^ (n + 1) =? 0) = (m mod 2 ^ n =? 0) && negb (Z.odd (m / 2 ^ n)).
Proof.
  intros Hn. rewrite Z.pow_add_r, Z.pow_1_r by lia.
  assert (Hp : 0 < 2 ^ n) by (apply Z.pow_pos_nonneg; lia).
  rewrite Z.rem_mul_r by lia. rewrite Zodd_mod.
  pose proof (Z.mod_pos_bound m (2 ^ n) Hp).
  pose proof (Z.mod_pos_bound (m / 2 ^ n) 2 ltac:(lia)).
  destruct (Z.eqb_spec (m mod 2 ^ n) 0), (Z.eqb_spec ((m / 2 ^ n) mod 2) 1);
    cbn; apply Z.eqb_neq || apply Z.eqb_eq; nia.
Qed.

Lemma shr_iter (n : nat) (m : Z) (r s : bool) :
  0 <= m ->
  Nat.iter (Datatypes.S n) shr_1 (Build_shr_record m r s) =
    Build_shr_record (m / 2 ^ Z.of_nat (Datatypes.S n))
      (Z.odd (m / 2 ^ Z.of_nat n))
      (r || s || negb (m mod 2 ^ Z.of_nat n =? 0)).
Proof.
  intros Hm. induction n as [|n IH].
  - cbn [Nat.iter]. rewrite shr_1_spec by assumption.
    change (2 ^ Z.of_nat 1) with 2. change (2 ^ Z.of_nat 0) with 1.
    rewrite Z.div_1_r, Z.mod_1_r. cbn. rewrite orb_false_r. reflexivity.
  - change (Nat.iter (Datatypes.S (Datatypes.S n)) shr_1 ?x)
      with (shr_1 (Nat.iter (Datatypes.S n) shr_1 x)).
    rewrite IH.
    assert (Hp : 0 < 2 ^ Z.of_nat (Datatypes.S n)) by (apply Z.pow_pos_nonneg; lia).
    rewrite shr_1_spec by (apply Z.div_pos; lia).
    f_equal.
    + rewrite Z.div_div by lia.
      rewrite (Nat2Z.inj_succ (Datatypes.S n)), Z.pow_succ_r by lia.
      f_equal. lia.
    + rewrite (Nat2Z.inj_succ n). unfold Z.succ.
      rewrite mod_pow2_succ by lia.
      destruct r, s, (Z.odd (m / 2 ^ Z.of_nat n)), (m mod 2 ^ Z.of_nat n =? 0);
        reflexivity.
Qed.

Lemma shr_spec (m : Z) (r s : bool) (e n : Z) :
  0 <= m -> 0 < n ->
  shr (Build_shr_record m r s) e n =
    (Build_shr_record (m / 2 ^ n) (Z.odd (m / 2 ^ (n - 1)))
       (r || s || negb (m mod 2 ^ (n - 1) =? 0)),
     e + n).
Proof.
  intros Hm Hn. destruct n as [|p|p]; try lia. cbn [shr].
  rewrite iter_pos_nat.
  destruct (Pos.to_nat p) as [|k] eqn:Hk; [lia|].
  rewrite shr_iter by assumption.
  replace (Z.of_nat (Datatypes.S k)) with (Zpos p) by lia.
  replace (Z.of_nat k) with (Zpos p - 1) by lia.
  reflexivity.
Qed.

Lemma shr_record_of_loc_m (m : Z) (l : location) :
  exists r s, shr_record_of_loc m l = Build_shr_record m r s /\
              (l = loc_Exact -> r = false /\ s = false).
Proof.
  destruct l as [|[]]; cbn; eexists _, _; (split; [reflexivity|]);
    intros H; try discriminate H; split; reflexivity.
Qed.

Lemma first_shift (m e n : Z) (l : location) :
  0 <= m -> 0 <= n ->
  exists r s,
    shr (shr_record_of_loc m l) e n = (Build_shr_record (m / 2 ^ n) r s, e + n) /\
    (l = loc_Exact -> 0 < n ->
       r = Z.odd (m / 2 ^ (n - 1)) /\ s = negb (m mod 2 ^ (n - 1) =? 0)) /\
    (l = loc_Exact -> n = 0 -> r = false /\ s = false).
Proof.
  intros Hm Hn.
  destruct (shr_record_of_loc_m m l) as (r0 & s0 & -> & Hex).
  destruct (Z.eq_dec n 0) as [->|Hnz].
  - exists r0, s0. cbn [shr]. rewrite Z.div_1_r, Z.add_0_r.
    repeat split; try lia; intros; apply Hex; assumption.
  - rewrite shr_spec by lia. eexists _, _. split; [reflexivity|].
    split; [|lia]. intros Hl _. destruct (Hex Hl) as [-> ->]. cbn. split; reflexivity.
Qed.

Lemma round_nearest_even_cases (m : Z) (l : location) :
  round_nearest_even m l = m \/ round_nearest_even m l = m + 1.
Proof.
  destruct l as [|[]]; cbn; auto. destruct (Z.even m); auto.
Qed.

(** With nothing lost before the shift, the mantissa kept is the nearest. *)
Lemma round_nearest_even_near (m n : Z) :
  0 <= m -> 0 < n ->
  2 * Z.abs
        (round_nearest_even (m / 2 ^ n)
           (loc_of_shr_record
              (Build_shr_record (m / 2 ^ n) (Z.odd (m / 2 ^ (n - 1)))
                 (negb (m mod 2 ^ (n - 1) =? 0)))) * 2 ^ n - m) <= 2 ^ n.
Proof.
  intros Hm Hn.
  assert (HP : 0 < 2 ^ (n - 1)) by (apply Z.pow_pos_nonneg; lia).
  assert (E2 : 2 ^ n = 2 * 2 ^ (n - 1)).
  { replace n with (Z.succ (n - 1)) at 1 by lia. apply Z.pow_succ_r. lia. }
  pose proof (Z.div_mod m (2 ^ (n - 1)) ltac:(lia)) as Hdm.
  pose proof (Z.mod_pos_bound m (2 ^ (n - 1)) HP) as Hrem.
  assert (Hq : m / 2 ^ n = m / 2 ^ (n - 1) / 2).
  { rewrite E2, (Z.mul_comm 2), <- Z.div_div by lia. reflexivity. }
  pose proof (Z.div_mod (m / 2 ^ (n - 1)) 2 ltac:(lia)) as Hd2.
  pose proof (Z.mod_pos_bound (m / 2 ^ (n - 1)) 2 ltac:(lia)) as Hb.
  rewrite Zodd_mod. rewrite Hq. 
  set (q := m / 2 ^ (n - 1) / 2) in *. set (a := m mod 2 ^ (n - 1)) in *.
  set (h := m / 2 ^ (n - 1)) in *. set (b := h mod 2) in *.
  rewrite E2. set (P := 2 ^ (n - 1)) in *.
  destruct (Z.eqb_spec b 1) as [Hb1|Hb1], (Z.eqb_spec a 0) as [Ha|Ha];
    cbn [negb loc_of_shr_record round_nearest_even].
  - destruct (Z.even q); nia.
  - nia.
  - nia.
  - nia.
Qed.

Lemma round_aux_spec (s : bool) (m e : Z) (l : location) :
  0 <= m -> e <= fexp32 (digits m + e) ->
  exists m2,
    (m2 = m / 2 ^ (fexp32 (digits m + e) - e) \/
     m2 = m / 2 ^ (fexp32 (digits m + e) - e) + 1) /\
    binary_round_aux prec emax s m e l = mk_float s m2 (fexp32 (digits m + e)) /\
    m / 2 ^ (fexp32 (digits m + e) - e) < 2 ^ 24 /\
    (-149 < fexp32 (digits m + e) ->
       2 ^ 23 <= m / 2 ^ (fexp32 (digits m + e) - e)) /\
    (l = loc_Exact ->
       2 * Z.abs (m2 * 2 ^ (fexp32 (digits m + e) - e) - m)
         <= 2 ^ (fexp32 (digits m + e) - e)).
Proof.
  intros Hm Hpre.
  set (E := fexp32 (digits m + e)) in *. set (n := E - e).
  assert (Hn : 0 <= n) by (subst n; lia).
  assert (Hpn : 0 < 2 ^ n) by (apply Z.pow_pos_nonneg; lia).
  set (m1 := m / 2 ^ n).
  assert (Hm1 : 0 <= m1) by (apply Z.div_pos; lia).
  (* bounds on the shifted mantissa *)
  assert (Hhi : m1 < 2 ^ 24).
  { destruct (Z.eq_dec m 0) as [->|Hz]; [subst m1; rewrite Z.div_0_l; lia|].
    destruct (digits_bounds m ltac:(lia)) as (Hd & _ & Hlt).
    apply Z.div_lt_upper_bound; [assumption|].
    rewrite <- Z.pow_add_r by lia.
    eapply Z.lt_le_trans; [exact Hlt|]. apply Z.pow_le_mono_r; [lia|].
    subst n E. unfold fexp32. lia. }
  assert (Hlo : -149 < E -> 2 ^ 23 <= m1).
  { intros HE. destruct (Z.eq_dec m 0) as [->|Hz].
    - exfalso. subst E. unfold fexp32 in *. cbn [digits Zdigits2] in *. lia.
    - destruct (digits_bounds m ltac:(lia)) as (Hd & Hge & _).
      apply Z.div_le_lower_bound; [assumption|].
      rewrite <- Z.pow_add_r by lia.
      eapply Z.le_trans; [|exact Hge]. apply Z.pow_le_mono_r; [lia|].
      subst n E. unfold fexp32 in *. lia. }
  destruct (first_shift m e n l Hm Hn) as (r' & s' & Hsh & Hex1 & Hex0).
  set (m2 := round_nearest_even m1 (loc_of_shr_record (Build_shr_record m1 r' s'))).
  assert (Hm2 : m2 = m1 \/ m2 = m1 + 1) by apply round_nearest_even_cases.
  exists m2. split; [exact Hm2|]. split; [|split; [exact Hhi|split; [exact Hlo|]]].
  - unfold binary_round_aux, shr_fexp. rewrite fexp32_eq.
    fold (digits m). fold E. fold n. rewrite Hsh. cbn [shr_m].
    fold m1. fold m2. replace (e + n) with E by (subst n; lia).
    rewrite fexp32_eq. fold (digits m2).
    destruct (Z.eq_dec m2 (2 ^ 24)) as [H24|H24].
    + rewrite H24. change (digits (2 ^ 24)) with 25.
      replace (fexp32 (25 + E) - E) with 1 by (subst E; unfold fexp32; lia).
      cbn [shr_record_of_loc]. rewrite shr_spec by lia.
      cbn [shr_m]. change (2 ^ 24 / 2 ^ 1) with 8388608.
      unfold mk_float. change (2 ^ 24) with 16777216. cbn [Z.eqb Pos.eqb].
      reflexivity.
    + assert (Hn2 : fexp32 (digits m2 + E) - E = 0).
      { destruct (Z.eq_dec m2 0) as [Hz|Hz].
        - rewrite Hz. cbn [digits Zdigits2].
          destruct (Z_lt_le_dec (-149) E) as [HE|HE]; [specialize (Hlo HE); lia|].
          subst E. unfold fexp32 in *. lia.
        - assert (Hd2 : digits m2 <= 24) by (apply digits_le; lia).
          destruct (Z_lt_le_dec (-149) E) as [HE|HE].
          + specialize (Hlo HE).
            assert (24 <= digits m2) by (apply digits_ge; [lia|]; cbn; lia).
            unfold fexp32. lia.
          + unfold fexp32. subst E. unfold fexp32 in *. lia. }
      rewrite Hn2. cbn [shr_record_of_loc shr shr_m].
      unfold mk_float. destruct m2 as [|p|p]; try lia; [reflexivity|].
      destruct (Z.eqb_spec (Zpos p) 16777216) as [Heq|Hne];
        [exfalso; apply H24; rewrite Heq; reflexivity | reflexivity].
  - intros Hl. destruct (Z.eq_dec n 0) as [Hz|Hz].
    + destruct (Hex0 Hl Hz) as [Hr Hs]. subst m2. rewrite Hr, Hs. cbn.
      subst m1. rewrite Hz. cbn. rewrite Z.div_1_r. lia.
    + destruct (Hex1 Hl ltac:(lia)) as [Hr Hs]. subst m2 m1. rewrite Hr, Hs.
      apply round_nearest_even_near; lia.
Qed.

(** ** Canonical representations *)

Lemma valid_finite (s : bool) (m : positive) (e : Z) :
  valid (S754_finite s m e) = true <->
  fexp32 (digits (Zpos m) + e) = e /\ e <= 104.
Proof.
  unfold valid, valid_binary, bounded, canonical_mantissa.
  rewrite andb_true_iff, Z.eqb_eq, Z.leb_le. reflexivity.
Qed.

Lemma valid_bounds (s : bool) (m : positive) (e : Z) :
  valid (S754_finite s m e) = true ->
  -149 <= e <= 104 /\ Zpos m < 2 ^ 24 /\ (-149 < e -> 2 ^ 23 <= Zpos m) /\
  digits (Zpos m) <= 24 /\ (-149 < e -> digits (Zpos m) = 24).
Proof.
  intros H. apply valid_finite in H. destruct H as [Hc He].
  destruct (digits_bounds (Zpos m) ltac:(lia)) as (Hd & Hlo & Hhi).
  unfold fexp32 in Hc.
  assert (Hd24 : digits (Zpos m) <= 24) by lia.
  assert (Hlt : Zpos m < 2 ^ 24).
  { eapply Z.lt_le_trans; [exact Hhi|]. apply Z.pow_le_mono_r; lia. }
  repeat split; try lia.
  intros Hn. replace (digits (Zpos m)) with 24 in Hlo by lia. exact Hlo.
Qed.

Lemma mk_float_valid (s : bool) (m2 E : Z) :
  0 <= m2 <= 2 ^ 24 -> -149 <= E -> (-149 < E -> 2 ^ 23 <= m2) ->
  valid (mk_float s m2 E) = true.
Proof.
  intros Hm HE Hn. unfold mk_float.
  destruct m2 as [|p|p]; try lia; [reflexivity|].
  destruct (Z.eqb_spec (Zpos p) 16777216) as [Heq|Hne].
  - destruct (Z.leb_spec (E + 1) 104); [|reflexivity].
    apply valid_finite. change (digits 8388608) with 24. unfold fexp32. lia.
  - destruct (Z.leb_spec E 104); [|reflexivity].
    apply valid_finite. split; [|assumption].
    assert (Hlt : Zpos p < 2 ^ 24) by (change (2 ^ 24) with 16777216 in *; lia).
    assert (Hd : digits (Zpos p) <= 24) by (apply digits_le; lia).
    destruct (Z_lt_le_dec (-149) E) as [Hc|Hc].
    + assert (24 <= digits (Zpos p)) by (apply digits_ge; [lia|]; apply Hn, Hc).
      unfold fexp32. lia.
    + unfold fexp32. lia.
Qed.

Lemma ival_mk_float (m2 E : Z) :
  0 <= m2 <= 2 ^ 24 -> -149 <= E -> E + 1 <= 104 ->
  ival (mk_float false m2 E) = m2 * 2 ^ (E + 149).
Proof.
  intros Hm HE Ho. unfold mk_float.
  destruct m2 as [|p|p]; try lia; [reflexivity|].
  destruct (Z.eqb_spec (Zpos p) 16777216) as [Heq|Hne].
  - replace (E + 1 <=? 104) with true by (symmetry; apply Z.leb_le; lia).
    cbn [ival]. rewrite Heq.
    replace (E + 1 + 149) with (Z.succ (E + 149)) by lia.
    rewrite Z.pow_succ_r by lia. lia.
  - replace (E <=? 104) with true by (symmetry; apply Z.leb_le; lia).
    cbn [ival]. lia.
Qed.

(** On canonical positive values the comparison is the one of the values. *)
Lemma flt_ival_pos (mx my : positive) (ex ey : Z) :
  valid (S754_finite false mx ex) = true ->
  valid (S754_finite false my ey) = true ->
  (flt (S754_finite false mx ex) (S754_finite false my ey) = true <->
   ival (S754_finite false mx ex) < ival (S754_finite false my ey)).
Proof.
  intros Hx Hy.
  destruct (valid_bounds _ _ _ Hx) as (Hex & Hmx & Hnx & _).
  destruct (valid_bounds _ _ _ Hy) as (Hey & Hmy & Hny & _).
  rewrite flt_key. unfold key_lt. cbn [key is_nan fst snd ival].
  rewrite !Z.mul_1_l.
  assert (Hcross : forall (m m' : positive) (e e' : Z),
    -149 <= e -> e < e' -> Zpos m < 2 ^ 24 -> 2 ^ 23 <= Zpos m' ->
    Zpos m * 2 ^ (e + 149) < Zpos m' * 2 ^ (e' + 149)).
  { intros m m' e e' He Hee Hm Hm'.
    replace (e' + 149) with ((e + 149) + (e' - e - 1) + 1) by lia.
    rewrite (Z.pow_add_r 2 (e + 149 + (e' - e - 1)) 1) by lia.
    rewrite (Z.pow_add_r 2 (e + 149) (e' - e - 1)), Z.pow_1_r by lia.
    assert (0 < 2 ^ (e + 149)) by (apply Z.pow_pos_nonneg; lia).
    assert (1 <= 2 ^ (e' - e - 1)) by (pose proof (Z.pow_pos_nonneg 2 (e' - e - 1)); lia).
    change (2 ^ 24) with 16777216 in Hm. change (2 ^ 23) with 8388608 in Hm'.
    set (A := 2 ^ (e + 149)) in *. set (B := 2 ^ (e' - e - 1)) in *.
    assert (Zpos m * A < 16777216 * A) by nia.
    assert (16777216 * A <= Zpos m' * A * 2) by nia.
    assert (Zpos m' * A * 1 <= Zpos m' * A * B) by (apply Z.mul_le_mono_nonneg_l; nia).
    lia. }
  split.
  - intros (_ & _ & H). destruct H as [H|[_ [H|[E H]]]].
    + lia.
    + apply Hcross; lia.
    + subst ey. assert (0 < 2 ^ (ex + 149)) by (apply Z.pow_pos_nonneg; lia). nia.
  - intros H. repeat split. right. split; [reflexivity|].
    destruct (Z.lt_trichotomy ex ey) as [Hlt|[Heq|Hgt]].
    + left. exact Hlt.
    + right. split; [exact Heq|]. subst ey.
      assert (0 < 2 ^ (ex + 149)) by (apply Z.pow_pos_nonneg; lia). nia.
    + exfalso. pose proof (Hcross my mx ey ex ltac:(lia) Hgt Hmy (Hnx ltac:(lia))). lia.
Qed.

Lemma fle_flt (x y : float32) :
  is_nan x = false -> is_nan y = false -> fle x y = negb (flt y x).
Proof.
  intros Hx Hy. destruct (flt y x) eqn:E.
  - apply flt_key in E. unfold fle, SFleb.
    destruct (SFcompare x y) as [[]|] eqn:C; try reflexivity; exfalso.
    + assert (Hxy : flt x y = false) by (unfold flt, SFltb; rewrite C; reflexivity).
      unfold key_lt in E.
      destruct x as [[]|[]| |[] mx ex], y as [[]|[]| |[] my ey];
        cbn in C, E; try discriminate; try lia;
        destruct (Z.compare_spec ex ey); try discriminate;
        rewrite ?Pos.compare_cont_spec in C; cbn in C;
        destruct (Pos.compare_spec mx my); cbn in C; try discriminate; lia.
    + assert (Hxy : flt x y = true) by (unfold flt, SFltb; rewrite C; reflexivity).
      apply flt_key in Hxy. unfold key_lt in *. lia.
  - cbn. unfold fle, SFleb, flt, SFltb in *.
    destruct (SFcompare x y) as [[]|] eqn:C; try reflexivity; exfalso.
    + assert (Hk : key_lt (key y) (key x)).
      { unfold key_lt.
        destruct x as [[]|[]| |[] mx ex], y as [[]|[]| |[] my ey];
          cbn in C |- *; try discriminate; try lia;
          destruct (Z.compare_spec ex ey); try discriminate; try lia;
          rewrite ?Pos.compare_cont_spec in C; cbn in C;
          destruct (Pos.compare_spec mx my); cbn in C; try discriminate; lia. }
      assert (flt y x = true) by (apply flt_key; auto).
      unfold flt, SFltb in *. congruence.
    + destruct x, y; cbn in *; discriminate.
Qed.

Lemma fle_ival_pos (mx my : positive) (ex ey : Z) :
  valid (S754_finite false mx ex) = true ->
  valid (S754_finite false my ey) = true ->
  (fle (S754_finite false mx ex) (S754_finite false my ey) = true <->
   ival (S754_finite false mx ex) <= ival (S754_finite false my ey)).
Proof.
  intros Hx Hy. rewrite fle_flt by reflexivity.
  pose proof (flt_ival_pos my mx ey ex Hy Hx) as H.
  destruct (flt (S754_finite false my ey) (S754_finite false mx ex)); cbn [negb].
  - split; [discriminate|]. intros. assert (true = true) as T by reflexivity.
    apply H in T. exfalso. lia.
  - split; [|reflexivity]. intros _.
    destruct (Z_lt_le_dec (ival (S754_finite false my ey)) (ival (S754_finite false mx ex)))
      as [Hlt|Hle]; [|exact Hle].
    apply H in Hlt. discriminate.
Qed.

(** ** Products, quotients and integers *)

Lemma digits_mul_le (a b : Z) :
  0 < a -> 0 < b -> digits (a * b) <= digits a + digits b.
Proof.
  intros Ha Hb.
  destruct (digits_bounds a Ha) as (Hda & _ & Hha).
  destruct (digits_bounds b Hb) as (Hdb & _ & Hhb).
  apply digits_le; [lia|]. rewrite Z.pow_add_r by lia. nia.
Qed.

Lemma digits_mul_ge (a b : Z) :
  0 < a -> 0 < b -> digits a + digits b - 1 <= digits (a * b).
Proof.
  intros Ha Hb.
  destruct (digits_bounds a Ha) as (Hda & Hla & _).
  destruct (digits_bounds b Hb) as (Hdb & Hlb & _).
  apply digits_ge; [nia|].
  replace (digits a + digits b - 1 - 1) with ((digits a - 1) + (digits b - 1)) by lia.
  rewrite Z.pow_add_r by lia.
  assert (0 < 2 ^ (digits a - 1)) by (apply Z.pow_pos_nonneg; lia).
  assert (0 < 2 ^ (digits b - 1)) by (apply Z.pow_pos_nonneg; lia).
  nia.
Qed.

(** The product of two canonical positive values. *)
Lemma fmul_pos_spec (mx my : positive) (ex ey : Z) :
  valid (S754_finite false mx ex) = true ->
  valid (S754_finite false my ey) = true ->
  ex + ey <= fexp32 (digits (Zpos mx * Zpos my) + (ex + ey)) /\
  exists m2,
    (m2 = Zpos mx * Zpos my /
            2 ^ (fexp32 (digits (Zpos mx * Zpos my) + (ex + ey)) - (ex + ey)) \/
     m2 = Zpos mx * Zpos my /
            2 ^ (fexp32 (digits (Zpos mx * Zpos my) + (ex + ey)) - (ex + ey)) + 1) /\
    fmul (S754_finite false mx ex) (S754_finite false my ey) =
      mk_float false m2 (fexp32 (digits (Zpos mx * Zpos my) + (ex + ey))) /\
    Zpos mx * Zpos my /
      2 ^ (fexp32 (digits (Zpos mx * Zpos my) + (ex + ey)) - (ex + ey)) < 2 ^ 24 /\
    (-149 < fexp32 (digits (Zpos mx * Zpos my) + (ex + ey)) ->
       2 ^ 23 <= Zpos mx * Zpos my /
         2 ^ (fexp32 (digits (Zpos mx * Zpos my) + (ex + ey)) - (ex + ey))) /\
    2 * Z.abs
          (m2 * 2 ^ (fexp32 (digits (Zpos mx * Zpos my) + (ex + ey)) - (ex + ey))
           - Zpos mx * Zpos my)
      <= 2 ^ (fexp32 (digits (Zpos mx * Zpos my) + (ex + ey)) - (ex + ey)).
Proof.
  intros Hx Hy.
  destruct (valid_bounds _ _ _ Hx) as (Hex & _ & _ & Hdx & Hdx').
  destruct (valid_bounds _ _ _ Hy) as (Hey & _ & _ & Hdy & Hdy').
  pose proof (digits_mul_ge (Zpos mx) (Zpos my) ltac:(lia) ltac:(lia)) as Hd.
  destruct (digits_bounds (Zpos mx) ltac:(lia)) as (Hpx & _).
  destruct (digits_bounds (Zpos my) ltac:(lia)) as (Hpy & _).
  assert (Hpre : ex + ey <= fexp32 (digits (Zpos mx * Zpos my) + (ex + ey))).
  { unfold fexp32.
    destruct (Z_lt_le_dec (-149) ex) as [Hcx|Hcx];
      [specialize (Hdx' Hcx); lia|].
    destruct (Z_lt_le_dec (-149) ey) as [Hcy|Hcy];
      [specialize (Hdy' Hcy); lia|]. lia. }
  split; [exact Hpre|].
  destruct (round_aux_spec false (Zpos mx * Zpos my) (ex + ey) loc_Exact
              ltac:(lia) Hpre) as (m2 & Hm2 & Heq & Hhi & Hlo & Hnear).
  exists m2. split; [exact Hm2|].
  split; [unfold fmul; cbn [SFmul xorb]; exact Heq|].
  split; [exact Hhi|]. split; [exact Hlo|]. apply Hnear. reflexivity.
Qed.

Lemma iter_xO (p n : positive) : Zpos (Pos.iter xO p n) = Zpos p * 2 ^ Zpos n.
Proof.
  induction n as [|n IH] using Pos.peano_ind.
  - cbn. lia.
  - rewrite Pos.iter_succ, Pos2Z.inj_succ, Z.pow_succ_r by lia.
    rewrite Pos2Z.inj_xO, IH. lia.
Qed.

(** The conversion of a positive integer below [2^24] is exact. *)
Lemma of_Z_small (k : Z) :
  0 < k < 2 ^ 24 ->
  of_Z k =
    S754_finite false (Z.to_pos (k * 2 ^ (24 - digits k))) (digits k - 24) /\
  valid (of_Z k) = true /\ ival (of_Z k) = k * 2 ^ 149.
Proof.
  intros Hk. destruct k as [|p|p]; try lia.
  destruct (digits_bounds (Zpos p) ltac:(lia)) as (Hd & Hlo & Hhi).
  assert (Hd24 : digits (Zpos p) <= 24) by (apply digits_le; lia).
  set (d := digits (Zpos p)) in *.
  assert (Hsh : 0 < 2 ^ (24 - d)) by (apply Z.pow_pos_nonneg; lia).
  assert (Hm : 2 ^ 23 <= Zpos p * 2 ^ (24 - d) < 2 ^ 24).
  { assert (E23 : 2 ^ 23 = 2 ^ (d - 1) * 2 ^ (24 - d))
      by (rewrite <- Z.pow_add_r by lia; f_equal; lia).
    assert (E24 : 2 ^ 24 = 2 ^ d * 2 ^ (24 - d))
      by (rewrite <- Z.pow_add_r by lia; f_equal; lia).
    rewrite E23, E24. split; nia. }
  assert (Hrep : of_Z (Zpos p) =
    S754_finite false (Z.to_pos (Zpos p * 2 ^ (24 - d))) (d - 24)).
  { unfold of_Z, binary_normalize, binary_round.
    change (Zpos (digits2_pos p)) with d. rewrite Z.add_0_r, fexp32_eq.
    replace (fexp32 d) with (d - 24) by (unfold fexp32; lia).
    assert (Hal : shl_align p 0 (d - 24) =
                  (Z.to_pos (Zpos p * 2 ^ (24 - d)), d - 24)).
    { unfold shl_align. rewrite Z.sub_0_r.
      destruct (d - 24) as [|q|q] eqn:Hq; try lia.
      - replace (24 - d) with 0 by lia. rewrite Z.mul_1_r. reflexivity.
      - f_equal. replace (24 - d) with (Zpos q) by lia.
        rewrite <- iter_xO. reflexivity. }
    rewrite Hal.
    set (mz := Zpos p * 2 ^ (24 - d)) in *.
    assert (Hmz : Zpos (Z.to_pos mz) = mz) by (apply Z2Pos.id; lia).
    rewrite Hmz.
    assert (Hdz : digits mz = 24) by (apply digits_unique; lia).
    assert (Hpre : d - 24 <= fexp32 (digits mz + (d - 24)))
      by (rewrite Hdz; unfold fexp32; lia).
    destruct (round_aux_spec false mz (d - 24) loc_Exact ltac:(lia) Hpre)
      as (m2 & _ & Heq & _ & _ & Hnear).
    specialize (Hnear eq_refl). rewrite Hdz in *.
    replace (fexp32 (24 + (d - 24))) with (d - 24) in * by (unfold fexp32; lia).
    rewrite Z.sub_diag in Hnear. change (2 ^ 0) with 1 in Hnear.
    assert (m2 = mz) by lia. subst m2. rewrite Heq.
    unfold mk_float. destruct mz as [|q|q] eqn:Hz; try lia.
    replace (Zpos q =? 16777216) with false
      by (symmetry; apply Z.eqb_neq; change (2 ^ 24) with 16777216 in Hm; lia).
    replace (d - 24 <=? 104) with true by (symmetry; apply Z.leb_le; lia).
    reflexivity. }
  rewrite Hrep. split; [reflexivity|]. split.
  - apply valid_finite. rewrite Z2Pos.id by lia.
    replace (digits (Zpos p * 2 ^ (24 - d))) with 24
      by (symmetry; apply digits_unique; lia).
    unfold fexp32. lia.
  - cbn [ival]. rewrite Z2Pos.id by lia. rewrite Z.mul_1_l, <- Z.mul_assoc.
    rewrite <- Z.pow_add_r by lia. f_equal. f_equal. lia.
Qed.

(** The ceiling of a positive value with a fractional part. *)
Lemma ceil_pos_spec (p : positive) (e : Z) :
  e < 0 ->
  exists k,
    ceil (S754_finite false p e) = of_Z k /\
    (k - 1) * 2 ^ (- e) < Zpos p <= k * 2 ^ (- e).
Proof.
  intros He. unfold ceil.
  replace (0 <=? e) with false by (symmetry; apply Z.leb_gt; lia).
  rewrite Z.shiftr_div_pow2, Z.land_ones by lia.
  assert (HP : 0 < 2 ^ (- e)) by (apply Z.pow_pos_nonneg; lia).
  pose proof (Z.div_mod (Zpos p) (2 ^ (- e)) ltac:(lia)) as Hdm.
  pose proof (Z.mod_pos_bound (Zpos p) (2 ^ (- e)) HP) as Hr.
  eexists. split; [reflexivity|].
  destruct (Z.eqb_spec (Zpos p mod 2 ^ (- e)) 0) as [Hz|Hz]; nia.
Qed.

Lemma round_aux_valid (s : bool) (m e : Z) (l : location) :
  0 <= m -> e <= fexp32 (digits m + e) ->
  valid (binary_round_aux prec emax s m e l) = true.
Proof.
  intros Hm Hpre.
  destruct (round_aux_spec s m e l Hm Hpre) as (m2 & Hm2 & -> & Hhi & Hlo & _).
  assert (0 <= m / 2 ^ (fexp32 (digits m + e) - e)).
  { apply Z.div_pos; [lia|]. apply Z.pow_pos_nonneg; lia. }
  apply mk_float_valid.
  - lia.
  - unfold fexp32. lia.
  - intros HE. specialize (Hlo HE). lia.
Qed.

(** The integer quotient that [SFdiv] rounds. *)
Lemma SFdiv_core_spec (m1 m2 : positive) (e1 e2 : Z) :
  exists q e' l,
    SFdiv_core_binary prec emax (Zpos m1) e1 (Zpos m2) e2 = (q, e', l) /\
    e' = Z.min (fexp32 (digits (Zpos m1) + e1 - (digits (Zpos m2) + e2))) (e1 - e2) /\
    q = Zpos m1 * 2 ^ (e1 - e2 - e') / Zpos m2 /\
    0 <= q /\ e' <= fexp32 (digits q + e').
Proof.
  unfold SFdiv_core_binary. rewrite fexp32_eq.
  fold (digits (Zpos m1)). fold (digits (Zpos m2)).
  set (d1 := digits (Zpos m1)). set (d2 := digits (Zpos m2)).
  set (e' := Z.min (fexp32 (d1 + e1 - (d2 + e2))) (e1 - e2)).
  set (s := e1 - e2 - e').
  assert (Hs : 0 <= s) by (subst s e'; lia).
  assert (Hps : 0 < 2 ^ s) by (apply Z.pow_pos_nonneg; lia).
  assert (Hm' : match s with
                | Zpos _ => Z.shiftl (Zpos m1) s
                | Z0 => Zpos m1
                | Zneg _ => 0
                end = Zpos m1 * 2 ^ s).
  { destruct s as [|p|p] eqn:Es; try lia.
    rewrite Z.shiftl_mul_pow2 by lia. reflexivity. }
  rewrite Hm'.
  destruct (Z.div_eucl (Zpos m1 * 2 ^ s) (Zpos m2)) as [q r] eqn:Hdiv.
  assert (Hq : q = Zpos m1 * 2 ^ s / Zpos m2)
    by (unfold Z.div; rewrite Hdiv; reflexivity).
  exists q, e', (new_location (Zpos m2) r). split; [reflexivity|].
  split; [reflexivity|]. split; [exact Hq|].
  assert (Hq0 : 0 <= q) by (rewrite Hq; apply Z.div_pos; lia).
  split; [exact Hq0|].
  destruct (digits_bounds (Zpos m1) ltac:(lia)) as (Hd1 & Hl1 & Hh1).
  destruct (digits_bounds (Zpos m2) ltac:(lia)) as (Hd2 & Hl2 & Hh2).
  fold d1 in Hd1, Hl1, Hh1. fold d2 in Hd2, Hl2, Hh2.
  destruct (Z_lt_le_dec (d1 + s - d2 - 1) 0) as [Hneg|Hpos].
  - (* the quotient may vanish *)
    destruct (Z.eq_dec q 0) as [Hz|Hz].
    + rewrite Hz. cbn [digits Zdigits2]. subst s e'. unfold fexp32 in *. lia.
    + destruct (digits_bounds q ltac:(lia)) as (Hdq & _).
      apply Z.le_trans with (fexp32 (d1 + e1 - (d2 + e2))); [subst e'; lia|].
      apply fexp32_mono. subst s. lia.
  - assert (Hge : 2 ^ (d1 + s - d2 - 1) <= q).
    { rewrite Hq. apply Z.div_le_lower_bound; [lia|].
      apply Z.le_trans with (2 ^ d2 * 2 ^ (d1 + s - d2 - 1)).
      - apply Z.mul_le_mono_nonneg_r; [apply Z.pow_nonneg; lia | lia].
      - rewrite <- Z.pow_add_r by lia.
        replace (d2 + (d1 + s - d2 - 1)) with ((d1 - 1) + s) by lia.
        rewrite Z.pow_add_r by lia. apply Z.mul_le_mono_nonneg_r; lia. }
    assert (Hqp : 0 < q) by (pose proof (Z.pow_pos_nonneg 2 (d1 + s - d2 - 1)); lia).
    pose proof (digits_ge q (d1 + s - d2) Hqp) as Hdq.
    replace (d1 + s - d2 - 1) with (d1 + s - d2 - 1) in Hge by lia.
    specialize (Hdq Hge).
    apply Z.le_trans with (fexp32 (d1 + e1 - (d2 + e2))); [subst e'; lia|].
    apply fexp32_mono. subst s. lia.
Qed.

Lemma fdiv_valid (x y : float32) : valid (fdiv x y) = true.
Proof.
  destruct x as [sx|sx| |sx mx ex], y as [sy|sy| |sy my ey]; try reflexivity.
  unfold fdiv. cbn [SFdiv].
  destruct (SFdiv_core_spec mx my ex ey) as (q & e' & l & -> & _ & _ & Hq & Hpre).
  apply round_aux_valid; assumption.
Qed.

(** The product of a canonical value below 1 and a canonical constant of
    exponent at most 0: the rounded product does not exceed the constant. *)
Lemma fmul_const_range (m mk : positive) (e ek : Z) :
  valid (S754_finite false m e) = true ->
  valid (S754_finite false mk ek) = true ->
  ek <= 0 -> e <= 0 -> Zpos m < 2 ^ (- e) ->
  exists m2 E,
    fmul (S754_finite false m e) (S754_finite false mk ek) = mk_float false m2 E /\
    -149 <= E <= ek /\
    0 <= m2 <= 2 ^ 24 /\
    m2 <= Zpos mk * 2 ^ (ek - E) /\
    (-149 < E -> 2 ^ 23 <= m2) /\
    (forall a, 0 <= a <= - e -> 2 ^ (- e - a) <= Zpos m ->
       Zpos mk * 2 ^ (ek - E) < (m2 + 1) * 2 ^ a).
Proof.
  intros Hc Hk Hek He Hlt.
  destruct (fmul_pos_spec m mk e ek Hc Hk)
    as (Hpre & m2 & Hm2 & Heq & Hhi & Hlo & _).
  set (P := Zpos m * Zpos mk) in *.
  set (E := fexp32 (digits P + (e + ek))) in *.
  destruct (valid_bounds _ _ _ Hk) as (Hekb & _ & _ & Hdk & _).
  assert (HEk : E <= ek).
  { pose proof (digits_mul_le (Zpos m) (Zpos mk) ltac:(lia) ltac:(lia)) as Hd.
    fold P in Hd.
    assert (digits (Zpos m) <= - e) by (apply digits_le; lia).
    subst E. unfold fexp32. lia. }
  assert (HE : -149 <= E) by (subst E; unfold fexp32; lia).
  set (n := E - (e + ek)) in *.
  assert (Hn : 0 <= n) by (subst n; lia).
  set (X := 2 ^ n) in *. set (Y := 2 ^ (ek - E)).
  assert (HX : 0 < X) by (apply Z.pow_pos_nonneg; lia).
  assert (HY : 0 < Y) by (apply Z.pow_pos_nonneg; lia).
  assert (HXY : 2 ^ (- e) = X * Y).
  { subst X Y. rewrite <- Z.pow_add_r by lia. f_equal. subst n. lia. }
  pose proof (Z.div_mod P X ltac:(lia)) as Hdm.
  pose proof (Z.mod_pos_bound P X HX) as Hr.
  set (m1 := P / X) in *.
  assert (Hm1 : 0 <= m1) by (apply Z.div_pos; subst P; lia).
  assert (Hup : m1 < Zpos mk * Y).
  { apply Z.div_lt_upper_bound; [exact HX|].
    rewrite HXY in Hlt. subst P. nia. }
  exists m2, E. split; [exact Heq|]. split; [lia|]. split; [lia|].
  split; [lia|]. split; [intros H; specialize (Hlo H); lia|].
  intros a Ha Hge.
  set (A := 2 ^ a). set (W := 2 ^ (- e - a)) in *.
  assert (HA : 0 < A) by (apply Z.pow_pos_nonneg; lia).
  assert (HW : 0 < W) by (apply Z.pow_pos_nonneg; lia).
  assert (HWA : X * Y = W * A).
  { rewrite <- HXY. subst W A. rewrite <- Z.pow_add_r by lia. f_equal. lia. }
  assert (H1 : Zpos mk * W <= P) by (subst P; nia).
  assert (H2 : P < (m1 + 1) * X) by lia.
  assert (H3 : Zpos mk * (W * A) < (m1 + 1) * X * A) by nia.
  rewrite <- HWA in H3.
  assert (H4 : Zpos mk * Y * X < (m1 + 1) * A * X) by lia.
  assert (H5 : Zpos mk * Y < (m1 + 1) * A) by nia.
  nia.
Qed.

Lemma fle_ival (x y : float32) :
  valid x = true -> valid y = true ->
  flt (of_Z 0) x = true -> flt (of_Z 0) y = true ->
  is_finite x = true -> is_finite y = true ->
  (fle x y = true <-> ival x <= ival y).
Proof.
  intros Vx Vy Px Py Fx Fy.
  destruct x as [[]|[]| |[] mx ex]; try discriminate.
  destruct y as [[]|[]| |[] my ey]; try discriminate.
  apply fle_ival_pos; assumption.
Qed.

Lemma mk_float_pos (m2 E : Z) :
  0 < m2 -> E + 1 <= 104 ->
  flt (of_Z 0) (mk_float false m2 E) = true /\ is_finite (mk_float false m2 E) = true.
Proof.
  intros Hm HE. unfold mk_float. destruct m2 as [|p|p]; try lia.
  destruct (Zpos p =? 16777216).
  - replace (E + 1 <=? 104) with true by (symmetry; apply Z.leb_le; lia).
    split; reflexivity.
  - replace (E <=? 104) with true by (symmetry; apply Z.leb_le; lia).
    split; reflexivity.
Qed.

Lemma ceil_mk_float (m2 E : Z) :
  0 < m2 <= 2 ^ 24 -> E < -1 ->
  exists k,
    ceil (mk_float false m2 E) = of_Z k /\
    (k - 1) * 2 ^ (- E) < m2 <= k * 2 ^ (- E).
Proof.
  intros Hm HE. unfold mk_float. destruct m2 as [|p|p]; try lia.
  destruct (Z.eqb_spec (Zpos p) 16777216) as [Heq|Hne].
  - replace (E + 1 <=? 104) with true by (symmetry; apply Z.leb_le; lia).
    destruct (ceil_pos_spec 8388608 (E + 1) ltac:(lia)) as (k & Hk & Hb).
    exists k. split; [exact Hk|]. rewrite Heq.
    replace (- E) with (Z.succ (- (E + 1))) by lia.
    rewrite Z.pow_succ_r by lia. lia.
  - replace (E <=? 104) with true by (symmetry; apply Z.leb_le; lia).
    apply ceil_pos_spec. lia.
Qed.

(** * The range of the RGBM multiplier *)

Lemma step_bounds (k : Z) :
  16 <= k <= 255 ->
  fle (fdiv (of_Z 1) (of_Z 16)) (fdiv (of_Z k) (of_Z 255)) = true /\
  fle (fdiv (of_Z k) (of_Z 255)) (of_Z 1) = true.
Proof.
  intros Hk.
  assert (H : List.forallb
    (fun n => fle (fdiv (of_Z 1) (of_Z 16)) (fdiv (of_Z (Z.of_nat n)) (of_Z 255)) &&
              fle (fdiv (of_Z (Z.of_nat n)) (of_Z 255)) (of_Z 1))
    (List.seq 16 240) = true) by (vm_compute; reflexivity).
  rewrite List.forallb_forall in H.
  specialize (H (Z.to_nat k)). rewrite Z2Nat.id in H by lia.
  apply andb_true_iff. apply H. apply List.in_seq. lia.
Qed.

Lemma saturate_range (x : float32) :
  fle (of_Z 0) (saturate x) = true /\ fle (saturate x) (of_Z 1) = true.
Proof.
  unfold saturate.
  destruct (clamp_cases x (of_Z 0) (of_Z 1)) as [->|[->|(-> & H0 & H1)]].
  - split; reflexivity.
  - split; reflexivity.
  - split; apply flt_fle; assumption.
Qed.

Lemma std_max_valid (a b : float32) :
  valid a = true -> valid b = true -> valid (std_max a b) = true.
Proof. intros Ha Hb. unfold std_max. destruct (flt a b); assumption. Qed.

Lemma clamped_max_valid (v : float3) : valid (clamped_max v) = true.
Proof.
  unfold clamped_max.
  match goal with |- valid (clamp ?m ?lo ?hi) = true =>
    assert (Hm : valid m = true);
    [| destruct (clamp_cases m lo hi) as [->|[->|(-> & _)]];
       [reflexivity | reflexivity | exact Hm] ]
  end.
  unfold max4. cbn [fold_left].
  repeat apply std_max_valid; apply fdiv_valid.
Qed.

(** A canonical value strictly between 1/16 and 1, times 255, has a
    ceiling between 16 and 255. *)
Lemma multiplier_step (c : float32) :
  valid c = true ->
  flt (fdiv (of_Z 1) (of_Z 16)) c = true -> flt c (of_Z 1) = true ->
  exists k,
    16 <= k <= 255 /\
    ceil (fmul c (of_Z 255)) = of_Z k /\
    fle (fmul c (of_Z 255)) (of_Z k) = true.
Proof.
  intros Hv Hlo Hhi.
  change (fdiv (of_Z 1) (of_Z 16)) with (S754_finite false 8388608 (-27)) in Hlo.
  change (of_Z 1) with (S754_finite false 8388608 (-23)) in Hhi.
  change (of_Z 255) with (S754_finite false 16711680 (-16)).
  destruct c as [[]|[]| |[] m e]; try discriminate.
  apply flt_key in Hlo. apply flt_key in Hhi.
  destruct Hlo as (_ & _ & Hlo), Hhi as (_ & _ & Hhi).
  unfold key_lt in Hlo, Hhi. cbn [key fst snd] in Hlo, Hhi.
  destruct (valid_bounds _ _ _ Hv) as (Heb & Hm24 & Hm23 & _).
  assert (He : -27 <= e <= -24) by lia.
  assert (Hm : 2 ^ 23 <= Zpos m) by (apply Hm23; lia).
  destruct (fmul_const_range m 16711680 e (-16) Hv eq_refl ltac:(lia) ltac:(lia))
    as (m2 & E & Heq & HE & Hm2 & Hup & Hnorm & Hlow).
  { eapply Z.lt_le_trans; [exact Hm24|]. apply Z.pow_le_mono_r; lia. }
  specialize (Hlow 4 ltac:(lia)).
  assert (Hlow' : 16711680 * 2 ^ (-16 - E) < (m2 + 1) * 2 ^ 4).
  { apply Hlow. eapply Z.le_trans; [|exact Hm]. apply Z.pow_le_mono_r; lia. }
  clear Hlow. change (2 ^ 4) with 16 in Hlow'.
  set (t := 2 ^ (-16 - E)) in *.
  assert (Ht : 1 <= t) by (pose proof (Z.pow_pos_nonneg 2 (-16 - E)); subst t; lia).
  assert (HpE : 2 ^ (- E) = 65536 * t).
  { subst t. change 65536 with (2 ^ 16). rewrite <- Z.pow_add_r by lia.
    f_equal. lia. }
  assert (Hm2p : 0 < m2) by nia.
  rewrite Heq.
  destruct (ceil_mk_float m2 E ltac:(lia) ltac:(lia)) as (k & Hk & Hkb).
  rewrite HpE in Hkb.
  assert (Hk255 : k <= 255) by nia.
  assert (Hk16 : 16 <= k).
  { destruct (Z_lt_le_dec k 16) as [Hc|Hc]; [|exact Hc].
    assert (k * t <= 15 * t) by nia.
    assert (m2 <= 65536 * (k * t)) by lia.
    lia. }
  exists k. split; [lia|]. split; [exact Hk|].
  destruct (of_Z_small k ltac:(change (2 ^ 24) with 16777216; lia))
    as (Hrep & Hvk & Hik).
  destruct (mk_float_pos m2 E Hm2p ltac:(lia)) as (Hpos & Hfin).
  apply fle_ival.
  - apply mk_float_valid; lia.
  - exact Hvk.
  - exact Hpos.
  - rewrite Hrep. reflexivity.
  - exact Hfin.
  - rewrite Hrep. reflexivity.
  - rewrite Hik, ival_mk_float by lia.
    assert (H149 : 2 ^ 149 = 2 ^ (E + 149) * 2 ^ (- E))
      by (rewrite <- Z.pow_add_r by lia; f_equal; lia).
    rewrite H149, HpE.
    assert (0 < 2 ^ (E + 149)) by (apply Z.pow_pos_nonneg; lia). nia.
Qed.

Lemma linearToRGBM_multiplier (v : float3) :
  a4 (linearToRGBM v) =
    fdiv (ceil (fmul (clamped_max v) (of_Z 255))) (of_Z 255).
Proof. rewrite linearToRGBM_unfold. reflexivity. Qed.

Lemma clamped_max_step (v : float3) :
  exists k,
    16 <= k <= 255 /\
    ceil (fmul (clamped_max v) (of_Z 255)) = of_Z k /\
    fle (fmul (clamped_max v) (of_Z 255)) (of_Z k) = true.
Proof.
  pose proof (clamped_max_valid v) as Hv. unfold clamped_max in *.
  match goal with |- context [clamp ?m ?lo ?hi] =>
    destruct (clamp_cases m lo hi) as [H|[H|(H & H0 & H1)]] end.
  - rewrite H. exists 16. split; [lia|]. split; reflexivity.
  - rewrite H. exists 255. split; [lia|]. split; reflexivity.
  - apply multiplier_step; [exact Hv | rewrite H; exact H0 | rewrite H; exact H1].
Qed.

(** C3: for every input with non-negative components the multiplier M of
    [linearToRGBM] satisfies 1/16 <= M <= 1; M is the step k/255 for the
    integer k, between 16 and 255, that is the ceiling of the clamped maximum
    component times 255, so the clamped maximum is rounded up and not down;
    and the first three components lie in [0, 1]. *)
Theorem linearToRGBM_range (v : float3) :
  fle (of_Z 0) (r3 v) = true ->
  fle (of_Z 0) (g3 v) = true ->
  fle (of_Z 0) (b3 v) = true ->
  (fle (fdiv (of_Z 1) (of_Z 16)) (a4 (linearToRGBM v)) = true /\
   fle (a4 (linearToRGBM v)) (of_Z 1) = true) /\
  (exists k,
     16 <= k <= 255 /\ is_step (a4 (linearToRGBM v)) k /\
     ceil (fmul (clamped_max v) (of_Z 255)) = of_Z k /\
     fle (fmul (clamped_max v) (of_Z 255)) (of_Z k) = true) /\
  (fle (of_Z 0) (r4 (linearToRGBM v)) = true /\
   fle (r4 (linearToRGBM v)) (of_Z 1) = true) /\
  (fle (of_Z 0) (g4 (linearToRGBM v)) = true /\
   fle (g4 (linearToRGBM v)) (of_Z 1) = true) /\
  (fle (of_Z 0) (b4 (linearToRGBM v)) = true /\
   fle (b4 (linearToRGBM v)) (of_Z 1) = true).
Proof.
  intros _ _ _.
  destruct (clamped_max_step v) as (k & Hk & Hceil & Hle).
  pose proof (linearToRGBM_multiplier v) as HM. rewrite Hceil in HM.
  split; [rewrite HM; apply step_bounds, Hk|].
  split; [exists k; repeat split; try assumption; lia|].
  rewrite linearToRGBM_unfold. unfold rgbm_encode_steps. cbn [r4 g4 b4].
  repeat split; apply saturate_range.
Qed.

(** * Saturation in the packers *)

Section LinearPacker.

Variable sample : Type.
Variable T_max : Z.
Variable T_cast : float32 -> sample.
Variable sizeof_T : Z.

Lemma fromLinearToRGB_cells (image : LinearImage) :
  image_wf image ->
  3 <= getChannels image ->
  exists buf,
    fromLinearToRGB sample T_max T_cast sizeof_T image = Returned buf /\
    byte_size buf = getWidth image * getHeight image * 3 * sizeof_T /\
    Z.of_nat (length (cells buf)) = getWidth image * getHeight image * 3 /\
    forall x y i,
      0 <= x < getWidth image -> 0 <= y < getHeight image -> 0 <= i < 3 ->
      cells buf !! Z.to_nat ((y * getWidth image + x) * 3 + i) =
        Some (Some (T_cast
          (fmul (saturate (pixel_channel image x y i)) (of_Z T_max)))).
Proof.
  intros (Hw & Hh & _ & _) Hc. unfold fromLinearToRGB.
  replace (negb (3 <=? getChannels image)) with false
    by (symmetry; apply negb_false_iff, Z.leb_le, Hc).
  set (W := Z.to_nat (getWidth image)). set (H := Z.to_nat (getHeight image)).
  destruct (pack_loop 3 W H
    (fun x y i => T_cast (get3 (vmul3
       (saturate3 (get_float3 image (uint32 (Z.of_nat x)) (uint32 (Z.of_nat y))))
       (of_Z T_max)) i))
    (replicate (Z.to_nat (getWidth image * getHeight image * 3)) None))
    as (dst & Heq & Hl & Hcell).
  { rewrite length_replicate. subst W H. lia. }
  match goal with
  | |- context [for_range 0 H ?b ?s] =>
      replace (for_range 0 H b s) with (dst, (H * W * 3)%nat)
        by (symmetry; exact Heq)
  end.
  eexists. split; [reflexivity|]. cbn [byte_size cells].
  split; [reflexivity|]. split; [rewrite Hl; subst W H; lia|].
  intros x y i Hx Hy Hi.
  replace (Z.to_nat ((y * getWidth image + x) * 3 + i))
    with ((Z.to_nat y * W + Z.to_nat x) * 3 + Z.to_nat i)%nat
    by (subst W; lia).
  rewrite Hcell by (subst W H; lia).
  rewrite !Z2Nat.id by lia.
  rewrite !uint32_small by lia.
  unfold vmul3, saturate3. rewrite !get3_map3.
  rewrite get3_get_float3 by lia. rewrite Z2Nat.id by lia. reflexivity.
Qed.

End LinearPacker.

Lemma pixel_channel_valid (image : LinearImage) (x y c : Z) :
  image_wf image -> valid (pixel_channel image x y c) = true.
Proof.
  intros (_ & _ & _ & _ & Hall). unfold pixel_channel, load.
  destruct (getData image !! _) as [v|] eqn:Hv; [|reflexivity].
  cbn [default]. rewrite Forall_forall in Hall. apply Hall.
  eapply list_elem_of_lookup_2. exact Hv.
Qed.

Lemma uint_max_rep (bits : Z) :
  1 <= bits <= 24 ->
  0 < uint_max bits < 2 ^ 24 /\ digits (uint_max bits) = bits.
Proof.
  intros Hb. unfold uint_max.
  assert (2 ^ 1 <= 2 ^ bits) by (apply Z.pow_le_mono_r; lia).
  assert (2 ^ bits <= 2 ^ 24) by (apply Z.pow_le_mono_r; lia).
  change (2 ^ 1) with 2 in *. split; [lia|].
  apply digits_unique; [lia|].
  assert (2 ^ bits = 2 * 2 ^ (bits - 1)).
  { replace bits with (Z.succ (bits - 1)) at 1 by lia.
    apply Z.pow_succ_r. lia. }
  pose proof (Z.pow_pos_nonneg 2 (bits - 1)). lia.
Qed.

Lemma uint_cast_one (bits : Z) :
  1 <= bits <= 24 ->
  uint_cast bits (fmul (of_Z 1) (of_Z (uint_max bits))) = Some (uint_max bits).
Proof.
  intros Hb.
  assert (H : List.forallb
    (fun n => match uint_cast (Z.of_nat n)
                      (fmul (of_Z 1) (of_Z (uint_max (Z.of_nat n)))) with
              | Some t => t =? uint_max (Z.of_nat n)
              | None => false
              end)
    (List.seq 1 24) = true) by (vm_compute; reflexivity).
  rewrite List.forallb_forall in H.
  specialize (H (Z.to_nat bits)). rewrite Z2Nat.id in H by lia.
  specialize (H ltac:(apply List.in_seq; lia)).
  destruct (uint_cast bits _) as [t|]; [|discriminate].
  apply Z.eqb_eq in H. congruence.
Qed.

Lemma uint_cast_mk_float (bits m2 E Kz : Z) :
  0 <= m2 <= 2 ^ 24 -> E <= 0 -> m2 <= Kz * 2 ^ (- E) ->
  Kz <= uint_max bits -> Kz < 2 ^ 24 ->
  exists n, uint_cast bits (mk_float false m2 E) = Some n /\ 0 <= n <= Kz.
Proof.
  intros Hm HE Hup HK HK24. unfold mk_float.
  assert (HP : 0 < 2 ^ (- E)) by (apply Z.pow_pos_nonneg; lia).
  destruct m2 as [|p|p]; try lia.
  { exists 0. split; [reflexivity|]. nia. }
  assert (HKpos : 0 < Kz) by nia.
  destruct (Z.eqb_spec (Zpos p) 16777216) as [Heq|Hne].
  - assert (HE' : E < 0).
    { destruct (Z.eq_dec E 0) as [->|]; [|lia].
      change (2 ^ (- 0)) with 1 in Hup. change (2 ^ 24) with 16777216 in HK24. lia. }
    replace (E + 1 <=? 104) with true by (symmetry; apply Z.leb_le; lia).
    assert (H2 : 2 ^ (- E) = 2 * 2 ^ (- (E + 1))).
    { replace (- E) with (Z.succ (- (E + 1))) by lia. apply Z.pow_succ_r. lia. }
    assert (HP' : 0 < 2 ^ (- (E + 1))) by (apply Z.pow_pos_nonneg; lia).
    assert (Hup' : 8388608 <= Kz * 2 ^ (- (E + 1))) by (rewrite H2 in Hup; lia).
    assert (Ht : 0 <= truncate 8388608 (E + 1) <= Kz).
    { unfold truncate. destruct (Z.leb_spec 0 (E + 1)).
      - assert (HQ : 2 ^ (- (E + 1)) = 1) by (replace (E + 1) with 0 by lia; reflexivity).
        rewrite HQ in Hup'. replace (E + 1) with 0 by lia. rewrite Z.shiftl_0_r. lia.
      - rewrite Z.shiftr_div_pow2 by lia. split.
        + apply Z.div_pos; lia.
        + apply Z.div_le_upper_bound; [lia|]. lia. }
    cbn [uint_cast]. exists (truncate 8388608 (E + 1)).
    replace (truncate 8388608 (E + 1) <=? uint_max bits) with true
      by (symmetry; apply Z.leb_le; lia).
    split; [reflexivity | exact Ht].
  - replace (E <=? 104) with true by (symmetry; apply Z.leb_le; lia).
    assert (Ht : 0 <= truncate p E <= Kz).
    { unfold truncate. destruct (Z.leb_spec 0 E).
      - assert (HQ : 2 ^ (- E) = 1) by (replace E with 0 by lia; reflexivity).
        rewrite HQ in Hup. replace E with 0 by lia. rewrite Z.shiftl_0_r. lia.
      - rewrite Z.shiftr_div_pow2 by lia. split.
        + apply Z.div_pos; lia.
        + apply Z.div_le_upper_bound; [lia|]. lia. }
    cbn [uint_cast]. exists (truncate p E).
    replace (truncate p E <=? uint_max bits) with true
      by (symmetry; apply Z.leb_le; lia).
    split; [reflexivity | exact Ht].
Qed.

(** A saturated binary32 value scaled by the maximum of an unsigned type of
    at most 24 bits converts to a value of the type. *)
Lemma uint_cast_saturate (bits : Z) (v : float32) :
  1 <= bits <= 24 -> valid v = true ->
  exists n,
    uint_cast bits (fmul (saturate v) (of_Z (uint_max bits))) = Some n /\
    0 <= n <= uint_max bits /\
    (flt (of_Z 1) v = true -> n = uint_max bits).
Proof.
  intros Hb Hv.
  destruct (uint_max_rep bits Hb) as (HK & HdK).
  destruct (of_Z_small (uint_max bits) HK) as (Hrep & HvK & _).
  rewrite HdK in Hrep.
  assert (Hone : forall x, x = of_Z 1 ->
    exists n, uint_cast bits (fmul x (of_Z (uint_max bits))) = Some n /\
              0 <= n <= uint_max bits /\
              (flt (of_Z 1) v = true -> n = uint_max bits)).
  { intros x ->. exists (uint_max bits). split; [apply uint_cast_one, Hb|]. lia. }
  destruct (flt (of_Z 1) v) eqn:H1.
  - apply Hone. unfold saturate, clamp, std_min, std_max.
    rewrite (flt_trans (of_Z 0) (of_Z 1) v eq_refl H1).
    rewrite (flt_asym _ _ H1). reflexivity.
  - unfold saturate.
    destruct (clamp_cases v (of_Z 0) (of_Z 1)) as [->|[->|(-> & H0 & Hlt)]].
    + exists 0. rewrite Hrep. split; [reflexivity|]. split; [lia|discriminate].
    + destruct (Hone (of_Z 1) eq_refl) as (n & Hn & Hr & _).
      exists n. split; [exact Hn|]. split; [exact Hr|discriminate].
    + destruct v as [[]|[]| |[] m e]; try discriminate.
      change (of_Z 1) with (S754_finite false 8388608 (-23)) in Hlt.
      apply flt_key in Hlt. destruct Hlt as (_ & _ & Hlt).
      unfold key_lt in Hlt. cbn [key fst snd] in Hlt.
      destruct (valid_bounds _ _ _ Hv) as (Heb & Hm24 & Hm23 & _).
      assert (He : e <= -23) by lia.
      assert (Hm : Zpos m < 2 ^ (- e)).
      { destruct (Z.eq_dec e (-23)) as [->|Hne].
        - change (2 ^ (- -23)) with 8388608. lia.
        - eapply Z.lt_le_trans; [exact Hm24|]. apply Z.pow_le_mono_r; lia. }
      rewrite Hrep in HvK |- *.
      destruct (fmul_const_range m _ e (bits - 24) Hv HvK ltac:(lia) ltac:(lia) Hm)
        as (m2 & E & Heq & HE & Hm2 & Hup & _).
      rewrite Heq.
      assert (Hsh : 0 < 2 ^ (24 - bits)) by (apply Z.pow_pos_nonneg; lia).
      rewrite Z2Pos.id in Hup by nia.
      destruct (uint_cast_mk_float bits m2 E (uint_max bits)) as (n & Hn & Hr);
        try lia.
      { eapply Z.le_trans; [exact Hup|]. rewrite <- Z.mul_assoc.
        rewrite <- Z.pow_add_r by lia.
        replace (24 - bits + (bits - 24 - E)) with (- E) by lia. lia. }
      exists n. split; [exact Hn|]. split; [exact Hr|discriminate].
Qed.

(** C8, as stated for every integer type, fails: with a 32-bit [T] the
    maximum of [T] is not a float, the scaled value is 2^32, and its
    conversion to [T] is out of range. *)
Lemma fromLinearToRGB_uint32_out_of_range :
  fromLinearToRGB (option Z) (uint_max 32) (uint_cast 32) 4 bright_pixel =
    Returned (MkPacked 12 [Some None; Some None; Some None]).
Proof. vm_compute. reflexivity. Qed.

(** C8, amended to integer types of at most 24 bits, whose maximum is a
    float: on an image with at least three channels [fromLinearToRGB<T>]
    writes for every channel a value of [T], so that no conversion is out of
    range or wraps, whatever the floats of the image are; and for a channel
    above 1.0 it writes the maximum of [T]. *)
Theorem fromLinearToRGB_saturates (bits : Z) (image : LinearImage) :
  1 <= bits <= 24 ->
  image_wf image ->
  3 <= getChannels image ->
  exists buf,
    fromLinearToRGB (option Z) (uint_max bits) (uint_cast bits) (bits / 8) image
      = Returned buf /\
    forall x y i,
      0 <= x < getWidth image -> 0 <= y < getHeight image -> 0 <= i < 3 ->
      exists n,
        cells buf !! Z.to_nat ((y * getWidth image + x) * 3 + i) =
          Some (Some (Some n)) /\
        0 <= n <= uint_max bits /\
        (flt (of_Z 1) (pixel_channel image x y i) = true -> n = uint_max bits).
Proof.
  intros Hb Hwf Hc.
  destruct (fromLinearToRGB_cells (option Z) (uint_max bits) (uint_cast bits)
              (bits / 8) image Hwf Hc) as (buf & Heq & _ & _ & Hcell).
  exists buf. split; [exact Heq|]. intros x y i Hx Hy Hi.
  destruct (uint_cast_saturate bits (pixel_channel image x y i) Hb
              (pixel_channel_valid image x y i Hwf)) as (n & Hn & Hr & Hmax).
  exists n. rewrite Hcell by assumption. rewrite Hn. auto.
Qed.

(** * The values of the floats as rationals *)

Lemma bpow_pos (e : Z) : (0 < bpow e)%Q.
Proof. apply Qpower_0_lt. reflexivity. Qed.

Lemma bpow_add (a b : Z) : (bpow (a + b) == bpow a * bpow b)%Q.
Proof. apply Qpower_plus. discriminate. Qed.

Lemma bpow_Z (k : Z) : 0 <= k -> (bpow k == inject_Z (2 ^ k))%Q.
Proof. intros Hk. unfold bpow. rewrite Zpower_Qpower by assumption. reflexivity. Qed.

Lemma bpow_le (a b : Z) : a <= b -> (bpow a <= bpow b)%Q.
Proof. intros H. apply Qpower_le_compat_l; [exact H|]. discriminate. Qed.

Lemma bpow_shift (e k : Z) (a : Z) :
  0 <= k -> (inject_Z (a * 2 ^ k) * bpow e == inject_Z a * bpow (e + k))%Q.
Proof.
  intros Hk. rewrite inject_Z_mult, bpow_add, (bpow_Z k) by assumption. ring.
Qed.

Lemma to_Q_finite (m : positive) (e : Z) :
  (to_Q (S754_finite false m e) == inject_Z (Zpos m) * bpow e)%Q.
Proof. reflexivity. Qed.

Lemma to_Q_ival (m : positive) (e : Z) :
  -149 <= e ->
  (to_Q (S754_finite false m e) ==
   inject_Z (ival (S754_finite false m e)) * bpow (-149))%Q.
Proof.
  intros He. rewrite to_Q_finite. cbn [ival]. rewrite Z.mul_1_l.
  rewrite bpow_shift by lia. replace (-149 + (e + 149)) with e by lia.
  reflexivity.
Qed.

Lemma to_Q_pos (m : positive) (e : Z) : (0 < to_Q (S754_finite false m e))%Q.
Proof.
  rewrite to_Q_finite. apply Qmult_lt_0_compat; [|apply bpow_pos].
  rewrite <- (Zlt_Qlt 0). lia.
Qed.

Lemma fle_to_Q (mx my : positive) (ex ey : Z) :
  valid (S754_finite false mx ex) = true ->
  valid (S754_finite false my ey) = true ->
  (fle (S754_finite false mx ex) (S754_finite false my ey) = true <->
   (to_Q (S754_finite false mx ex) <= to_Q (S754_finite false my ey))%Q).
Proof.
  intros Hx Hy. rewrite (fle_ival_pos _ _ _ _ Hx Hy).
  destruct (valid_bounds _ _ _ Hx) as (Hex & _).
  destruct (valid_bounds _ _ _ Hy) as (Hey & _).
  rewrite !to_Q_ival by lia.
  rewrite Qmult_le_r by apply bpow_pos. rewrite <- Zle_Qle. reflexivity.
Qed.

Lemma flt_to_Q (mx my : positive) (ex ey : Z) :
  valid (S754_finite false mx ex) = true ->
  valid (S754_finite false my ey) = true ->
  (flt (S754_finite false mx ex) (S754_finite false my ey) = true <->
   (to_Q (S754_finite false mx ex) < to_Q (S754_finite false my ey))%Q).
Proof.
  intros Hx Hy. rewrite (flt_ival_pos _ _ _ _ Hx Hy).
  destruct (valid_bounds _ _ _ Hx) as (Hex & _).
  destruct (valid_bounds _ _ _ Hy) as (Hey & _).
  rewrite !to_Q_ival by lia.
  rewrite Qmult_lt_r by apply bpow_pos. rewrite <- Zlt_Qlt. reflexivity.
Qed.

Lemma to_Q_mk_float (m2 E : Z) :
  0 <= m2 <= 2 ^ 24 -> E + 1 <= 104 ->
  (to_Q (mk_float false m2 E) == inject_Z m2 * bpow E)%Q.
Proof.
  intros Hm HE. unfold mk_float. destruct m2 as [|p|p]; try lia.
  - cbn. ring.
  - destruct (Z.eqb_spec (Zpos p) 16777216) as [Heq|Hne].
    + replace (E + 1 <=? 104) with true by (symmetry; apply Z.leb_le; lia).
      rewrite to_Q_finite, Heq.
      change 16777216 with (8388608 * 2 ^ 1).
      rewrite <- bpow_shift by lia. reflexivity.
    + replace (E <=? 104) with true by (symmetry; apply Z.leb_le; lia).
      apply to_Q_finite.
Qed.

(** ** One rounding *)

Lemma near_trans (f g t z w : Q) :
  (0 <= f)%Q -> (0 <= g)%Q -> near f t z -> near g z w -> near (f * g) t w.
Proof.
  unfold near. intros Hf Hg [H1 H2] [H3 H4]. split.
  - apply Qle_trans with (z * f)%Q; [exact H1|].
    apply Qle_trans with (w * g * f)%Q; [|ring_simplify; apply Qle_refl].
    apply Qmult_le_compat_r; assumption.
  - apply Qle_trans with (z * g)%Q; [exact H4|].
    apply Qle_trans with (t * f * g)%Q; [|ring_simplify; apply Qle_refl].
    apply Qmult_le_compat_r; assumption.
Qed.

(** The float that [binary_round_aux] returns for a mantissa in the normal
    range lies, with the exact value, between [L] and [L * (1 + 2^-23)]. *)
Lemma round_aux_near (m e : Z) (l : location) :
  0 < m -> e <= fexp32 (digits m + e) ->
  (e <= -126 -> 2 ^ (-126 - e) <= m) ->
  digits m + e <= 127 ->
  exists (p : positive) (E : Z) (L : Q),
    binary_round_aux prec emax false m e l = S754_finite false p E /\
    valid (S754_finite false p E) = true /\
    (0 < L)%Q /\
    (L <= inject_Z m * bpow e)%Q /\
    (inject_Z (m + 1) * bpow e <= L * one_ulp)%Q /\
    (L <= to_Q (S754_finite false p E))%Q /\
    (to_Q (S754_finite false p E) <= L * one_ulp)%Q.
Proof.
  intros Hm Hpre Hnorm Hovf.
  destruct (round_aux_spec false m e l ltac:(lia) Hpre)
    as (m2 & Hm2 & Heq & Hhi & Hlo & _).
  set (E := fexp32 (digits m + e)) in *. set (n := E - e) in *.
  assert (Hn : 0 <= n) by (subst n; lia).
  assert (HX : 0 < 2 ^ n) by (apply Z.pow_pos_nonneg; lia).
  pose proof (Z.div_mod m (2 ^ n) ltac:(lia)) as Hdm.
  pose proof (Z.mod_pos_bound m (2 ^ n) HX) as Hr.
  set (m1 := m / 2 ^ n) in *.
  assert (HE : -149 <= E <= 103) by (subst E; unfold fexp32; lia).
  assert (Hm1 : 2 ^ 23 <= m1).
  { destruct (Z_lt_le_dec (-149) E) as [Hc|Hc]; [apply Hlo, Hc|].
    assert (HEq : E = -149) by lia.
    assert (He : e <= -126) by (subst n; lia).
    specialize (Hnorm He).
    apply Z.div_le_lower_bound; [lia|].
    rewrite <- Z.pow_add_r by lia.
    replace (n + 23) with (-126 - e) by (subst n; lia). exact Hnorm. }
  assert (Hm2r : 0 < m2 <= 2 ^ 24) by lia.
  assert (Hval : valid (mk_float false m2 E) = true).
  { apply mk_float_valid; lia. }
  assert (HQ : (to_Q (mk_float false m2 E) == inject_Z m2 * bpow E)%Q).
  { apply to_Q_mk_float; lia. }
  assert (Hform : exists p E', mk_float false m2 E = S754_finite false p E').
  { unfold mk_float. destruct m2 as [|q|q]; try lia.
    destruct (Zpos q =? 16777216).
    - replace (E + 1 <=? 104) with true by (symmetry; apply Z.leb_le; lia).
      eexists _, _. reflexivity.
    - replace (E <=? 104) with true by (symmetry; apply Z.leb_le; lia).
      eexists _, _. reflexivity. }
  destruct Hform as (p & E' & Hp).
  exists p, E', (inject_Z m1 * bpow E)%Q.
  rewrite Heq, Hp. rewrite Hp in Hval, HQ.
  pose proof (bpow_pos E) as HbE. pose proof (bpow_pos e) as Hbe.
  assert (HEe : (bpow E == bpow e * inject_Z (2 ^ n))%Q).
  { replace E with (e + n) by (subst n; lia).
    rewrite bpow_add, (bpow_Z n) by lia. reflexivity. }
  assert (Hm1Q : (inject_Z (2 ^ 23) <= inject_Z m1)%Q) by (rewrite <- Zle_Qle; exact Hm1).
  change (inject_Z (2 ^ 23)) with (8388608 # 1) in Hm1Q.
  assert (HXQ : (0 < inject_Z (2 ^ n))%Q) by (rewrite <- (Zlt_Qlt 0); exact HX).
  assert (Hle : (inject_Z m1 * inject_Z (2 ^ n) <= inject_Z m)%Q)
    by (rewrite <- inject_Z_mult, <- Zle_Qle; lia).
  assert (Hge : (inject_Z m + 1 <= (inject_Z m1 + 1) * inject_Z (2 ^ n))%Q).
  { change 1%Q with (inject_Z 1).
    rewrite <- !inject_Z_plus, <- inject_Z_mult, <- Zle_Qle. lia. }
  assert (Hm2Q : (inject_Z m1 <= inject_Z m2 /\ inject_Z m2 <= inject_Z m1 + 1)%Q).
  { split.
    - rewrite <- Zle_Qle. lia.
    - change 1%Q with (inject_Z 1). rewrite <- inject_Z_plus, <- Zle_Qle. lia. }
  set (be := bpow e) in *. set (bE := bpow E) in *.
  set (X := inject_Z (2 ^ n)) in *. set (q1 := inject_Z m1) in *.
  set (q2 := inject_Z m2) in *. set (qm := inject_Z m) in *.
  split; [reflexivity|]. split; [exact Hval|].
  split; [nra|].
  split; [rewrite HEe; nra|].
  split.
  { rewrite inject_Z_plus. fold qm. change (inject_Z 1) with 1%Q.
    unfold one_ulp. rewrite HEe. nra. }
  rewrite HQ. unfold one_ulp. split; nra.
Qed.

(** ** Integers against powers of two *)

Lemma bpow_lt (a b : Z) : a < b -> (bpow a < bpow b)%Q.
Proof. intros H. apply Qpower_lt_compat_l; [exact H | reflexivity]. Qed.

Lemma bpow_split (k e : Z) :
  e <= k -> (bpow k == inject_Z (2 ^ (k - e)) * bpow e)%Q.
Proof.
  intros H. replace k with ((k - e) + e) at 1 by lia.
  rewrite bpow_add, (bpow_Z (k - e)) by lia. reflexivity.
Qed.

Lemma int_lt_bpow (a e k : Z) :
  0 < a -> (inject_Z a * bpow e < bpow k)%Q -> e <= k /\ a < 2 ^ (k - e).
Proof.
  intros Ha H.
  assert (He : e <= k).
  { destruct (Z_le_gt_dec e k) as [|Hgt]; [assumption|]. exfalso.
    pose proof (bpow_lt k e ltac:(lia)) as Hlt. pose proof (bpow_pos e).
    assert ((1 <= inject_Z a)%Q) by (rewrite <- (Zle_Qle 1); lia). nra. }
  split; [exact He|].
  rewrite (bpow_split k e He) in H.
  rewrite Qmult_lt_r in H by apply bpow_pos.
  rewrite <- Zlt_Qlt in H. exact H.
Qed.

Lemma int_le_bpow (a e k : Z) :
  0 < a -> (inject_Z a * bpow e <= bpow k)%Q -> e <= k /\ a <= 2 ^ (k - e).
Proof.
  intros Ha H.
  assert (He : e <= k).
  { destruct (Z_le_gt_dec e k) as [|Hgt]; [assumption|]. exfalso.
    pose proof (bpow_lt k e ltac:(lia)) as Hlt. pose proof (bpow_pos e).
    assert ((1 <= inject_Z a)%Q) by (rewrite <- (Zle_Qle 1); lia). nra. }
  split; [exact He|].
  rewrite (bpow_split k e He) in H.
  rewrite Qmult_le_r in H by apply bpow_pos.
  rewrite <- Zle_Qle in H. exact H.
Qed.

Lemma bpow_lt_int (a e k : Z) :
  e <= k -> (bpow k < inject_Z a * bpow e)%Q -> 2 ^ (k - e) < a.
Proof.
  intros He H. rewrite (bpow_split k e He) in H.
  rewrite Qmult_lt_r in H by apply bpow_pos.
  rewrite <- Zlt_Qlt in H. exact H.
Qed.

Lemma normal_of_lower (q e' : Z) (t : Q) :
  (bpow (-126) <= t)%Q -> (t < inject_Z (q + 1) * bpow e')%Q ->
  e' <= -126 -> 2 ^ (-126 - e') <= q.
Proof.
  intros Hlo Hup He.
  assert (H : (bpow (-126) < inject_Z (q + 1) * bpow e')%Q) by lra.
  apply bpow_lt_int in H; lia.
Qed.

Lemma digits_of_upper (q e' : Z) (t : Q) :
  0 < q -> (inject_Z q * bpow e' <= t)%Q -> (t <= bpow 126)%Q ->
  digits q + e' <= 127.
Proof.
  intros Hq Hlo Hup.
  assert (H : (inject_Z q * bpow e' <= bpow 126)%Q) by lra.
  apply int_le_bpow in H; [|exact Hq]. destruct H as [He Hle].
  assert (digits q <= 127 - e'); [|lia].
  apply digits_le; [lia|]. split; [lia|].
  eapply Z.le_lt_trans; [exact Hle|]. apply Z.pow_lt_mono_r; lia.
Qed.

Lemma Qle_scale (a b c d k : Q) :
  (0 < k)%Q -> (a <= b)%Q -> (c == a * k)%Q -> (d == b * k)%Q -> (c <= d)%Q.
Proof. intros Hk Hab -> ->. apply Qmult_le_compat_r; lra. Qed.

Lemma Qlt_scale (a b c d k : Q) :
  (0 < k)%Q -> (a < b)%Q -> (c == a * k)%Q -> (d == b * k)%Q -> (c < d)%Q.
Proof. intros Hk Hab -> ->. apply Qmult_lt_compat_r; assumption. Qed.

(** ** Quotients *)

Lemma fdiv_near (mx my : positive) (ex ey : Z) :
  valid (S754_finite false mx ex) = true ->
  valid (S754_finite false my ey) = true ->
  (bpow (-126) <= to_Q (S754_finite false mx ex) / to_Q (S754_finite false my ey))%Q ->
  (to_Q (S754_finite false mx ex) / to_Q (S754_finite false my ey) <= bpow 126)%Q ->
  exists (p : positive) (E : Z),
    fdiv (S754_finite false mx ex) (S754_finite false my ey) = S754_finite false p E /\
    valid (S754_finite false p E) = true /\
    near one_ulp
      (to_Q (S754_finite false mx ex) / to_Q (S754_finite false my ey))
      (to_Q (S754_finite false p E)).
Proof.
  intros Hx Hy Hlo Hup.
  pose proof (to_Q_pos mx ex) as Hxp. pose proof (to_Q_pos my ey) as Hyp.
  set (t := (to_Q (S754_finite false mx ex) / to_Q (S754_finite false my ey))%Q) in *.
  destruct (SFdiv_core_spec mx my ex ey) as (q & e' & l & Hcore & He' & Hq & Hq0 & Hpre).
  set (s := ex - ey - e') in *.
  assert (Hs : 0 <= s) by (subst s; lia).
  assert (HPs : 0 < 2 ^ s) by (apply Z.pow_pos_nonneg; lia).
  pose proof (Z.div_mod (Zpos mx * 2 ^ s) (Zpos my) ltac:(lia)) as Hdm.
  pose proof (Z.mod_pos_bound (Zpos mx * 2 ^ s) (Zpos my) ltac:(lia)) as Hr.
  rewrite <- Hq in Hdm.
  (* the exact quotient lies between q and q + 1, in units of 2^e' *)
  assert (Hnum : (to_Q (S754_finite false mx ex) ==
                  inject_Z (Zpos mx * 2 ^ s) * bpow e' * bpow ey)%Q).
  { rewrite to_Q_finite, bpow_shift by lia. rewrite <- Qmult_assoc, <- bpow_add.
    replace (e' + s + ey) with ex by (subst s; lia). reflexivity. }
  assert (Hqlo : (inject_Z q * bpow e' <= t)%Q).
  { subst t. apply Qle_shift_div_l; [exact Hyp|].
    rewrite Hnum, (to_Q_finite my ey).
    assert (Hle : (inject_Z q * inject_Z (Zpos my) <= inject_Z (Zpos mx * 2 ^ s))%Q)
      by (rewrite <- inject_Z_mult, <- Zle_Qle; lia).
    pose proof (bpow_pos e'). pose proof (bpow_pos ey).
    apply (Qle_scale _ _ _ _ (bpow e' * bpow ey) ltac:(nra) Hle); ring. }
  assert (Hqhi : (t < inject_Z (q + 1) * bpow e')%Q).
  { subst t. apply Qlt_shift_div_r; [exact Hyp|].
    rewrite Hnum, (to_Q_finite my ey).
    assert (Hlt : (inject_Z (Zpos mx * 2 ^ s) < inject_Z (q + 1) * inject_Z (Zpos my))%Q)
      by (rewrite <- inject_Z_mult, <- Zlt_Qlt; lia).
    pose proof (bpow_pos e'). pose proof (bpow_pos ey).
    apply (Qlt_scale _ _ _ _ (bpow e' * bpow ey) ltac:(nra) Hlt); ring. }
  assert (Hnorm : e' <= -126 -> 2 ^ (-126 - e') <= q)
    by (apply (normal_of_lower q e' t); assumption).
  assert (Hqp : 0 < q).
  { destruct (Z.eq_dec q 0) as [Hz|Hz]; [|lia]. exfalso.
    rewrite Hz in Hpre. cbn [digits Zdigits2] in Hpre. unfold fexp32 in Hpre.
    assert (He : e' <= -126) by lia. specialize (Hnorm He).
    pose proof (Z.pow_pos_nonneg 2 (-126 - e')). lia. }
  pose proof (digits_of_upper q e' t Hqp Hqlo Hup) as Hov.
  destruct (round_aux_near q e' l Hqp Hpre Hnorm Hov)
    as (p & E & L & Heq & Hval & HL & HLq & HqL & HLz & HzL).
  exists p, E. split; [|split; [exact Hval|]].
  - unfold fdiv. cbn [SFdiv xorb]. rewrite Hcore. exact Heq.
  - unfold near. unfold one_ulp in *. split; nra.
Qed.

(** ** Products *)

Lemma fmul_near (mx my : positive) (ex ey : Z) :
  valid (S754_finite false mx ex) = true ->
  valid (S754_finite false my ey) = true ->
  (bpow (-126) <= to_Q (S754_finite false mx ex) * to_Q (S754_finite false my ey))%Q ->
  (to_Q (S754_finite false mx ex) * to_Q (S754_finite false my ey) <= bpow 126)%Q ->
  exists (p : positive) (E : Z),
    fmul (S754_finite false mx ex) (S754_finite false my ey) = S754_finite false p E /\
    valid (S754_finite false p E) = true /\
    near one_ulp
      (to_Q (S754_finite false mx ex) * to_Q (S754_finite false my ey))
      (to_Q (S754_finite false p E)).
Proof.
  intros Hx Hy Hlo Hup.
  destruct (fmul_pos_spec mx my ex ey Hx Hy) as (Hpre & _).
  set (P := Zpos mx * Zpos my) in *. set (e := ex + ey) in *.
  assert (HP : 0 < P) by (subst P; lia).
  assert (Ht : (to_Q (S754_finite false mx ex) * to_Q (S754_finite false my ey) ==
                inject_Z P * bpow e)%Q).
  { rewrite !to_Q_finite. subst P e. rewrite inject_Z_mult, bpow_add. ring. }
  rewrite Ht in Hlo, Hup.
  assert (Hlt : (inject_Z P * bpow e < inject_Z (P + 1) * bpow e)%Q).
  { rewrite inject_Z_plus. change (inject_Z 1) with 1%Q.
    pose proof (bpow_pos e). nra. }
  assert (Hnorm : e <= -126 -> 2 ^ (-126 - e) <= P)
    by (apply (normal_of_lower P e (inject_Z P * bpow e)); assumption).
  pose proof (digits_of_upper P e _ HP (Qle_refl _) Hup) as Hov.
  destruct (round_aux_near P e loc_Exact HP Hpre Hnorm Hov)
    as (p & E & L & Heq & Hval & HL & HLq & HqL & HLz & HzL).
  exists p, E. split; [|split; [exact Hval|]].
  - unfold fmul. cbn [SFmul xorb]. exact Heq.
  - unfold near. rewrite Ht. unfold one_ulp in *. split; nra.
Qed.

(** A product below the normal range is rounded to the nearest multiple of
    [2^-149]. *)
Lemma fmul_subnormal (mx my : positive) (ex ey : Z) :
  valid (S754_finite false mx ex) = true ->
  valid (S754_finite false my ey) = true ->
  (to_Q (S754_finite false mx ex) * to_Q (S754_finite false my ey) < bpow (-126))%Q ->
  exists m2,
    0 <= m2 <= 2 ^ 24 /\
    fmul (S754_finite false mx ex) (S754_finite false my ey) = mk_float false m2 (-149) /\
    (Qabs (inject_Z m2 * bpow (-149) -
           to_Q (S754_finite false mx ex) * to_Q (S754_finite false my ey))
       <= bpow (-150))%Q.
Proof.
  intros Hx Hy Hlt.
  destruct (fmul_pos_spec mx my ex ey Hx Hy)
    as (Hpre & m2 & Hm2 & Heq & Hhi & _ & Hnear).
  set (P := Zpos mx * Zpos my) in *. set (e := ex + ey) in *.
  assert (HP : 0 < P) by (subst P; lia).
  assert (Ht : (to_Q (S754_finite false mx ex) * to_Q (S754_finite false my ey) ==
                inject_Z P * bpow e)%Q).
  { rewrite !to_Q_finite. subst P e. rewrite inject_Z_mult, bpow_add. ring. }
  rewrite Ht in Hlt.
  destruct (int_lt_bpow P e (-126) HP Hlt) as (He & HPlt).
  assert (Hd : digits P <= -126 - e) by (apply digits_le; lia).
  assert (HE : fexp32 (digits P + e) = -149) by (unfold fexp32; lia).
  rewrite HE in *.
  set (n := -149 - e) in *.
  assert (Hn : 0 <= n) by (subst n; lia).
  assert (HX : 0 < 2 ^ n) by (apply Z.pow_pos_nonneg; lia).
  assert (Hm1 : 0 <= P / 2 ^ n) by (apply Z.div_pos; lia).
  exists m2. split; [lia|]. split; [exact Heq|].
  rewrite Ht.
  assert (Hb149 : (bpow (-149) == inject_Z (2 ^ n) * bpow e)%Q)
    by (apply bpow_split; lia).
  assert (Hb150 : (bpow (-149) == 2 * bpow (-150))%Q).
  { rewrite (bpow_split (-149) (-150)) by lia. reflexivity. }
  assert (Hz1 : 2 * (m2 * 2 ^ n) <= 2 ^ n + 2 * P) by lia.
  assert (Hz2 : 2 * P <= 2 ^ n + 2 * (m2 * 2 ^ n)) by lia.
  rewrite Zle_Qle in Hz1, Hz2.
  rewrite !inject_Z_plus, !inject_Z_mult in Hz1, Hz2.
  change (inject_Z 2) with 2%Q in Hz1, Hz2.
  pose proof (bpow_pos e) as Hbe.
  assert (H150 : (bpow (-150) == inject_Z (2 ^ n) * (1 # 2) * bpow e)%Q).
  { assert (H : (bpow (-150) == bpow (-149) * (1 # 2))%Q) by (rewrite Hb150; ring).
    rewrite H, Hb149. ring. }
  rewrite H150, Hb149.
  set (X := inject_Z (2 ^ n)) in *. set (q2 := inject_Z m2) in *.
  set (qP := inject_Z P) in *. set (be := bpow e) in *.
  set (W := (q2 * X)%Q) in *.
  assert (Hd1 : ((W - qP) * be <= X * (1 # 2) * be)%Q)
    by (apply Qmult_le_compat_r; lra).
  assert (Hd2 : (- (X * (1 # 2)) * be <= (W - qP) * be)%Q)
    by (apply Qmult_le_compat_r; lra).
  apply Qabs_Qle_condition.
  assert (Hg : (q2 * (X * be) - qP * be == (W - qP) * be)%Q) by (subst W; ring).
  rewrite Hg. split; lra.
Qed.

(** ** Square roots *)

Lemma digits_sqrt (n : Z) : 0 < n -> digits (Z.sqrt n) = (digits n + 1) / 2.
Proof.
  intros Hn. destruct (digits_bounds n Hn) as (Hd & Hlo & Hhi).
  set (D := digits n) in *. set (k := (D + 1) / 2).
  assert (Hk : 2 * k - 1 <= D <= 2 * k).
  { subst k. pose proof (Z.div_mod (D + 1) 2 ltac:(lia)).
    pose proof (Z.mod_pos_bound (D + 1) 2 ltac:(lia)). lia. }
  assert (Hkp : 0 < k) by lia.
  assert (Hsq1 : 2 ^ (k - 1) * 2 ^ (k - 1) <= n).
  { rewrite <- Z.pow_add_r by lia. eapply Z.le_trans; [|exact Hlo].
    apply Z.pow_le_mono_r; lia. }
  assert (Hsq2 : n < 2 ^ k * 2 ^ k).
  { rewrite <- Z.pow_add_r by lia. eapply Z.lt_le_trans; [exact Hhi|].
    apply Z.pow_le_mono_r; lia. }
  assert (H1 : 2 ^ (k - 1) <= Z.sqrt n).
  { apply Z.sqrt_le_square; [lia | apply Z.pow_nonneg; lia | exact Hsq1]. }
  assert (H2 : Z.sqrt n < 2 ^ k).
  { apply Z.sqrt_lt_square; [lia | apply Z.pow_nonneg; lia | exact Hsq2]. }
  apply digits_unique; [|lia].
  pose proof (Z.pow_pos_nonneg 2 (k - 1)). lia.
Qed.

Lemma SFsqrt_core_spec (m : positive) (e : Z) :
  exists q e' l,
    SFsqrt_core_binary prec emax (Zpos m) e = (q, e', l) /\
    0 <= e - 2 * e' /\
    0 < q /\
    q * q <= Zpos m * 2 ^ (e - 2 * e') < (q + 1) * (q + 1) /\
    digits q + e' = (digits (Zpos m) + e + 1) / 2 /\
    e' <= fexp32 (digits q + e').
Proof.
  unfold SFsqrt_core_binary. rewrite fexp32_eq, !Z.div2_div.
  fold (digits (Zpos m)). set (d := digits (Zpos m)).
  set (e' := Z.min (fexp32 ((d + e + 1) / 2)) (e / 2)).
  set (s := e - 2 * e').
  pose proof (Z.div_mod e 2 ltac:(lia)) as He2.
  pose proof (Z.mod_pos_bound e 2 ltac:(lia)) as He2b.
  assert (Hs : 0 <= s) by (subst s e'; lia).
  assert (HPs : 0 < 2 ^ s) by (apply Z.pow_pos_nonneg; lia).
  assert (Hm' : match s with
                | Zpos _ => Z.shiftl (Zpos m) s
                | Z0 => Zpos m
                | Zneg _ => 0
                end = Zpos m * 2 ^ s).
  { destruct s as [|p|p] eqn:Es; try lia.
    rewrite Z.shiftl_mul_pow2 by lia. reflexivity. }
  rewrite Hm'. set (m' := Zpos m * 2 ^ s) in *.
  assert (Hm'p : 0 < m') by (subst m'; nia).
  pose proof (Z.sqrtrem_sqrt m') as Hfst.
  pose proof (Z.sqrt_spec m' ltac:(lia)) as Hspec. cbv zeta in Hspec.
  destruct (Z.sqrtrem m') as [q r] eqn:Hsr. cbn [fst] in Hfst. subst q.
  eexists _, _, _. split; [reflexivity|].
  split; [exact Hs|].
  assert (Hqp : 0 < Z.sqrt m').
  { apply Z.sqrt_pos. exact Hm'p. }
  split; [exact Hqp|].
  split; [unfold Z.succ in Hspec; exact Hspec|].
  assert (Hdm' : digits m' = d + s).
  { destruct (digits_bounds (Zpos m) ltac:(lia)) as (Hd & Hlo & Hhi).
    fold d in Hd, Hlo, Hhi.
    apply digits_unique; [lia|].
    replace (d + s - 1) with ((d - 1) + s) by lia.
    rewrite !Z.pow_add_r by lia. subst m'. split; nia. }
  assert (Hdq : digits (Z.sqrt m') + e' = (d + e + 1) / 2).
  { rewrite digits_sqrt by lia. rewrite Hdm'.
    replace (d + e + 1) with ((d + s + 1) + e' * 2) by (subst s; lia).
    rewrite Z.div_add by lia. reflexivity. }
  split; [exact Hdq|].
  rewrite Hdq. subst e'. lia.
Qed.

Lemma fsqrt_near (m : positive) (e : Z) :
  valid (S754_finite false m e) = true ->
  exists (p : positive) (E : Z),
    fsqrt (S754_finite false m e) = S754_finite false p E /\
    valid (S754_finite false p E) = true /\
    near (one_ulp * one_ulp) (to_Q (S754_finite false m e))
      (to_Q (S754_finite false p E) * to_Q (S754_finite false p E)).
Proof.
  intros Hv.
  destruct (valid_bounds _ _ _ Hv) as (Heb & _ & _ & Hd24 & _).
  destruct (digits_bounds (Zpos m) ltac:(lia)) as (Hdp & _).
  destruct (SFsqrt_core_spec m e) as (q & e' & l & Hcore & Hs & Hqp & Hsq & Hdq & Hpre).
  pose proof (Z.div_mod (digits (Zpos m) + e + 1) 2 ltac:(lia)) as Hdiv.
  pose proof (Z.mod_pos_bound (digits (Zpos m) + e + 1) 2 ltac:(lia)) as Hmod.
  assert (Hnorm : e' <= -126 -> 2 ^ (-126 - e') <= q).
  { intros He'. destruct (digits_bounds q Hqp) as (_ & Hlo & _).
    eapply Z.le_trans; [|exact Hlo]. apply Z.pow_le_mono_r; lia. }
  assert (Hov : digits q + e' <= 127) by lia.
  destruct (round_aux_near q e' l Hqp Hpre Hnorm Hov)
    as (p & E & L & Heq & Hval & HL & HLq & HqL & HLz & HzL).
  exists p, E. split; [|split; [exact Hval|]].
  - unfold fsqrt. cbn [SFsqrt]. rewrite Hcore. exact Heq.
  - set (s := e - 2 * e') in *.
    assert (Hx : (to_Q (S754_finite false m e) ==
                  inject_Z (Zpos m * 2 ^ s) * (bpow e' * bpow e'))%Q).
    { rewrite to_Q_finite, <- bpow_add, bpow_shift by lia.
      replace (e' + e' + s) with e by (subst s; lia). reflexivity. }
    assert (H1 : (inject_Z q * inject_Z q <= inject_Z (Zpos m * 2 ^ s))%Q)
      by (rewrite <- inject_Z_mult, <- Zle_Qle; lia).
    assert (H2 : (inject_Z (Zpos m * 2 ^ s) <= inject_Z (q + 1) * inject_Z (q + 1))%Q)
      by (rewrite <- inject_Z_mult, <- Zle_Qle; lia).
    pose proof (bpow_pos e') as Hbe.
    set (z := to_Q (S754_finite false p E)) in *.
    set (A := (inject_Z q * bpow e')%Q) in *.
    set (B := (inject_Z (q + 1) * bpow e')%Q) in *.
    assert (HA : (A * A <= to_Q (S754_finite false m e))%Q).
    { rewrite Hx. apply (Qle_scale _ _ _ _ (bpow e' * bpow e') ltac:(nra) H1);
        subst A; ring. }
    assert (HB : (to_Q (S754_finite false m e) <= B * B)%Q).
    { rewrite Hx. apply (Qle_scale _ _ _ _ (bpow e' * bpow e') ltac:(nra) H2);
        subst B; ring. }
    assert (HA0 : (0 < A)%Q).
    { subst A. apply Qmult_lt_0_compat; [|exact Hbe]. rewrite <- (Zlt_Qlt 0). lia. }
    unfold near. unfold one_ulp in *.
    set (x := to_Q (S754_finite false m e)) in *.
    assert (HLu : (0 < L * (8388609 # 8388608))%Q) by nra.
    assert (Hz0 : (0 < z)%Q) by lra.
    assert (HB0 : (0 < B)%Q).
    { subst B. apply Qmult_lt_0_compat; [|exact Hbe]. rewrite <- (Zlt_Qlt 0). lia. }
    assert (S1 : (B * B <= (L * (8388609 # 8388608)) * (L * (8388609 # 8388608)))%Q) by nra.
    assert (S2 : (L * L <= z * z)%Q) by nra.
    assert (S3 : (z * z <= (L * (8388609 # 8388608)) * (L * (8388609 # 8388608)))%Q) by nra.
    assert (S4 : (L * L <= A * A)%Q) by nra.
    split; nra.
Qed.

(** * The RGBM round trip *)

Lemma near_mul (f g t t' z z' : Q) :
  (0 <= f)%Q -> (0 <= g)%Q -> (0 <= t)%Q -> (0 <= t')%Q -> (0 <= z)%Q -> (0 <= z')%Q ->
  near f t z -> near g t' z' -> near (f * g) (t * t') (z * z').
Proof.
  unfold near. intros Hf Hg Ht Ht' Hz Hz' [H1 H2] [H3 H4].
  assert (0 <= z * f)%Q by nra. assert (0 <= z' * g)%Q by nra.
  assert (0 <= t * f)%Q by nra. assert (0 <= t' * g)%Q by nra.
  split.
  - apply Qle_trans with ((z * f) * (z' * g))%Q; [nra|].
    ring_simplify. apply Qle_refl.
  - apply Qle_trans with ((t * f) * (t' * g))%Q; [nra|].
    ring_simplify. apply Qle_refl.
Qed.

Lemma near_scale (f t z k : Q) :
  (0 <= k)%Q -> near f t z -> near f (t * k) (z * k).
Proof.
  unfold near. intros Hk [H1 H2]. split.
  - apply Qle_trans with ((z * f) * k)%Q; [nra|]. ring_simplify. apply Qle_refl.
  - apply Qle_trans with ((t * f) * k)%Q; [nra|]. ring_simplify. apply Qle_refl.
Qed.

Lemma near_weaken (f g t z : Q) :
  (0 <= t)%Q -> (0 <= z)%Q -> (f <= g)%Q -> near f t z -> near g t z.
Proof. unfold near. intros Ht Hz Hfg [H1 H2]. split; nra. Qed.

Lemma near_eq (f t t' z z' : Q) :
  (t == t')%Q -> (z == z')%Q -> near f t z -> near f t' z'.
Proof. unfold near. intros -> ->. auto. Qed.

Lemma to_Q_of_Z (k : Z) : 0 < k < 2 ^ 24 -> (to_Q (of_Z k) == inject_Z k)%Q.
Proof.
  intros Hk. destruct (of_Z_small k Hk) as (Hrep & Hv & Hi).
  rewrite Hrep in Hv, Hi |- *.
  destruct (valid_bounds _ _ _ Hv) as (He & _).
  rewrite to_Q_ival by lia. rewrite Hi, inject_Z_mult.
  rewrite <- (bpow_Z 149) by lia. rewrite <- Qmult_assoc, <- bpow_add.
  change (bpow (149 + -149)) with 1%Q. ring.
Qed.

Lemma multiplier_facts (k : Z) :
  16 <= k <= 255 -> multiplier_check k = true.
Proof.
  intros Hk.
  assert (H : List.forallb (fun n => multiplier_check (Z.of_nat n))
                (List.seq 16 240) = true) by (vm_compute; reflexivity).
  rewrite List.forallb_forall in H.
  specialize (H (Z.to_nat k)). rewrite Z2Nat.id in H by lia.
  apply H. apply List.in_seq. lia.
Qed.

(** ** Values that are zero or positive *)

Lemma nonneg_cases (x : float32) :
  valid x = true -> fle (of_Z 0) x = true -> fle x (of_Z 16) = true ->
  (exists s, x = S754_zero s) \/ positive_finite x.
Proof.
  intros Hv H0 H16. destruct x as [s|[]| |[] m e]; try discriminate.
  - left. exists s. reflexivity.
  - right. exact Hv.
Qed.

Lemma to_Q_nonneg (x : float32) : nonneg x -> (0 <= to_Q x)%Q.
Proof.
  destruct x as [s|s| |[] m e]; cbn [nonneg]; try tauto.
  - intros _. apply Qle_refl.
  - intros _. apply Qlt_le_weak, to_Q_pos.
Qed.

Lemma flt_to_Q_nonneg (x y : float32) :
  nonneg x -> nonneg y -> (flt x y = true <-> (to_Q x < to_Q y)%Q).
Proof.
  destruct x as [sx|sx| |[] mx ex], y as [sy|sy| |[] my ey]; cbn [nonneg];
    try tauto; intros Hx Hy.
  - split; [destruct sx, sy; discriminate | cbn; intros H; lra].
  - pose proof (to_Q_pos my ey). change (to_Q (S754_zero sx)) with 0%Q.
    split; [intros _; lra|]. intros _. reflexivity.
  - pose proof (to_Q_pos mx ex). change (to_Q (S754_zero sy)) with 0%Q.
    split; [discriminate|]. intros H'. lra.
  - apply flt_to_Q; assumption.
Qed.

Lemma std_max_nonneg (a b : float32) :
  nonneg a -> nonneg b ->
  nonneg (std_max a b) /\
  (to_Q a <= to_Q (std_max a b))%Q /\ (to_Q b <= to_Q (std_max a b))%Q.
Proof.
  intros Ha Hb. unfold std_max.
  pose proof (flt_to_Q_nonneg a b Ha Hb) as H.
  destruct (flt a b).
  - assert (to_Q a < to_Q b)%Q by (apply H; reflexivity).
    repeat split; [assumption | lra | lra].
  - assert (~ (to_Q a < to_Q b)%Q) by (intros C; apply H in C; discriminate).
    repeat split; [assumption | lra | lra].
Qed.

Lemma std_min_nonneg (a b : float32) :
  nonneg a -> nonneg b ->
  nonneg (std_min a b) /\
  ((to_Q (std_min a b) == to_Q a)%Q \/ (to_Q (std_min a b) == to_Q b)%Q) /\
  (to_Q (std_min a b) <= to_Q a)%Q /\ (to_Q (std_min a b) <= to_Q b)%Q.
Proof.
  intros Ha Hb. unfold std_min.
  pose proof (flt_to_Q_nonneg b a Hb Ha) as H.
  destruct (flt b a).
  - assert (to_Q b < to_Q a)%Q by (apply H; reflexivity).
    repeat split; [assumption | right; reflexivity | lra | lra].
  - assert (~ (to_Q b < to_Q a)%Q) by (intros C; apply H in C; discriminate).
    repeat split; [assumption | left; reflexivity | lra | lra].
Qed.

(** ** The encoded component *)

Lemma to_Q_lower (m : positive) (e : Z) :
  valid (S754_finite false m e) = true ->
  (bpow (-149) <= to_Q (S754_finite false m e))%Q.
Proof.
  intros Hv. destruct (valid_bounds _ _ _ Hv) as (He & _).
  rewrite to_Q_finite. pose proof (bpow_le (-149) e ltac:(lia)).
  pose proof (bpow_pos (-149)).
  assert (1 <= inject_Z (Zpos m))%Q by (rewrite <- (Zle_Qle 1); lia). nra.
Qed.

Lemma bpow_sq (e : Z) : (bpow e * bpow e == bpow (2 * e))%Q.
Proof. rewrite <- bpow_add. replace (e + e) with (2 * e) by lia. reflexivity. Qed.

Lemma bpow_double (e : Z) : (2 * bpow e == bpow (e + 1))%Q.
Proof. rewrite bpow_add. change (bpow 1) with 2%Q. ring. Qed.

Lemma one_ulp_bounds : (1 < one_ulp)%Q /\ (one_ulp * one_ulp < 17 # 16)%Q.
Proof. split; reflexivity. Qed.

Lemma encoded_component (m : positive) (e : Z) :
  valid (S754_finite false m e) = true ->
  (to_Q (S754_finite false m e) <= 16)%Q ->
  exists (pr : positive) (er : Z),
    fdiv (fsqrt (S754_finite false m e)) (of_Z 16) = S754_finite false pr er /\
    valid (S754_finite false pr er) = true /\
    (bpow (-80) <= to_Q (S754_finite false pr er))%Q /\
    (to_Q (S754_finite false pr er) <= 1 # 2)%Q /\
    near (one_ulp * one_ulp * (one_ulp * one_ulp))
      (to_Q (S754_finite false m e))
      ((to_Q (S754_finite false pr er) * 16) * (to_Q (S754_finite false pr er) * 16)).
Proof.
  intros Hv H16.
  pose proof (to_Q_lower m e Hv) as Hlow.
  destruct (fsqrt_near m e Hv) as (ps & Es & Hs & Hvs & Hns).
  rewrite Hs.
  set (x := to_Q (S754_finite false m e)) in *.
  pose proof (to_Q_pos ps Es) as Hsp.
  set (s := to_Q (S754_finite false ps Es)) in *.
  destruct one_ulp_bounds as (Hu1 & Hu2).
  set (u := one_ulp) in *.
  destruct Hns as (Hn1 & Hn2).
  (* bounds on the root *)
  assert (Hs5 : (s <= 5)%Q) by nra.
  assert (Hs75 : (bpow (-75) <= s)%Q).
  { destruct (Qlt_le_dec s (bpow (-75))) as [Hc|Hc]; [|exact Hc]. exfalso.
    pose proof (bpow_sq (-75)) as Hsq. change (2 * -75) with (-150) in Hsq.
    pose proof (bpow_double (-150)) as Hd. change (-150 + 1) with (-149) in Hd.
    pose proof (bpow_pos (-75)). pose proof (bpow_pos (-150)).
    assert (s * s <= bpow (-150))%Q by nra.
    assert (s * s * (u * u) <= bpow (-150) * 2)%Q by nra.
    assert (0 < s * s)%Q by nra. nra. }
  assert (H16Q : (to_Q (S754_finite false 8388608 (-19)) == 16)%Q) by reflexivity.
  change (of_Z 16) with (S754_finite false 8388608 (-19)).
  destruct (fdiv_near ps 8388608 Es (-19) Hvs eq_refl) as (pr & er & Hr & Hvr & Hnr).
  { rewrite H16Q. apply Qle_shift_div_l; [reflexivity|].
    assert (Hb : (bpow (-126) * 16 == bpow (-122))%Q).
    { rewrite (bpow_split (-122) (-126)) by lia. change (inject_Z (2 ^ (-122 - -126))) with 16%Q. ring. }
    rewrite Hb. fold s. eapply Qle_trans; [apply (bpow_le (-122) (-75)); lia | exact Hs75]. }
  { rewrite H16Q. apply Qle_shift_div_r; [reflexivity|]. fold s.
    pose proof (bpow_le 0 126 ltac:(lia)) as Hb. change (bpow 0) with 1%Q in Hb. nra. }
  exists pr, er. split; [exact Hr|]. split; [exact Hvr|].
  unfold near in Hnr. rewrite H16Q in Hnr. fold s in Hnr. fold u in Hnr.
  pose proof (to_Q_pos pr er) as Hrp.
  set (r := to_Q (S754_finite false pr er)) in *.
  destruct Hnr as (Hr1 & Hr2).
  assert (Hsh : (s == s / 16 * 16)%Q) by field.
  set (h := (s / 16)%Q) in *.
  assert (Hr1' : (s <= r * 16 * u)%Q) by (rewrite Hsh; nra).
  assert (Hr2' : (r * 16 <= s * u)%Q) by (rewrite Hsh; nra).
  split.
  { pose proof (bpow_pos (-80)).
    assert (Hb : (bpow (-75) == 32 * bpow (-80))%Q).
    { rewrite (bpow_split (-75) (-80)) by lia. reflexivity. }
    assert (u <= 2)%Q by nra. nra. }
  split; [nra|].
  apply (near_trans (u * u) (u * u) x (s * s)); try nra.
  - split; assumption.
  - apply near_mul; try nra; split; assumption.
Qed.

(** ** The multiplier and the clamped maximum *)

Lemma bpow_unit_bounds : (bpow (-126) <= 1)%Q /\ (256 <= bpow 126)%Q.
Proof.
  split.
  - pose proof (bpow_le (-126) 0 ltac:(lia)) as H. exact H.
  - pose proof (bpow_le 8 126 ltac:(lia)) as H. exact H.
Qed.

Lemma multiplier_bounds (v : float3) :
  nonneg (fdiv (fsqrt (r3 v)) (of_Z 16)) ->
  nonneg (fdiv (fsqrt (g3 v)) (of_Z 16)) ->
  nonneg (fdiv (fsqrt (b3 v)) (of_Z 16)) ->
  (to_Q (fdiv (fsqrt (r3 v)) (of_Z 16)) <= 1 # 2)%Q ->
  (to_Q (fdiv (fsqrt (g3 v)) (of_Z 16)) <= 1 # 2)%Q ->
  (to_Q (fdiv (fsqrt (b3 v)) (of_Z 16)) <= 1 # 2)%Q ->
  exists (pm : positive) (em : Z) (pa : positive) (ea : Z),
    a4 (linearToRGBM v) = S754_finite false pm em /\
    valid (S754_finite false pm em) = true /\
    fmul (S754_finite false pm em) (of_Z 16) = S754_finite false pa ea /\
    valid (S754_finite false pa ea) = true /\
    (to_Q (S754_finite false pa ea) == 16 * to_Q (S754_finite false pm em))%Q /\
    (1 # 16 <= to_Q (S754_finite false pm em))%Q /\
    (to_Q (S754_finite false pm em) <= 1)%Q /\
    (to_Q (fdiv (fsqrt (r3 v)) (of_Z 16))
       <= to_Q (S754_finite false pm em) * (one_ulp * one_ulp))%Q /\
    (to_Q (fdiv (fsqrt (g3 v)) (of_Z 16))
       <= to_Q (S754_finite false pm em) * (one_ulp * one_ulp))%Q /\
    (to_Q (fdiv (fsqrt (b3 v)) (of_Z 16))
       <= to_Q (S754_finite false pm em) * (one_ulp * one_ulp))%Q.
Proof.
  intros N0 N1 N2 B0 B1 B2.
  set (r0 := fdiv (fsqrt (r3 v)) (of_Z 16)) in *.
  set (r1 := fdiv (fsqrt (g3 v)) (of_Z 16)) in *.
  set (r2 := fdiv (fsqrt (b3 v)) (of_Z 16)) in *.
  destruct (clamped_max_step v) as (k & Hk & Hceil & Hle).
  pose proof (linearToRGBM_multiplier v) as HM. rewrite Hceil in HM.
  pose proof (clamped_max_valid v) as Hcv.
  (* the clamped maximum dominates the components *)
  assert (Hc : nonneg (clamped_max v) /\
               (1 # 16 <= to_Q (clamped_max v))%Q /\ (to_Q (clamped_max v) <= 1)%Q /\
               (to_Q r0 <= to_Q (clamped_max v))%Q /\
               (to_Q r1 <= to_Q (clamped_max v))%Q /\
               (to_Q r2 <= to_Q (clamped_max v))%Q).
  { unfold clamped_max, clamp, max4. cbn [fold_left]. fold r0 r1 r2.
    assert (Ne : nonneg (lit 1 1000000)) by reflexivity.
    destruct (std_max_nonneg r0 r1 N0 N1) as (Na & Ha0 & Ha1).
    destruct (std_max_nonneg _ r2 Na N2) as (Nb & Hb0 & Hb1).
    destruct (std_max_nonneg _ _ Nb Ne) as (Nm & Hm0 & _).
    set (maxc := std_max (std_max (std_max r0 r1) r2) (lit 1 1000000)) in *.
    assert (Nlo : nonneg (fdiv (of_Z 1) (of_Z 16))) by reflexivity.
    assert (Nhi : nonneg (of_Z 1)) by reflexivity.
    destruct (std_max_nonneg _ maxc Nlo Nm) as (Nx & Hx0 & Hx1).
    destruct (std_min_nonneg (of_Z 1) _ Nhi Nx) as (Nc & Hcase & Hc1 & Hc2).
    assert (Hone : (to_Q (of_Z 1) == 1)%Q) by (vm_compute; reflexivity).
    assert (Hlo16 : (to_Q (fdiv (of_Z 1) (of_Z 16)) == 1 # 16)%Q)
      by (vm_compute; reflexivity).
    rewrite Hone in Hcase, Hc1. rewrite Hlo16 in Hx0.
    split; [exact Nc|].
    destruct Hcase as [He|He]; rewrite He; repeat split; lra. }
  destruct Hc as (Nc & Hc16 & Hc1 & Hr0 & Hr1 & Hr2).
  destruct (clamped_max v) as [sc|sc| |[] mc ec] eqn:Ec; cbn [nonneg] in Nc;
    try tauto.
  { exfalso. change (to_Q (S754_zero sc)) with 0%Q in Hc16. lra. }
  (* the product by 255 and its ceiling *)
  change (of_Z 255) with (S754_finite false 16711680 (-16)) in Hle.
  assert (H255 : (to_Q (S754_finite false 16711680 (-16)) == 255)%Q) by reflexivity.
  destruct bpow_unit_bounds as (Hb1 & Hb2).
  destruct (fmul_near mc 16711680 ec (-16) Nc eq_refl) as (py & ey & Hy & Hvy & Hny).
  { rewrite H255. lra. }
  { rewrite H255. lra. }
  rewrite Hy in Hle.
  destruct (of_Z_small k ltac:(change (2 ^ 24) with 16777216; lia)) as (Hrep & Hvk & _).
  pose proof (to_Q_of_Z k ltac:(change (2 ^ 24) with 16777216; lia)) as HkQ.
  rewrite Hrep in Hle, Hvk, HkQ.
  apply (fle_to_Q _ _ _ _ Hvy Hvk) in Hle. rewrite HkQ in Hle.
  unfold near in Hny. rewrite H255 in Hny. destruct Hny as (Hny1 & _).
  (* the multiplier *)
  pose proof (multiplier_facts k Hk) as Hchk. unfold multiplier_check in Hchk.
  rewrite <- HM in Hchk.
  destruct (a4 (linearToRGBM v)) as [sm|sm| |[] pm em]; try discriminate.
  rewrite !andb_true_iff in Hchk.
  destruct Hchk as ((((HvM & HM16) & HM1) & HkM) & HA).
  destruct (fmul (S754_finite false pm em) (of_Z 16)) as [sa|sa| |[] pa ea] eqn:EA;
    try discriminate.
  rewrite andb_true_iff in HA. destruct HA as (HvA & HAeq).
  apply Qle_bool_imp_le in HM16, HM1, HkM. apply Qeq_bool_eq in HAeq.
  exists pm, em, pa, ea.
  split; [reflexivity|]. split; [exact HvM|]. split; [exact EA|].
  split; [exact HvA|]. split; [exact HAeq|]. split; [exact HM16|]. split; [exact HM1|].
  destruct one_ulp_bounds as (Hu1 & _).
  set (u := one_ulp) in *.
  set (Mq := to_Q (S754_finite false pm em)) in *.
  set (cq := to_Q (S754_finite false mc ec)) in *.
  set (yq := to_Q (S754_finite false py ey)) in *.
  assert (Hcm : (cq <= Mq * (u * u))%Q) by nra.
  repeat split; lra.
Qed.

(** ** Decoding one component *)

Lemma saturate_positive (p : positive) (E : Z) :
  valid (S754_finite false p E) = true ->
  exists (po : positive) (eo : Z),
    saturate (S754_finite false p E) = S754_finite false po eo /\
    valid (S754_finite false po eo) = true /\
    (to_Q (S754_finite false po eo) <= 1)%Q /\
    ((to_Q (S754_finite false po eo) == to_Q (S754_finite false p E))%Q \/
     ((to_Q (S754_finite false po eo) == 1)%Q /\
      (1 <= to_Q (S754_finite false p E))%Q)).
Proof.
  intros Hv. unfold saturate, clamp, std_max, std_min.
  change (flt (of_Z 0) (S754_finite false p E)) with true. cbv iota.
  change (of_Z 1) with (S754_finite false 8388608 (-23)).
  assert (H1 : (to_Q (S754_finite false 8388608 (-23)) == 1)%Q)
    by (vm_compute; reflexivity).
  pose proof (flt_to_Q p 8388608 E (-23) Hv eq_refl) as Hlt.
  destruct (flt (S754_finite false p E) (S754_finite false 8388608 (-23))).
  - exists p, E. split; [reflexivity|]. split; [exact Hv|].
    assert (to_Q (S754_finite false p E) < to_Q (S754_finite false 8388608 (-23)))%Q
      by (apply Hlt; reflexivity).
    split; [lra|]. left. reflexivity.
  - exists 8388608%positive, (-23). split; [reflexivity|]. split; [reflexivity|].
    split; [lra|]. right. split; [exact H1|].
    destruct (Qlt_le_dec (to_Q (S754_finite false p E)) 1) as [Hl|Hl]; [|exact Hl].
    exfalso. rewrite <- H1 in Hl. apply Hlt in Hl. discriminate Hl.
Qed.

Lemma is_finite_mk_float (m2 : Z) :
  0 <= m2 -> is_finite (mk_float false m2 (-149)) = true.
Proof.
  intros Hm. unfold mk_float. destruct m2 as [|p|p]; try lia; [reflexivity|].
  destruct (Z.pos p =? 16777216); reflexivity.
Qed.

Lemma ulp_power_bounds :
  (one_ulp * one_ulp * (one_ulp * one_ulp) *
     (one_ulp * one_ulp * one_ulp * (one_ulp * one_ulp * one_ulp)) * one_ulp
     <= 500001 # 500000)%Q.
Proof. apply Qle_bool_imp_le. vm_compute. reflexivity. Qed.

Lemma rel_close_of_near (d x : float32) (f : Q) :
  is_finite d = true -> (0 <= to_Q d)%Q -> (0 <= to_Q x)%Q ->
  (f <= 500001 # 500000)%Q -> near f (to_Q x) (to_Q d) -> rel_close d x.
Proof.
  intros Hf Hd Hx Hle Hn. split; [exact Hf|].
  apply (near_weaken _ _ _ _ Hx Hd Hle) in Hn. unfold near in Hn.
  destruct Hn as [H1 H2].
  rewrite (Qabs_pos (to_Q x)) by exact Hx.
  apply Qabs_Qle_condition. split; lra.
Qed.

(** A product that rounds in the subnormal range: below 1000 units of
    [2^-149] the rounding returns the very integer it started from, above
    it half a unit is less than a thousandth. *)
Lemma rel_close_subnormal (mx : positive) (ex m2 : Z) (L : Q) :
  valid (S754_finite false mx ex) = true ->
  0 <= m2 <= 2 ^ 24 ->
  (Qabs (inject_Z m2 * bpow (-149) - L) <= bpow (-150))%Q ->
  near (500001 # 500000) (to_Q (S754_finite false mx ex)) L ->
  rel_close (mk_float false m2 (-149)) (S754_finite false mx ex).
Proof.
  intros Hv Hm Habs Hn.
  split; [apply is_finite_mk_float; lia|].
  rewrite to_Q_mk_float by lia.
  destruct (valid_bounds _ _ _ Hv) as (He & _).
  pose proof (to_Q_pos mx ex) as Hxpos.
  rewrite (Qabs_pos (to_Q (S754_finite false mx ex))) by lra.
  unfold near in Hn. destruct Hn as [Hn1 Hn2].
  rewrite to_Q_ival in Hn1, Hn2, Hxpos |- * by lia.
  set (a := ival (S754_finite false mx ex)) in *.
  assert (Ha : 0 < a).
  { unfold a. cbn [ival]. assert (0 < 2 ^ (ex + 149)) by (apply Z.pow_pos_nonneg; lia).
    nia. }
  pose proof (bpow_double (-150)) as Hdbl. change (-150 + 1) with (-149) in Hdbl.
  pose proof (bpow_pos (-150)) as Hh.
  apply Qabs_Qle_condition in Habs. destruct Habs as [Hl1 Hl2].
  set (h := bpow (-150)) in *. set (beta := bpow (-149)) in *.
  set (D := (inject_Z m2 * beta)%Q) in *.
  set (X := (inject_Z a * beta)%Q) in *.
  apply Qabs_Qle_condition.
  destruct (Z_le_gt_dec a 1000) as [Hsmall|Hbig].
  - assert (HX : (X <= 2000 * h)%Q).
    { unfold X. apply Qle_trans with (1000 * beta)%Q; [|lra].
      apply Qmult_le_compat_r; [|lra]. rewrite (Zle_Qle a 1000) in Hsmall.
      exact Hsmall. }
    assert (Hup : (inject_Z m2 * beta < inject_Z (a + 1) * beta)%Q).
    { rewrite inject_Z_plus. fold D. 
      apply Qlt_le_trans with (X + beta)%Q; [lra|].
      unfold X. ring_simplify. apply Qle_refl. }
    assert (Hdn : (inject_Z a * beta < inject_Z (m2 + 1) * beta)%Q).
    { rewrite inject_Z_plus. fold X.
      apply Qlt_le_trans with (D + beta)%Q; [lra|].
      unfold D. ring_simplify. apply Qle_refl. }
    rewrite Qmult_lt_r in Hup, Hdn by (unfold beta; apply bpow_pos).
    rewrite <- Zlt_Qlt in Hup, Hdn.
    assert (Heq : m2 = a) by lia.
    assert (HDX : (D == X)%Q) by (unfold D, X; rewrite Heq; reflexivity).
    split; lra.
  - assert (HX : (2002 * h <= X)%Q).
    { unfold X. apply Qle_trans with (1001 * beta)%Q; [lra|].
      apply Qmult_le_compat_r; [|lra].
      assert (H1001 : 1001 <= a) by lia. rewrite (Zle_Qle 1001 a) in H1001.
      exact H1001. }
    split; lra.
Qed.

Lemma decoded_component (mx pr pm pa : positive) (ex er em ea : Z) :
  valid (S754_finite false mx ex) = true ->
  valid (S754_finite false pr er) = true ->
  valid (S754_finite false pm em) = true ->
  valid (S754_finite false pa ea) = true ->
  (to_Q (S754_finite false mx ex) <= 16)%Q ->
  (to_Q (S754_finite false pa ea) == 16 * to_Q (S754_finite false pm em))%Q ->
  (1 # 16 <= to_Q (S754_finite false pm em))%Q ->
  (to_Q (S754_finite false pm em) <= 1)%Q ->
  (bpow (-80) <= to_Q (S754_finite false pr er))%Q ->
  (to_Q (S754_finite false pr er)
     <= to_Q (S754_finite false pm em) * (one_ulp * one_ulp))%Q ->
  near (one_ulp * one_ulp * (one_ulp * one_ulp))
    (to_Q (S754_finite false mx ex))
    ((to_Q (S754_finite false pr er) * 16) * (to_Q (S754_finite false pr er) * 16)) ->
  rel_close
    (fmul (fmul (saturate (fdiv (S754_finite false pr er) (S754_finite false pm em)))
                (S754_finite false pa ea))
          (fmul (saturate (fdiv (S754_finite false pr er) (S754_finite false pm em)))
                (S754_finite false pa ea)))
    (S754_finite false mx ex).
Proof.
  intros Hvx Hvr HvM HvA Hx16 HA HM16 HM1 Hr80 HrM Hnx.
  pose proof (to_Q_pos mx ex) as Hxpos.
  pose proof (to_Q_pos pr er) as Hrpos.
  destruct one_ulp_bounds as (Hu1 & Hu2).
  destruct bpow_unit_bounds as (Hb1 & Hb2).
  pose proof (bpow_le (-126) (-80) ltac:(lia)) as Hb80.
  pose proof (bpow_pos (-126)) as Hb126.
  pose proof ulp_power_bounds as Hpow.
  set (xq := to_Q (S754_finite false mx ex)) in *.
  set (rq := to_Q (S754_finite false pr er)) in *.
  set (Mq := to_Q (S754_finite false pm em)) in *.
  set (Aq := to_Q (S754_finite false pa ea)) in *.
  set (u := one_ulp) in *.
  assert (Huu : (1 <= u * u)%Q) by nra.
  (* the quotient by the multiplier *)
  assert (Hq1 : (rq <= rq / Mq)%Q) by (apply Qle_shift_div_l; [lra | nra]).
  assert (Hq2 : (rq / Mq <= u * u)%Q) by (apply Qle_shift_div_r; lra).
  assert (Hqm : (rq / Mq * (16 * Mq) == rq * 16)%Q) by (field; lra).
  destruct (fdiv_near pr pm er em Hvr HvM) as (p1 & e1 & Hdiv & Hv1 & Hn1).
  { fold rq Mq. lra. }
  { fold rq Mq. lra. }
  fold rq Mq u in Hn1. rewrite Hdiv.
  set (q := (rq / Mq)%Q) in *.
  (* the saturation *)
  destruct (saturate_positive p1 e1 Hv1) as (po & eo & Hsat & Hvo & Ho1 & Hcase).
  rewrite Hsat.
  pose proof (to_Q_pos po eo) as Hopos.
  pose proof (to_Q_pos p1 e1) as H1pos.
  set (oq := to_Q (S754_finite false po eo)) in *.
  set (o1 := to_Q (S754_finite false p1 e1)) in *.
  assert (Hno : near (u * u) q oq).
  { unfold near in Hn1 |- *. destruct Hn1 as [Ha Hb].
    assert (Hw1 : (o1 * u <= o1 * u * u)%Q).
    { assert (0 <= o1 * u)%Q by nra. set (w := (o1 * u)%Q) in *. nra. }
    assert (Hw2 : (q * u <= q * u * u)%Q).
    { assert (0 <= q * u)%Q by nra. set (w := (q * u)%Q) in *. nra. }
    destruct Hcase as [He|[He Hge]]; rewrite He; split.
    - apply Qle_trans with (o1 * u * u)%Q; [lra | ring_simplify; apply Qle_refl].
    - apply Qle_trans with (q * u * u)%Q; [lra | ring_simplify; apply Qle_refl].
    - apply Qle_trans with (u * u)%Q; [exact Hq2 | ring_simplify; apply Qle_refl].
    - apply Qle_trans with (q * u * u)%Q; [lra | ring_simplify; apply Qle_refl]. }
  (* the product by sixteen times the multiplier *)
  assert (Hns : near (u * u) (rq * 16) (oq * Aq)).
  { apply (near_eq _ (q * (16 * Mq)) _ (oq * (16 * Mq))).
    - exact Hqm.
    - rewrite HA. reflexivity.
    - apply near_scale; [lra | exact Hno]. }
  assert (HP0 : (0 <= oq * Aq)%Q) by (rewrite HA; nra).
  assert (HPlo : (bpow (-126) <= oq * Aq)%Q).
  { unfold near in Hns. destruct Hns as [Ha _].
    set (P := (oq * Aq)%Q) in *.
    assert (P * (u * u) <= P * (17 # 16))%Q by nra. lra. }
  assert (HPup : (oq * Aq <= 16)%Q) by (rewrite HA; nra).
  destruct (fmul_near po pa eo ea Hvo HvA) as (pl & el & Hlin & Hvl & Hnl).
  { fold oq Aq. exact HPlo. }
  { fold oq Aq. lra. }
  fold oq Aq u in Hnl. rewrite Hlin.
  pose proof (to_Q_pos pl el) as Hlpos.
  set (lq := to_Q (S754_finite false pl el)) in *.
  assert (Hnsl : near (u * u * u) (rq * 16) lq).
  { apply (near_trans (u * u) u _ (oq * Aq)); [lra | lra | exact Hns | exact Hnl]. }
  (* the square *)
  assert (Hnsq : near (u * u * u * (u * u * u)) (rq * 16 * (rq * 16)) (lq * lq)).
  { apply near_mul; try lra; try nra; exact Hnsl. }
  assert (Hu3 : (0 <= u * u * u)%Q) by nra.
  assert (Hu4 : (0 <= u * u * (u * u))%Q) by nra.
  assert (Hu6 : (0 <= u * u * u * (u * u * u))%Q) by nra.
  assert (HnL : near (u * u * (u * u) * (u * u * u * (u * u * u))) xq (lq * lq)).
  { apply (near_trans _ _ _ (rq * 16 * (rq * 16))); [exact Hu4 | exact Hu6 | exact Hnx |
      exact Hnsq]. }
  set (F := (u * u * (u * u) * (u * u * u * (u * u * u)))%Q) in *.
  assert (HF0 : (0 <= F)%Q) by (unfold F; nra).
  assert (HFG : (F <= 500001 # 500000)%Q).
  { apply Qle_trans with (F * u)%Q; [nra | exact Hpow]. }
  assert (HL0 : (0 <= lq * lq)%Q) by nra.
  destruct (Qlt_le_dec (lq * lq) (bpow (-126))) as [Hsub|Hnorm].
  - destruct (fmul_subnormal pl pl el el Hvl Hvl Hsub) as (m2 & Hm2 & Hd & Habs).
    rewrite Hd. fold lq in Habs.
    apply (rel_close_subnormal mx ex m2 (lq * lq) Hvx Hm2 Habs).
    fold xq. apply (near_weaken F); [lra | exact HL0 | exact HFG | exact HnL].
  - destruct (fmul_near pl pl el el Hvl Hvl) as (pd & ed & Hd & Hvd & Hnd).
    { exact Hnorm. }
    { fold lq. unfold near in HnL. destruct HnL as [_ Hb]. nra. }
    fold lq u in Hnd. rewrite Hd.
    pose proof (to_Q_pos pd ed) as Hdpos.
    apply (rel_close_of_near _ _ (F * u)); [reflexivity | lra | fold xq; lra |
      exact Hpow |].
    fold xq. apply (near_trans F u _ (lq * lq)); [exact HF0 | lra | exact HnL | exact Hnd].
Qed.

(** ** The round trip *)

Lemma RGBMtoLinear_linearToRGBM (v : float3) :
  RGBMtoLinear (linearToRGBM v) =
    map3 (fun x =>
            fmul (fmul (saturate (fdiv (fdiv (fsqrt x) (of_Z 16)) (a4 (linearToRGBM v))))
                       (fmul (a4 (linearToRGBM v)) (of_Z 16)))
                 (fmul (saturate (fdiv (fdiv (fsqrt x) (of_Z 16)) (a4 (linearToRGBM v))))
                       (fmul (a4 (linearToRGBM v)) (of_Z 16)))) v.
Proof. rewrite linearToRGBM_unfold. reflexivity. Qed.

Lemma to_Q_le_16 (m : positive) (e : Z) :
  valid (S754_finite false m e) = true ->
  fle (S754_finite false m e) (of_Z 16) = true ->
  (to_Q (S754_finite false m e) <= 16)%Q.
Proof.
  intros Hv H. change (of_Z 16) with (S754_finite false 8388608 (-19)) in H.
  apply (fle_to_Q m 8388608 e (-19) Hv eq_refl) in H.
  assert (H16 : (to_Q (S754_finite false 8388608 (-19)) == 16)%Q)
    by (vm_compute; reflexivity).
  rewrite H16 in H. exact H.
Qed.

Lemma encoded_nonneg (x : float32) :
  valid x = true -> fle (of_Z 0) x = true -> fle x (of_Z 16) = true ->
  nonneg (fdiv (fsqrt x) (of_Z 16)) /\
  (to_Q (fdiv (fsqrt x) (of_Z 16)) <= 1 # 2)%Q.
Proof.
  intros Hv H0 H16.
  destruct (nonneg_cases x Hv H0 H16) as [[s ->]|Hp].
  - destruct s; split; try exact I; vm_compute; discriminate.
  - destruct x as [s|s| |[] m e]; cbn [positive_finite] in Hp; try tauto.
    destruct (encoded_component m e Hp (to_Q_le_16 m e Hp H16))
      as (pr & er & -> & Hvr & _ & Hhalf & _).
    split; [exact Hvr | exact Hhalf].
Qed.

Lemma component_round_trip (x : float32) (pm pa : positive) (em ea : Z) :
  valid x = true -> fle (of_Z 0) x = true -> fle x (of_Z 16) = true ->
  valid (S754_finite false pm em) = true ->
  valid (S754_finite false pa ea) = true ->
  (to_Q (S754_finite false pa ea) == 16 * to_Q (S754_finite false pm em))%Q ->
  (1 # 16 <= to_Q (S754_finite false pm em))%Q ->
  (to_Q (S754_finite false pm em) <= 1)%Q ->
  (to_Q (fdiv (fsqrt x) (of_Z 16))
     <= to_Q (S754_finite false pm em) * (one_ulp * one_ulp))%Q ->
  rel_close
    (fmul (fmul (saturate (fdiv (fdiv (fsqrt x) (of_Z 16)) (S754_finite false pm em)))
                (S754_finite false pa ea))
          (fmul (saturate (fdiv (fdiv (fsqrt x) (of_Z 16)) (S754_finite false pm em)))
                (S754_finite false pa ea)))
    x.
Proof.
  intros Hv H0 H16 HvM HvA HA HM16 HM1 HrM.
  destruct (nonneg_cases x Hv H0 H16) as [[s ->]|Hp].
  - destruct s; (split; [reflexivity | vm_compute; discriminate]).
  - destruct x as [s|s| |[] m e]; cbn [positive_finite] in Hp; try tauto.
    pose proof (to_Q_le_16 m e Hp H16) as Hx16.
    destruct (encoded_component m e Hp Hx16)
      as (pr & er & Henc & Hvr & Hr80 & _ & Hnx).
    rewrite Henc in HrM |- *.
    apply decoded_component; assumption.
Qed.

(** C4: for every linear RGB triple [v] whose components lie in [0, 16],
    each component of the pure float round trip
    [RGBMtoLinear (linearToRGBM v)] is finite and differs from the
    component of [v] by at most [1e-3] times that component. *)
Theorem RGBM_round_trip (v : float3) :
  within_0_16 (r3 v) -> within_0_16 (g3 v) -> within_0_16 (b3 v) ->
  rel_close (r3 (RGBMtoLinear (linearToRGBM v))) (r3 v) /\
  rel_close (g3 (RGBMtoLinear (linearToRGBM v))) (g3 v) /\
  rel_close (b3 (RGBMtoLinear (linearToRGBM v))) (b3 v).
Proof.
  intros (Hvr & Hr0 & Hr16) (Hvg & Hg0 & Hg16) (Hvb & Hb0 & Hb16).
  destruct (encoded_nonneg _ Hvr Hr0 Hr16) as (Nr & Br).
  destruct (encoded_nonneg _ Hvg Hg0 Hg16) as (Ng & Bg).
  destruct (encoded_nonneg _ Hvb Hb0 Hb16) as (Nb & Bb).
  destruct (multiplier_bounds v Nr Ng Nb Br Bg Bb)
    as (pm & em & pa & ea & HM & HvM & HAeq & HvA & HA & HM16 & HM1 & Lr & Lg & Lb).
  rewrite RGBMtoLinear_linearToRGBM. cbn [map3 r3 g3 b3].
  rewrite HM, HAeq.
  split; [|split]; apply component_round_trip; assumption.
Qed.
(** * Further properties of the transfer functions *)

Section Overloads.

Variable pow : float32 -> float32 -> float32.

(** X1: the [float3] and the [float4] overloads of [sRGBToLinear] agree on
    the colour: the first three components of the 4-component result are
    the 3-component result on the first three components of the input,
    whatever the uninitialised locals of the two functions hold. *)
Theorem sRGBToLinear_overloads_agree (junk3 : float3) (junk4 v : float4) :
  rgb (sRGBToLinear_float4 pow junk4 v) = sRGBToLinear_float3 pow junk3 (rgb v).
Proof.
  destruct v as [r g b a], junk3 as [j0 j1 j2], junk4 as [k0 k1 k2 k3].
  unfold sRGBToLinear_float4, sRGBToLinear_float3, rgb.
  cbn [for_range get4 get3 set4 set3 r4 g4 b4 a4 r3 g3 b3].
  destruct (fle r _), (fle g _), (fle b _); reflexivity.
Qed.

(** X2: the 3-component template [linearTosRGB] and the scalar overload
    agree: each component of the template's result is the scalar function
    of the same component of the input, and nothing of the uninitialised
    local [sRGB] is left in the result. *)
Theorem linearTosRGB_overloads_agree (junk c : float3) :
  linearTosRGB pow junk c =
    Float3 (linearTosRGB_float pow (r3 c)) (linearTosRGB_float pow (g3 c))
           (linearTosRGB_float pow (b3 c)).
Proof. rewrite linearTosRGB_map3. reflexivity. Qed.

End Overloads.
(** * The RGBM packer *)

Lemma get4_map4 (f : float32 -> float32) (v : float4) (i : nat) :
  get4 (map4 f v) i = f (get4 v i).
Proof. destruct i as [|[|[|i]]]; reflexivity. Qed.

Lemma get_float3_channels (image : LinearImage) (x y : Z) :
  get_float3 image x y =
    Float3 (pixel_channel image x y 0) (pixel_channel image x y 1)
           (pixel_channel image x y 2).
Proof.
  unfold get_float3, pixel_channel, getPixelRef. rewrite Z.add_0_r. reflexivity.
Qed.

Section RGBMPacker.

Variable sample : Type.
Variable T_max : Z.
Variable T_cast : float32 -> sample.
Variable sizeof_T : Z.

Lemma fromLinearToRGBM_cells (image : LinearImage) :
  image_wf image ->
  3 <= getChannels image ->
  exists buf,
    fromLinearToRGBM sample T_max T_cast sizeof_T image = Returned buf /\
    byte_size buf = getWidth image * getHeight image * 4 * sizeof_T /\
    Z.of_nat (length (cells buf)) = getWidth image * getHeight image * 4 /\
    forall x y i,
      0 <= x < getWidth image -> 0 <= y < getHeight image -> 0 <= i < 4 ->
      cells buf !! Z.to_nat ((y * getWidth image + x) * 4 + i) =
        Some (Some (T_cast
          (fmul (get4 (linearToRGBM
                         (Float3 (pixel_channel image x y 0)
                                 (pixel_channel image x y 1)
                                 (pixel_channel image x y 2)))
                      (Z.to_nat i))
                (of_Z T_max)))).
Proof.
  intros (Hw & Hh & _ & _) Hc. unfold fromLinearToRGBM.
  replace (negb (3 <=? getChannels image)) with false
    by (symmetry; apply negb_false_iff, Z.leb_le, Hc).
  set (W := Z.to_nat (getWidth image)). set (H := Z.to_nat (getHeight image)).
  destruct (pack_loop 4 W H
    (fun x y i => T_cast (get4 (vmul4
       (linearToRGBM (get_float3 image (uint32 (Z.of_nat x)) (uint32 (Z.of_nat y))))
       (of_Z T_max)) i))
    (replicate (Z.to_nat (getWidth image * getHeight image * 4)) None))
    as (dst & Heq & Hl & Hcell).
  { rewrite length_replicate. subst W H. lia. }
  match goal with
  | |- context [for_range 0 H ?b ?s] =>
      replace (for_range 0 H b s) with (dst, (H * W * 4)%nat)
        by (symmetry; exact Heq)
  end.
  eexists. split; [reflexivity|]. cbn [byte_size cells].
  split; [reflexivity|]. split; [rewrite Hl; subst W H; lia|].
  intros x y i Hx Hy Hi.
  replace (Z.to_nat ((y * getWidth image + x) * 4 + i))
    with ((Z.to_nat y * W + Z.to_nat x) * 4 + Z.to_nat i)%nat
    by (subst W; lia).
  rewrite Hcell by (subst W H; lia).
  rewrite !Z2Nat.id by lia.
  rewrite !uint32_small by lia.
  unfold vmul4. rewrite get4_map4, get_float3_channels. reflexivity.
Qed.

(** X3: [fromLinearToRGBM<T>] stops at its assertion on an image of fewer
    than three channels.  On an image of three channels or more it returns
    width * height * 4 cells of type [T], that is width * height * 4 *
    sizeof(T) bytes without padding; the four samples of pixel (x, y)
    start at cell (y*width + x)*4 and are the four components of
    [linearToRGBM] of the first three channels of the pixel, each scaled by
    the maximum of [T] and converted to [T]. *)
Theorem fromLinearToRGBM_layout (image : LinearImage) :
  image_wf image ->
  (getChannels image < 3 ->
     fromLinearToRGBM sample T_max T_cast sizeof_T image = AssertionFailed) /\
  (3 <= getChannels image ->
     exists buf,
       fromLinearToRGBM sample T_max T_cast sizeof_T image = Returned buf /\
       byte_size buf = getWidth image * getHeight image * 4 * sizeof_T /\
       Z.of_nat (length (cells buf)) = getWidth image * getHeight image * 4 /\
       forall x y i,
         0 <= x < getWidth image -> 0 <= y < getHeight image -> 0 <= i < 4 ->
         cells buf !! Z.to_nat ((y * getWidth image + x) * 4 + i) =
           Some (Some (T_cast
             (fmul (get4 (linearToRGBM
                            (Float3 (pixel_channel image x y 0)
                                    (pixel_channel image x y 1)
                                    (pixel_channel image x y 2)))
                         (Z.to_nat i))
                   (of_Z T_max))))).
Proof.
  intros Hwf. split.
  - intros Hc. unfold fromLinearToRGBM.
    replace (3 <=? getChannels image) with false
      by (symmetry; apply Z.leb_gt, Hc).
    reflexivity.
  - intros Hc. apply fromLinearToRGBM_cells; assumption.
Qed.

End RGBMPacker.

(** The multiplier [k/255] scaled by 255 converts to the byte [k]. *)
Lemma uint_cast_step (k : Z) :
  16 <= k <= 255 ->
  uint_cast 8 (fmul (fdiv (of_Z k) (of_Z 255)) (of_Z 255)) = Some k.
Proof.
  intros Hk.
  assert (H : List.forallb
    (fun n => match uint_cast 8 (fmul (fdiv (of_Z (Z.of_nat n)) (of_Z 255))
                                      (of_Z 255)) with
              | Some t => t =? Z.of_nat n
              | None => false
              end)
    (List.seq 16 240) = true) by (vm_compute; reflexivity).
  rewrite List.forallb_forall in H.
  specialize (H (Z.to_nat k)). rewrite Z2Nat.id in H by lia.
  specialize (H ltac:(apply List.in_seq; lia)).
  destruct (uint_cast 8 _) as [t|]; [|discriminate].
  apply Z.eqb_eq in H. congruence.
Qed.

(** X4: with [T = uint8_t], on an image of three channels or more whose
    first three channels are nowhere negative or NaN, every conversion to
    [T] in [fromLinearToRGBM] is in range: the three mantissa bytes of a
    pixel are between 0 and 255, and the fourth byte is the integer [k]
    between 16 and 255 for which the multiplier of the pixel is [k/255]; it
    is never 0.  (A negative or NaN channel is left out: its square root is
    a NaN, and what becomes of a NaN is decided in [math::clamp].) *)
Theorem fromLinearToRGBM_uint8 (image : LinearImage) :
  image_wf image ->
  3 <= getChannels image ->
  (forall x y c,
     0 <= x < getWidth image -> 0 <= y < getHeight image -> 0 <= c < 3 ->
     fle (of_Z 0) (pixel_channel image x y c) = true) ->
  exists buf,
    fromLinearToRGBM (option Z) (uint_max 8) (uint_cast 8) 1 image = Returned buf /\
    forall x y,
      0 <= x < getWidth image -> 0 <= y < getHeight image ->
      (forall i, 0 <= i < 3 ->
         exists n,
           cells buf !! Z.to_nat ((y * getWidth image + x) * 4 + i) =
             Some (Some (Some n)) /\
           0 <= n <= 255) /\
      (exists k,
         cells buf !! Z.to_nat ((y * getWidth image + x) * 4 + 3) =
           Some (Some (Some k)) /\
         16 <= k <= 255 /\
         is_step (a4 (linearToRGBM
                        (Float3 (pixel_channel image x y 0)
                                (pixel_channel image x y 1)
                                (pixel_channel image x y 2)))) k).
Proof.
  intros Hwf Hc _.
  destruct (fromLinearToRGBM_cells (option Z) (uint_max 8) (uint_cast 8) 1
              image Hwf Hc) as (buf & Heq & _ & _ & Hcell).
  exists buf. split; [exact Heq|]. intros x y Hx Hy.
  set (v := Float3 (pixel_channel image x y 0) (pixel_channel image x y 1)
                   (pixel_channel image x y 2)) in *.
  split.
  - intros i Hi. rewrite (Hcell x y i Hx Hy ltac:(lia)). fold v.
    rewrite linearToRGBM_unfold.
    assert (Hsat : exists q, get4 (rgbm_encode_steps v) (Z.to_nat i) = saturate q /\
                             valid q = true).
    { unfold rgbm_encode_steps.
      destruct (Z.to_nat i) as [|[|[|n]]] eqn:Ei; try lia; cbn [get4 r4 g4 b4];
        eexists; (split; [reflexivity | apply fdiv_valid]). }
    destruct Hsat as (q & -> & Hq).
    destruct (uint_cast_saturate 8 q ltac:(lia) Hq) as (n & Hn & Hr & _).
    exists n. rewrite Hn. split; [reflexivity | exact Hr].
  - destruct (clamped_max_step v) as (k & Hk & Hceil & _).
    exists k. rewrite (Hcell x y 3 Hx Hy ltac:(lia)). fold v.
    change (get4 (linearToRGBM v) (Z.to_nat 3)) with (a4 (linearToRGBM v)).
    rewrite linearToRGBM_multiplier, Hceil.
    change (of_Z (uint_max 8)) with (of_Z 255).
    rewrite (uint_cast_step k Hk).
    split; [reflexivity|]. split; [exact Hk | reflexivity].
Qed.
(** * The unpackers *)

(** The loops of [toLinearFromRGBM]: one counter for the source and the
    destination, which runs on from row to row. *)
Lemma decode_loop (w h : nat) (val : nat -> float3) (data0 : list float32) :
  length data0 = (3 * (h * w))%nat ->
  exists data,
    for_range 0 h
      (fun row st =>
         for_range 0 w
           (fun col '(data, k) => (store_float3 data k (val k), Datatypes.S k))
           st)
      (data0, O) = (data, (h * w)%nat) /\
    length data = (3 * (h * w))%nat /\
    forall n c, (n < h * w)%nat -> (c < 3)%nat ->
      data !! (3 * n + c)%nat = Some (get3 (val n) c).
Proof.
  intros Hlen.
  pose (Q := fun (y : nat) (st : list float32 * nat) =>
    exists data, st = (data, (y * w)%nat) /\ length data = (3 * (h * w))%nat /\
      forall n c, (n < y * w)%nat -> (c < 3)%nat ->
        data !! (3 * n + c)%nat = Some (get3 (val n) c)).
  match goal with |- exists _, ?loop = _ /\ _ => assert (H : Q (0 + h)%nat loop) end.
  { apply for_range_inv.
    - exists data0. repeat split; [assumption | intros; lia].
    - intros y st Hy (data & -> & Hl & Hw).
      pose (P := fun (x : nat) (st : list float32 * nat) =>
        exists data, st = (data, (y * w + x)%nat) /\
          length data = (3 * (h * w))%nat /\
          forall n c, (n < y * w + x)%nat -> (c < 3)%nat ->
            data !! (3 * n + c)%nat = Some (get3 (val n) c)).
      match goal with |- Q _ ?loop => assert (H : P (0 + w)%nat loop) end.
      { apply for_range_inv.
        - exists data. split; [|split]; [f_equal; lia | assumption |].
          intros n c Hn Hc. apply Hw; [lia | assumption].
        - intros x st Hx (data1 & -> & Hl1 & Hw1).
          destruct (store_float3_spec data1 (y * w + x) (val (y * w + x)%nat))
            as (Hl2 & Hnew & Hold).
          { rewrite Hl1. pose proof (pixel_bound w h 1 x y). lia. }
          eexists. split; [|split].
          + apply f_equal2; [reflexivity | lia].
          + rewrite Hl2. exact Hl1.
          + intros n c Hn Hc.
            destruct (decide (n = y * w + x)%nat) as [->|Hne].
            * apply Hnew. exact Hc.
            * rewrite Hold by lia. apply Hw1; [lia | assumption]. }
      destruct H as (data2 & -> & Hl2 & Hw2).
      exists data2. split; [|split]; [f_equal; lia | assumption |].
      intros n c Hn Hc. apply Hw2; [lia | assumption]. }
  destruct H as (data & -> & Hl & Hw).
  exists data. repeat split; [assumption | apply Hw].
Qed.

(** X5: for a width and a height of type [uint32_t], [toLinearFromRGBM]
    returns an image of that width and height with three channels and
    width * height * 3 floats, whose pixel (x, y) is [RGBMtoLinear] of
    element y*width + x of the source array: the source is read as a
    tightly packed array, row after row. *)
Theorem toLinearFromRGBM_pixels (src : list float4) (w h : Z) :
  0 <= w < 2 ^ 32 -> 0 <= h < 2 ^ 32 ->
  getWidth (toLinearFromRGBM src w h) = w /\
  getHeight (toLinearFromRGBM src w h) = h /\
  getChannels (toLinearFromRGBM src w h) = 3 /\
  Z.of_nat (length (getData (toLinearFromRGBM src w h))) = w * h * 3 /\
  forall x y rgbm,
    0 <= x < w -> 0 <= y < h ->
    src !! Z.to_nat (y * w + x) = Some rgbm ->
    get_float3 (toLinearFromRGBM src w h) x y = RGBMtoLinear rgbm.
Proof.
  intros Hw Hh. unfold toLinearFromRGBM.
  cbn [new_LinearImage getWidth getHeight getChannels getData].
  destruct (decode_loop (Z.to_nat w) (Z.to_nat h)
    (fun k => RGBMtoLinear
       (default (Float4 S754_nan S754_nan S754_nan S754_nan) (src !! k)))
    (replicate (Z.to_nat (w * h * 3)) (S754_zero false)))
    as (data & Heq & Hl & Hcell).
  { rewrite length_replicate. lia. }
  match goal with
  | |- context [for_range 0 (Z.to_nat h) ?b ?s] =>
      replace (for_range 0 (Z.to_nat h) b s)
        with (data, (Z.to_nat h * Z.to_nat w)%nat)
        by (symmetry; exact Heq)
  end.
  cbn [getWidth getHeight getChannels getData].
  split; [reflexivity|]. split; [reflexivity|]. split; [reflexivity|].
  split; [rewrite Hl; lia|].
  intros x y rgbm Hx Hy Hsrc.
  unfold get_float3, getPixelRef, load.
  cbn [getWidth getHeight getChannels getData].
  assert (Hn : (Z.to_nat (y * w + x) < Z.to_nat h * Z.to_nat w)%nat) by nia.
  pose proof (Hcell (Z.to_nat (y * w + x))) as Hc.
  replace (Z.to_nat ((y * w + x) * 3))
    with (3 * Z.to_nat (y * w + x) + 0)%nat by lia.
  replace (Z.to_nat ((y * w + x) * 3 + 1))
    with (3 * Z.to_nat (y * w + x) + 1)%nat by lia.
  replace (Z.to_nat ((y * w + x) * 3 + 2))
    with (3 * Z.to_nat (y * w + x) + 2)%nat by lia.
  rewrite !Hc by (assumption || lia). rewrite Hsrc.
  cbn [default from_option id get3].
  destruct (RGBMtoLinear rgbm); reflexivity.
Qed.

Lemma store_float4_spec (data : list float32) (d : nat) (v : float4) :
  (4 * d + 4 <= length data)%nat ->
  length (store_float4 data d v) = length data /\
  (forall c, (c < 4)%nat -> store_float4 data d v !! (4 * d + c)%nat = Some (get4 v c)) /\
  (forall j, (j < 4 * d)%nat -> store_float4 data d v !! j = data !! j).
Proof.
  intros Hlen. unfold store_float4. repeat split.
  - rewrite !length_insert. reflexivity.
  - intros c Hc. destruct c as [|[|[|[|c]]]]; try lia; cbn [get4].
    + rewrite !list_lookup_insert_ne by lia. rewrite Nat.add_0_r.
      apply list_lookup_insert_eq. lia.
    + rewrite !list_lookup_insert_ne by lia.
      apply list_lookup_insert_eq. rewrite length_insert. lia.
    + rewrite list_lookup_insert_ne by lia.
      apply list_lookup_insert_eq. rewrite !length_insert. lia.
    + apply list_lookup_insert_eq. rewrite !length_insert. lia.
  - intros j Hj. rewrite !list_lookup_insert_ne by lia. reflexivity.
Qed.

(** The loops of [toLinearWithAlpha]: as those of [toLinear], with four
    floats stored a pixel. *)
Lemma unpack_loop4 (w h : nat) (val : Z -> float4) (base : nat -> Z) (step : Z)
    (data0 : list float32) :
  length data0 = (4 * (h * w))%nat ->
  exists data,
    for_range 0 h
      (fun y '(data, d) =>
         let p := base y in
         let '(data, d, _) :=
           for_range 0 w
             (fun x '(data, d, p) =>
                (store_float4 data d (val p), Datatypes.S d, p + step))
             (data, d, p) in
         (data, d))
      (data0, O) = (data, (h * w)%nat) /\
    length data = (4 * (h * w))%nat /\
    forall x y c, (x < w)%nat -> (y < h)%nat -> (c < 4)%nat ->
      data !! (4 * (y * w + x) + c)%nat =
        Some (get4 (val (base y + Z.of_nat x * step)) c).
Proof.
  intros Hlen.
  pose (Q := fun (y : nat) (st : list float32 * nat) =>
    exists data, st = (data, (y * w)%nat) /\ length data = (4 * (h * w))%nat /\
      forall x' y' c, (x' < w)%nat -> (y' < y)%nat -> (c < 4)%nat ->
        data !! (4 * (y' * w + x') + c)%nat =
          Some (get4 (val (base y' + Z.of_nat x' * step)) c)).
  match goal with |- exists _, ?loop = _ /\ _ => assert (H : Q (0 + h)%nat loop) end.
  { apply for_range_inv.
    - exists data0. repeat split; [assumption | intros; lia].
    - intros y st Hy (data & -> & Hl & Hw).
      pose (P := fun (x : nat) (st : list float32 * nat * Z) =>
        exists data, st = (data, (y * w + x)%nat, base y + Z.of_nat x * step) /\
          length data = (4 * (h * w))%nat /\
          forall x' y' c, (x' < w)%nat -> (c < 4)%nat ->
            (y' < y \/ (y' = y /\ x' < x))%nat ->
            data !! (4 * (y' * w + x') + c)%nat =
              Some (get4 (val (base y' + Z.of_nat x' * step)) c)).
      cbv zeta.
      match goal with |- context [for_range 0 w ?b ?s] =>
        assert (H : P (0 + w)%nat (for_range 0 w b s)) end.
      { apply for_range_inv.
        - exists data. split; [|split];
            [apply f_equal2; [apply f_equal2; [reflexivity | lia] | lia] | assumption |].
          intros x' y' c Hx' Hc [Hy'|[_ Hx]]; [apply Hw; assumption | lia].
        - intros x st Hx (data1 & -> & Hl1 & Hw1).
          destruct (store_float4_spec data1 (y * w + x)
                      (val (base y + Z.of_nat x * step)))
            as (Hl2 & Hnew & Hold).
          { rewrite Hl1. pose proof (pixel_bound w h 1 x y). lia. }
          eexists. split; [|split].
          + apply f_equal2; [apply f_equal2; [reflexivity | lia] | lia].
          + rewrite Hl2. exact Hl1.
          + intros x' y' c Hx' Hc Hcase.
            destruct (decide (y' = y /\ x' = x)) as [[-> ->]|Hne].
            * apply Hnew. exact Hc.
            * rewrite Hold.
              -- apply Hw1; [assumption | assumption | lia].
              -- pose proof (row_index_lt w x y y' x'). lia. }
      destruct H as (data2 & -> & Hl2 & Hw2).
      exists data2. split; [|split]; [f_equal; lia | assumption |].
      intros x' y' c Hx' Hy' Hc. apply Hw2; [assumption | assumption | lia]. }
  destruct H as (data & -> & Hl & Hw).
  exists data. repeat split; [assumption | apply Hw].
Qed.

Section AlphaUnpacker.

Variable sample : Type.
Variable T_max : Z.
Variable sizeof_T : Z.
Variable T_of_bytes : list Z -> sample.

(** X6: for a width [w] and a height [h] below 2^32, [toLinearWithAlpha<T>]
    returns a w x h image of four channels and w * h * 4 floats whose pixel
    (x, y) is [transform] applied to (proc(p[0]), proc(p[1]), proc(p[2]),
    proc(p[3])) divided by the maximum of [T], where [p] is at byte offset
    y*bpr + x*4*sizeof(T) of the source: the alpha sample goes through
    [proc] and the division as the colour samples do. *)
Theorem toLinearWithAlpha_pixels (w h bpr : Z) (src : Z -> Z)
    (proc : sample -> float32) (transform : float4 -> float4) :
  0 <= w < 2 ^ 32 -> 0 <= h < 2 ^ 32 ->
  getWidth (toLinearWithAlpha sample T_max sizeof_T T_of_bytes
              w h bpr src proc transform) = w /\
  getHeight (toLinearWithAlpha sample T_max sizeof_T T_of_bytes
               w h bpr src proc transform) = h /\
  getChannels (toLinearWithAlpha sample T_max sizeof_T T_of_bytes
                 w h bpr src proc transform) = 4 /\
  Z.of_nat (length (getData (toLinearWithAlpha sample T_max sizeof_T T_of_bytes
                               w h bpr src proc transform))) = w * h * 4 /\
  forall x y, 0 <= x < w -> 0 <= y < h ->
    get_float4 (toLinearWithAlpha sample T_max sizeof_T T_of_bytes
                  w h bpr src proc transform) x y =
      transform
        (vdiv4
           (Float4
              (proc (load_T sample sizeof_T T_of_bytes src
                       (y * bpr + x * (4 * sizeof_T)) 0))
              (proc (load_T sample sizeof_T T_of_bytes src
                       (y * bpr + x * (4 * sizeof_T)) 1))
              (proc (load_T sample sizeof_T T_of_bytes src
                       (y * bpr + x * (4 * sizeof_T)) 2))
              (proc (load_T sample sizeof_T T_of_bytes src
                       (y * bpr + x * (4 * sizeof_T)) 3)))
           (of_Z T_max)).
Proof.
  intros Hw Hh. unfold toLinearWithAlpha.
  rewrite !uint32_small by assumption.
  cbn [new_LinearImage getWidth getHeight getChannels getData].
  destruct (unpack_loop4 (Z.to_nat w) (Z.to_nat h)
    (fun p => transform
       (vdiv4 (Float4 (proc (load_T sample sizeof_T T_of_bytes src p 0))
                      (proc (load_T sample sizeof_T T_of_bytes src p 1))
                      (proc (load_T sample sizeof_T T_of_bytes src p 2))
                      (proc (load_T sample sizeof_T T_of_bytes src p 3)))
              (of_Z T_max)))
    (fun y => Z.of_nat y * bpr) (4 * sizeof_T)
    (replicate (Z.to_nat (w * h * 4)) (S754_zero false)))
    as (data & Heq & Hl & Hcell).
  { rewrite length_replicate. lia. }
  match goal with
  | |- context [for_range 0 (Z.to_nat h) ?b ?s] =>
      replace (for_range 0 (Z.to_nat h) b s)
        with (data, (Z.to_nat h * Z.to_nat w)%nat)
        by (symmetry; exact Heq)
  end.
  cbn [fst getWidth getHeight getChannels getData].
  split; [reflexivity|]. split; [reflexivity|]. split; [reflexivity|].
  split; [rewrite Hl; lia|].
  intros x y Hx Hy. unfold get_float4, getPixelRef, load.
  cbn [getWidth getHeight getChannels getData].
  pose proof (Hcell (Z.to_nat x) (Z.to_nat y)) as Hc.
  rewrite !Z2Nat.id in Hc by lia.
  replace (Z.to_nat ((y * w + x) * 4))
    with (4 * (Z.to_nat y * Z.to_nat w + Z.to_nat x) + 0)%nat by lia.
  replace (Z.to_nat ((y * w + x) * 4 + 1))
    with (4 * (Z.to_nat y * Z.to_nat w + Z.to_nat x) + 1)%nat by lia.
  replace (Z.to_nat ((y * w + x) * 4 + 2))
    with (4 * (Z.to_nat y * Z.to_nat w + Z.to_nat x) + 2)%nat by lia.
  replace (Z.to_nat ((y * w + x) * 4 + 3))
    with (4 * (Z.to_nat y * Z.to_nat w + Z.to_nat x) + 3)%nat by lia.
  rewrite !Hc by lia. cbn [default from_option id get4].
  destruct (transform _); reflexivity.
Qed.

Lemma toLinear_no_pixels (w h bpr : Z) (src : Z -> Z)
    (proc : sample -> float32) (transform : float3 -> float3) :
  0 <= w < 2 ^ 32 -> 0 <= h < 2 ^ 32 -> w = 0 \/ h = 0 ->
  toLinear sample T_max sizeof_T T_of_bytes w h bpr src proc transform =
    MkLinearImage w h 3 [].
Proof.
  intros Hw Hh Hzero.
  destruct (toLinear_data sample T_max sizeof_T T_of_bytes w h bpr src proc
              transform Hw Hh) as (data & -> & Hl & _).
  f_equal. apply length_zero_iff_nil. rewrite Hl. destruct Hzero; subst; lia.
Qed.

(** X7: with a width or a height of zero [toLinear<T>] returns the image of
    that width and height with three channels and no float, and the result
    is the same whatever the stride, the source blob, [proc] and
    [transform] are. *)
Theorem toLinear_empty (w h bpr : Z) (src : Z -> Z)
    (proc : sample -> float32) (transform : float3 -> float3) :
  0 <= w < 2 ^ 32 -> 0 <= h < 2 ^ 32 -> w = 0 \/ h = 0 ->
  toLinear sample T_max sizeof_T T_of_bytes w h bpr src proc transform =
    MkLinearImage w h 3 [] /\
  forall (bpr' : Z) (src' : Z -> Z) (proc' : sample -> float32)
         (transform' : float3 -> float3),
    toLinear sample T_max sizeof_T T_of_bytes w h bpr' src' proc' transform' =
    toLinear sample T_max sizeof_T T_of_bytes w h bpr src proc transform.
Proof.
  intros Hw Hh Hzero. split.
  - apply toLinear_no_pixels; assumption.
  - intros bpr' src' proc' transform'.
    rewrite !toLinear_no_pixels by assumption. reflexivity.
Qed.

End AlphaUnpacker.
(** * The RGBM decoder *)

Lemma fmul_finite_spec (sx sy : bool) (mx my : positive) (ex ey : Z) :
  valid (S754_finite sx mx ex) = true ->
  valid (S754_finite sy my ey) = true ->
  exists m2 E,
    fmul (S754_finite sx mx ex) (S754_finite sy my ey) = mk_float (xorb sx sy) m2 E /\
    valid (fmul (S754_finite sx mx ex) (S754_finite sy my ey)) = true.
Proof.
  intros Hx Hy.
  assert (Hx' : valid (S754_finite false mx ex) = true) by exact Hx.
  assert (Hy' : valid (S754_finite false my ey) = true) by exact Hy.
  destruct (fmul_pos_spec mx my ex ey Hx' Hy') as (Hpre & _).
  destruct (round_aux_spec (xorb sx sy) (Zpos mx * Zpos my) (ex + ey) loc_Exact
              ltac:(lia) Hpre) as (m2 & _ & Heq & _).
  exists m2, (fexp32 (digits (Zpos mx * Zpos my) + (ex + ey))).
  split.
  - unfold fmul. cbn [SFmul]. exact Heq.
  - unfold fmul. cbn [SFmul]. apply round_aux_valid; [lia | exact Hpre].
Qed.

Lemma fmul_valid (x y : float32) :
  valid x = true -> valid y = true -> valid (fmul x y) = true.
Proof.
  intros Hx Hy.
  destruct x as [sx|sx| |sx mx ex], y as [sy|sy| |sy my ey];
    try reflexivity;
    try (destruct sx, sy; reflexivity).
  destruct (fmul_finite_spec sx sy mx my ex ey Hx Hy) as (_ & _ & _ & H). exact H.
Qed.

Lemma sign_bit_mk_float (m2 E : Z) : sign_bit (mk_float false m2 E) = false.
Proof.
  unfold mk_float. destruct m2 as [|p|p]; try reflexivity.
  destruct (Z.pos p =? 16777216).
  - destruct (E + 1 <=? 104); reflexivity.
  - destruct (E <=? 104); reflexivity.
Qed.

(** A square has no sign. *)
Lemma fmul_square_sign (x : float32) :
  valid x = true -> sign_bit (fmul x x) = false.
Proof.
  intros Hx. destruct x as [s|s| |s m e]; try (destruct s; reflexivity);
    try reflexivity.
  destruct (fmul_finite_spec s s m m e e Hx Hx) as (m2 & E & -> & _).
  replace (xorb s s) with false by (destruct s; reflexivity).
  apply sign_bit_mk_float.
Qed.

Lemma sign_bit_not_below_zero (x : float32) :
  sign_bit x = false -> flt x (of_Z 0) = false.
Proof. destruct x as [s|s| |s m e]; cbn [sign_bit]; intros H; subst; reflexivity. Qed.

(** X8: [RGBMtoLinear] never returns a negative component.  Whatever the
    four floats of the RGBM pixel are (negative, infinite or NaN included),
    each component of the result, a square, has a clear sign bit: it is
    +0, a positive number, +infinity or NaN, and [c < 0] is false. *)
Theorem RGBMtoLinear_never_negative (rgbm : float4) :
  valid (r4 rgbm) = true -> valid (g4 rgbm) = true ->
  valid (b4 rgbm) = true -> valid (a4 rgbm) = true ->
  (sign_bit (r3 (RGBMtoLinear rgbm)) = false /\
   flt (r3 (RGBMtoLinear rgbm)) (of_Z 0) = false) /\
  (sign_bit (g3 (RGBMtoLinear rgbm)) = false /\
   flt (g3 (RGBMtoLinear rgbm)) (of_Z 0) = false) /\
  (sign_bit (b3 (RGBMtoLinear rgbm)) = false /\
   flt (b3 (RGBMtoLinear rgbm)) (of_Z 0) = false).
Proof.
  intros Hr Hg Hb Ha. destruct rgbm as [r g b a].
  cbn [r4 g4 b4 a4] in *.
  unfold RGBMtoLinear, vmul3v, vmul3, map3.
  cbn [get4 r4 g4 b4 a4 r3 g3 b3].
  assert (HA : valid (fmul a (of_Z 16)) = true)
    by (apply fmul_valid; [exact Ha | reflexivity]).
  assert (Hsq : forall c, valid c = true ->
    sign_bit (fmul (fmul c (fmul a (of_Z 16))) (fmul c (fmul a (of_Z 16)))) = false /\
    flt (fmul (fmul c (fmul a (of_Z 16))) (fmul c (fmul a (of_Z 16)))) (of_Z 0) = false).
  { intros c Hc.
    assert (Hs := fmul_square_sign _ (fmul_valid c _ Hc HA)).
    split; [exact Hs | apply sign_bit_not_below_zero, Hs]. }
  split; [|split]; apply Hsq; assumption.
Qed.
(** * The RGBM round trip up to 256

    The encoder divides the square root by 16, so that the encoded
    component reaches 1, the largest multiplier, at the square of 16.  The
    lemmas of the round trip on [0, 16] are taken up again with that bound. *)

Lemma encoded_component_wide (m : positive) (e : Z) :
  valid (S754_finite false m e) = true ->
  (to_Q (S754_finite false m e) <= 256)%Q ->
  exists (pr : positive) (er : Z),
    fdiv (fsqrt (S754_finite false m e)) (of_Z 16) = S754_finite false pr er /\
    valid (S754_finite false pr er) = true /\
    (bpow (-80) <= to_Q (S754_finite false pr er))%Q /\
    (to_Q (S754_finite false pr er) <= one_ulp * one_ulp)%Q /\
    near (one_ulp * one_ulp * (one_ulp * one_ulp))
      (to_Q (S754_finite false m e))
      ((to_Q (S754_finite false pr er) * 16) * (to_Q (S754_finite false pr er) * 16)).
Proof.
  intros Hv H256.
  pose proof (to_Q_lower m e Hv) as Hlow.
  destruct (fsqrt_near m e Hv) as (ps & Es & Hs & Hvs & Hns).
  rewrite Hs.
  set (x := to_Q (S754_finite false m e)) in *.
  pose proof (to_Q_pos ps Es) as Hsp.
  set (s := to_Q (S754_finite false ps Es)) in *.
  destruct one_ulp_bounds as (Hu1 & Hu2).
  set (u := one_ulp) in *.
  destruct Hns as (Hn1 & Hn2).
  (* bounds on the root *)
  assert (Hs16 : (s <= 16 * u)%Q).
  { destruct (Qlt_le_dec (16 * u) s) as [Hc|Hc]; [|exact Hc]. exfalso.
    assert (H1 : (x * (u * u) <= 256 * (u * u))%Q) by nra.
    assert (H2 : (16 * u * (16 * u) < s * s)%Q) by nra.
    assert (E : (16 * u * (16 * u) == 256 * (u * u))%Q) by ring.
    rewrite E in H2. lra. }
  assert (Hs75 : (bpow (-75) <= s)%Q).
  { destruct (Qlt_le_dec s (bpow (-75))) as [Hc|Hc]; [|exact Hc]. exfalso.
    pose proof (bpow_sq (-75)) as Hsq. change (2 * -75) with (-150) in Hsq.
    pose proof (bpow_double (-150)) as Hd. change (-150 + 1) with (-149) in Hd.
    pose proof (bpow_pos (-75)). pose proof (bpow_pos (-150)).
    assert (s * s <= bpow (-150))%Q by nra.
    assert (s * s * (u * u) <= bpow (-150) * 2)%Q by nra.
    assert (0 < s * s)%Q by nra. nra. }
  assert (H16Q : (to_Q (S754_finite false 8388608 (-19)) == 16)%Q) by reflexivity.
  change (of_Z 16) with (S754_finite false 8388608 (-19)).
  destruct (fdiv_near ps 8388608 Es (-19) Hvs eq_refl) as (pr & er & Hr & Hvr & Hnr).
  { rewrite H16Q. apply Qle_shift_div_l; [reflexivity|].
    assert (Hb : (bpow (-126) * 16 == bpow (-122))%Q).
    { rewrite (bpow_split (-122) (-126)) by lia. change (inject_Z (2 ^ (-122 - -126))) with 16%Q. ring. }
    rewrite Hb. fold s. eapply Qle_trans; [apply (bpow_le (-122) (-75)); lia | exact Hs75]. }
  { rewrite H16Q. apply Qle_shift_div_r; [reflexivity|]. fold s.
    pose proof (bpow_le 1 126 ltac:(lia)) as Hb. change (bpow 1) with 2%Q in Hb. nra. }
  exists pr, er. split; [exact Hr|]. split; [exact Hvr|].
  unfold near in Hnr. rewrite H16Q in Hnr. fold s in Hnr. fold u in Hnr.
  pose proof (to_Q_pos pr er) as Hrp.
  set (r := to_Q (S754_finite false pr er)) in *.
  destruct Hnr as (Hr1 & Hr2).
  assert (Hsh : (s == s / 16 * 16)%Q) by field.
  set (h := (s / 16)%Q) in *.
  assert (Hr1' : (s <= r * 16 * u)%Q) by (rewrite Hsh; nra).
  assert (Hr2' : (r * 16 <= s * u)%Q) by (rewrite Hsh; nra).
  split.
  { pose proof (bpow_pos (-80)).
    assert (Hb : (bpow (-75) == 32 * bpow (-80))%Q).
    { rewrite (bpow_split (-75) (-80)) by lia. reflexivity. }
    assert (u <= 2)%Q by nra. nra. }
  split.
  { assert (H1 : (r * 16 <= 16 * u * u)%Q) by nra. lra. }
  apply (near_trans (u * u) (u * u) x (s * s)); try nra.
  - split; assumption.
  - apply near_mul; try nra; split; assumption.
Qed.


Lemma multiplier_bounds_wide (v : float3) :
  nonneg (fdiv (fsqrt (r3 v)) (of_Z 16)) ->
  nonneg (fdiv (fsqrt (g3 v)) (of_Z 16)) ->
  nonneg (fdiv (fsqrt (b3 v)) (of_Z 16)) ->
  (to_Q (fdiv (fsqrt (r3 v)) (of_Z 16)) <= one_ulp * one_ulp)%Q ->
  (to_Q (fdiv (fsqrt (g3 v)) (of_Z 16)) <= one_ulp * one_ulp)%Q ->
  (to_Q (fdiv (fsqrt (b3 v)) (of_Z 16)) <= one_ulp * one_ulp)%Q ->
  exists (pm : positive) (em : Z) (pa : positive) (ea : Z),
    a4 (linearToRGBM v) = S754_finite false pm em /\
    valid (S754_finite false pm em) = true /\
    fmul (S754_finite false pm em) (of_Z 16) = S754_finite false pa ea /\
    valid (S754_finite false pa ea) = true /\
    (to_Q (S754_finite false pa ea) == 16 * to_Q (S754_finite false pm em))%Q /\
    (1 # 16 <= to_Q (S754_finite false pm em))%Q /\
    (to_Q (S754_finite false pm em) <= 1)%Q /\
    (to_Q (fdiv (fsqrt (r3 v)) (of_Z 16))
       <= to_Q (S754_finite false pm em) * (one_ulp * one_ulp))%Q /\
    (to_Q (fdiv (fsqrt (g3 v)) (of_Z 16))
       <= to_Q (S754_finite false pm em) * (one_ulp * one_ulp))%Q /\
    (to_Q (fdiv (fsqrt (b3 v)) (of_Z 16))
       <= to_Q (S754_finite false pm em) * (one_ulp * one_ulp))%Q.
Proof.
  intros N0 N1 N2 B0 B1 B2.
  set (r0 := fdiv (fsqrt (r3 v)) (of_Z 16)) in *.
  set (r1 := fdiv (fsqrt (g3 v)) (of_Z 16)) in *.
  set (r2 := fdiv (fsqrt (b3 v)) (of_Z 16)) in *.
  destruct (clamped_max_step v) as (k & Hk & Hceil & Hle).
  pose proof (linearToRGBM_multiplier v) as HM. rewrite Hceil in HM.
  pose proof (clamped_max_valid v) as Hcv.
  (* the clamped maximum dominates the components *)
  assert (Hc : nonneg (clamped_max v) /\
               (1 # 16 <= to_Q (clamped_max v))%Q /\ (to_Q (clamped_max v) <= 1)%Q /\
               ((to_Q (clamped_max v) == 1)%Q \/
                ((to_Q r0 <= to_Q (clamped_max v))%Q /\
                 (to_Q r1 <= to_Q (clamped_max v))%Q /\
                 (to_Q r2 <= to_Q (clamped_max v))%Q))).
  { unfold clamped_max, clamp, max4. cbn [fold_left]. fold r0 r1 r2.
    assert (Ne : nonneg (lit 1 1000000)) by reflexivity.
    destruct (std_max_nonneg r0 r1 N0 N1) as (Na & Ha0 & Ha1).
    destruct (std_max_nonneg _ r2 Na N2) as (Nb & Hb0 & Hb1).
    destruct (std_max_nonneg _ _ Nb Ne) as (Nm & Hm0 & _).
    set (maxc := std_max (std_max (std_max r0 r1) r2) (lit 1 1000000)) in *.
    assert (Nlo : nonneg (fdiv (of_Z 1) (of_Z 16))) by reflexivity.
    assert (Nhi : nonneg (of_Z 1)) by reflexivity.
    destruct (std_max_nonneg _ maxc Nlo Nm) as (Nx & Hx0 & Hx1).
    destruct (std_min_nonneg (of_Z 1) _ Nhi Nx) as (Nc & Hcase & Hc1 & Hc2).
    assert (Hone : (to_Q (of_Z 1) == 1)%Q) by (vm_compute; reflexivity).
    assert (Hlo16 : (to_Q (fdiv (of_Z 1) (of_Z 16)) == 1 # 16)%Q)
      by (vm_compute; reflexivity).
    rewrite Hone in Hcase, Hc1. rewrite Hlo16 in Hx0.
    split; [exact Nc|].
    destruct Hcase as [He|He]; rewrite He.
    - split; [lra|]. split; [lra|]. left. reflexivity.
    - split; [lra|]. split; [lra|]. right. repeat split; lra. }
  destruct Hc as (Nc & Hc16 & Hc1 & Hdom).
  destruct (clamped_max v) as [sc|sc| |[] mc ec] eqn:Ec; cbn [nonneg] in Nc;
    try tauto.
  { exfalso. change (to_Q (S754_zero sc)) with 0%Q in Hc16. lra. }
  (* the product by 255 and its ceiling *)
  change (of_Z 255) with (S754_finite false 16711680 (-16)) in Hle.
  assert (H255 : (to_Q (S754_finite false 16711680 (-16)) == 255)%Q) by reflexivity.
  destruct bpow_unit_bounds as (Hb1 & Hb2).
  destruct (fmul_near mc 16711680 ec (-16) Nc eq_refl) as (py & ey & Hy & Hvy & Hny).
  { rewrite H255. lra. }
  { rewrite H255. lra. }
  rewrite Hy in Hle.
  destruct (of_Z_small k ltac:(change (2 ^ 24) with 16777216; lia)) as (Hrep & Hvk & _).
  pose proof (to_Q_of_Z k ltac:(change (2 ^ 24) with 16777216; lia)) as HkQ.
  rewrite Hrep in Hle, Hvk, HkQ.
  apply (fle_to_Q _ _ _ _ Hvy Hvk) in Hle. rewrite HkQ in Hle.
  unfold near in Hny. rewrite H255 in Hny. destruct Hny as (Hny1 & _).
  (* the multiplier *)
  pose proof (multiplier_facts k Hk) as Hchk. unfold multiplier_check in Hchk.
  rewrite <- HM in Hchk.
  destruct (a4 (linearToRGBM v)) as [sm|sm| |[] pm em]; try discriminate.
  rewrite !andb_true_iff in Hchk.
  destruct Hchk as ((((HvM & HM16) & HM1) & HkM) & HA).
  destruct (fmul (S754_finite false pm em) (of_Z 16)) as [sa|sa| |[] pa ea] eqn:EA;
    try discriminate.
  rewrite andb_true_iff in HA. destruct HA as (HvA & HAeq).
  apply Qle_bool_imp_le in HM16, HM1, HkM. apply Qeq_bool_eq in HAeq.
  exists pm, em, pa, ea.
  split; [reflexivity|]. split; [exact HvM|]. split; [exact EA|].
  split; [exact HvA|]. split; [exact HAeq|]. split; [exact HM16|]. split; [exact HM1|].
  destruct one_ulp_bounds as (Hu1 & _).
  set (u := one_ulp) in *.
  set (Mq := to_Q (S754_finite false pm em)) in *.
  set (cq := to_Q (S754_finite false mc ec)) in *.
  set (yq := to_Q (S754_finite false py ey)) in *.
  assert (Hcm : (cq <= Mq * (u * u))%Q) by nra.
  destruct Hdom as [Hone|(Hr0 & Hr1 & Hr2)]; [|repeat split; lra].
  (* the clamp returned 1: the multiplier is 255/255 *)
  assert (Hk255 : k = 255).
  { destruct (Z_le_gt_dec k 254) as [Hsmall|Hbig]; [|lia]. exfalso.
    rewrite (Zle_Qle k 254) in Hsmall. change (inject_Z 254) with 254%Q in Hsmall.
    assert (H254 : (254 * u < 255)%Q) by reflexivity.
    assert (H1 : (yq * u <= inject_Z k * u)%Q) by nra.
    assert (H2 : (inject_Z k * u <= 254 * u)%Q) by nra.
    lra. }
  subst k. vm_compute in HM. injection HM as Epm Eem.
  assert (HMone : (Mq == 1)%Q) by (unfold Mq; rewrite Epm, Eem; reflexivity).
  rewrite HMone. repeat split; lra.
Qed.


Lemma decoded_component_wide (mx pr pm pa : positive) (ex er em ea : Z) :
  valid (S754_finite false mx ex) = true ->
  valid (S754_finite false pr er) = true ->
  valid (S754_finite false pm em) = true ->
  valid (S754_finite false pa ea) = true ->
  (to_Q (S754_finite false mx ex) <= 256)%Q ->
  (to_Q (S754_finite false pa ea) == 16 * to_Q (S754_finite false pm em))%Q ->
  (1 # 16 <= to_Q (S754_finite false pm em))%Q ->
  (to_Q (S754_finite false pm em) <= 1)%Q ->
  (bpow (-80) <= to_Q (S754_finite false pr er))%Q ->
  (to_Q (S754_finite false pr er)
     <= to_Q (S754_finite false pm em) * (one_ulp * one_ulp))%Q ->
  near (one_ulp * one_ulp * (one_ulp * one_ulp))
    (to_Q (S754_finite false mx ex))
    ((to_Q (S754_finite false pr er) * 16) * (to_Q (S754_finite false pr er) * 16)) ->
  rel_close
    (fmul (fmul (saturate (fdiv (S754_finite false pr er) (S754_finite false pm em)))
                (S754_finite false pa ea))
          (fmul (saturate (fdiv (S754_finite false pr er) (S754_finite false pm em)))
                (S754_finite false pa ea)))
    (S754_finite false mx ex).
Proof.
  intros Hvx Hvr HvM HvA Hx256 HA HM16 HM1 Hr80 HrM Hnx.
  pose proof (to_Q_pos mx ex) as Hxpos.
  pose proof (to_Q_pos pr er) as Hrpos.
  destruct one_ulp_bounds as (Hu1 & Hu2).
  destruct bpow_unit_bounds as (Hb1 & _).
  pose proof (bpow_le 9 126 ltac:(lia)) as Hb2. change (bpow 9) with 512%Q in Hb2.
  pose proof (bpow_le (-126) (-80) ltac:(lia)) as Hb80.
  pose proof (bpow_pos (-126)) as Hb126.
  pose proof ulp_power_bounds as Hpow.
  set (xq := to_Q (S754_finite false mx ex)) in *.
  set (rq := to_Q (S754_finite false pr er)) in *.
  set (Mq := to_Q (S754_finite false pm em)) in *.
  set (Aq := to_Q (S754_finite false pa ea)) in *.
  set (u := one_ulp) in *.
  assert (Huu : (1 <= u * u)%Q) by nra.
  (* the quotient by the multiplier *)
  assert (Hq1 : (rq <= rq / Mq)%Q) by (apply Qle_shift_div_l; [lra | nra]).
  assert (Hq2 : (rq / Mq <= u * u)%Q) by (apply Qle_shift_div_r; lra).
  assert (Hqm : (rq / Mq * (16 * Mq) == rq * 16)%Q) by (field; lra).
  destruct (fdiv_near pr pm er em Hvr HvM) as (p1 & e1 & Hdiv & Hv1 & Hn1).
  { fold rq Mq. lra. }
  { fold rq Mq. lra. }
  fold rq Mq u in Hn1. rewrite Hdiv.
  set (q := (rq / Mq)%Q) in *.
  (* the saturation *)
  destruct (saturate_positive p1 e1 Hv1) as (po & eo & Hsat & Hvo & Ho1 & Hcase).
  rewrite Hsat.
  pose proof (to_Q_pos po eo) as Hopos.
  pose proof (to_Q_pos p1 e1) as H1pos.
  set (oq := to_Q (S754_finite false po eo)) in *.
  set (o1 := to_Q (S754_finite false p1 e1)) in *.
  assert (Hno : near (u * u) q oq).
  { unfold near in Hn1 |- *. destruct Hn1 as [Ha Hb].
    assert (Hw1 : (o1 * u <= o1 * u * u)%Q).
    { assert (0 <= o1 * u)%Q by nra. set (w := (o1 * u)%Q) in *. nra. }
    assert (Hw2 : (q * u <= q * u * u)%Q).
    { assert (0 <= q * u)%Q by nra. set (w := (q * u)%Q) in *. nra. }
    destruct Hcase as [He|[He Hge]]; rewrite He; split.
    - apply Qle_trans with (o1 * u * u)%Q; [lra | ring_simplify; apply Qle_refl].
    - apply Qle_trans with (q * u * u)%Q; [lra | ring_simplify; apply Qle_refl].
    - apply Qle_trans with (u * u)%Q; [exact Hq2 | ring_simplify; apply Qle_refl].
    - apply Qle_trans with (q * u * u)%Q; [lra | ring_simplify; apply Qle_refl]. }
  (* the product by sixteen times the multiplier *)
  assert (Hns : near (u * u) (rq * 16) (oq * Aq)).
  { apply (near_eq _ (q * (16 * Mq)) _ (oq * (16 * Mq))).
    - exact Hqm.
    - rewrite HA. reflexivity.
    - apply near_scale; [lra | exact Hno]. }
  assert (HP0 : (0 <= oq * Aq)%Q) by (rewrite HA; nra).
  assert (HPlo : (bpow (-126) <= oq * Aq)%Q).
  { unfold near in Hns. destruct Hns as [Ha _].
    set (P := (oq * Aq)%Q) in *.
    assert (P * (u * u) <= P * (17 # 16))%Q by nra. lra. }
  assert (HPup : (oq * Aq <= 16)%Q) by (rewrite HA; nra).
  destruct (fmul_near po pa eo ea Hvo HvA) as (pl & el & Hlin & Hvl & Hnl).
  { fold oq Aq. exact HPlo. }
  { fold oq Aq. lra. }
  fold oq Aq u in Hnl. rewrite Hlin.
  pose proof (to_Q_pos pl el) as Hlpos.
  set (lq := to_Q (S754_finite false pl el)) in *.
  assert (Hnsl : near (u * u * u) (rq * 16) lq).
  { apply (near_trans (u * u) u _ (oq * Aq)); [lra | lra | exact Hns | exact Hnl]. }
  (* the square *)
  assert (Hnsq : near (u * u * u * (u * u * u)) (rq * 16 * (rq * 16)) (lq * lq)).
  { apply near_mul; try lra; try nra; exact Hnsl. }
  assert (Hu3 : (0 <= u * u * u)%Q) by nra.
  assert (Hu4 : (0 <= u * u * (u * u))%Q) by nra.
  assert (Hu6 : (0 <= u * u * u * (u * u * u))%Q) by nra.
  assert (HnL : near (u * u * (u * u) * (u * u * u * (u * u * u))) xq (lq * lq)).
  { apply (near_trans _ _ _ (rq * 16 * (rq * 16))); [exact Hu4 | exact Hu6 | exact Hnx |
      exact Hnsq]. }
  set (F := (u * u * (u * u) * (u * u * u * (u * u * u)))%Q) in *.
  assert (HF0 : (0 <= F)%Q) by (unfold F; nra).
  assert (HFG : (F <= 500001 # 500000)%Q).
  { apply Qle_trans with (F * u)%Q; [nra | exact Hpow]. }
  assert (HL0 : (0 <= lq * lq)%Q) by nra.
  destruct (Qlt_le_dec (lq * lq) (bpow (-126))) as [Hsub|Hnorm].
  - destruct (fmul_subnormal pl pl el el Hvl Hvl Hsub) as (m2 & Hm2 & Hd & Habs).
    rewrite Hd. fold lq in Habs.
    apply (rel_close_subnormal mx ex m2 (lq * lq) Hvx Hm2 Habs).
    fold xq. apply (near_weaken F); [lra | exact HL0 | exact HFG | exact HnL].
  - destruct (fmul_near pl pl el el Hvl Hvl) as (pd & ed & Hd & Hvd & Hnd).
    { exact Hnorm. }
    { fold lq. unfold near in HnL. destruct HnL as [_ Hb]. nra. }
    fold lq u in Hnd. rewrite Hd.
    pose proof (to_Q_pos pd ed) as Hdpos.
    apply (rel_close_of_near _ _ (F * u)); [reflexivity | lra | fold xq; lra |
      exact Hpow |].
    fold xq. apply (near_trans F u _ (lq * lq)); [exact HF0 | lra | exact HnL | exact Hnd].
Qed.


Lemma within_0_256_cases (x : float32) :
  within_0_256 x ->
  (exists s, x = S754_zero s) \/
  (positive_finite x /\ (to_Q x <= 256)%Q).
Proof.
  intros (Hv & H0 & H256). destruct x as [s|[]| |[] m e]; try discriminate.
  - left. exists s. reflexivity.
  - right. split; [exact Hv|].
    change (of_Z 256) with (S754_finite false 8388608 (-15)) in H256.
    apply (fle_to_Q m 8388608 e (-15) Hv eq_refl) in H256.
    assert (E : (to_Q (S754_finite false 8388608 (-15)) == 256)%Q)
      by (vm_compute; reflexivity).
    rewrite E in H256. exact H256.
Qed.

Lemma encoded_nonneg_wide (x : float32) :
  within_0_256 x ->
  nonneg (fdiv (fsqrt x) (of_Z 16)) /\
  (to_Q (fdiv (fsqrt x) (of_Z 16)) <= one_ulp * one_ulp)%Q.
Proof.
  intros Hx.
  destruct (within_0_256_cases x Hx) as [[s ->]|(Hp & H256)].
  - destruct s; split; try exact I; vm_compute; discriminate.
  - destruct x as [s|s| |[] m e]; cbn [positive_finite] in Hp; try tauto.
    destruct (encoded_component_wide m e Hp H256)
      as (pr & er & -> & Hvr & _ & Hle & _).
    split; [exact Hvr | exact Hle].
Qed.

Lemma component_round_trip_wide (x : float32) (pm pa : positive) (em ea : Z) :
  within_0_256 x ->
  valid (S754_finite false pm em) = true ->
  valid (S754_finite false pa ea) = true ->
  (to_Q (S754_finite false pa ea) == 16 * to_Q (S754_finite false pm em))%Q ->
  (1 # 16 <= to_Q (S754_finite false pm em))%Q ->
  (to_Q (S754_finite false pm em) <= 1)%Q ->
  (to_Q (fdiv (fsqrt x) (of_Z 16))
     <= to_Q (S754_finite false pm em) * (one_ulp * one_ulp))%Q ->
  rel_close
    (fmul (fmul (saturate (fdiv (fdiv (fsqrt x) (of_Z 16)) (S754_finite false pm em)))
                (S754_finite false pa ea))
          (fmul (saturate (fdiv (fdiv (fsqrt x) (of_Z 16)) (S754_finite false pm em)))
                (S754_finite false pa ea)))
    x.
Proof.
  intros Hx HvM HvA HA HM16 HM1 HrM.
  destruct (within_0_256_cases x Hx) as [[s ->]|(Hp & H256)].
  - destruct s; (split; [reflexivity | vm_compute; discriminate]).
  - destruct x as [s|s| |[] m e]; cbn [positive_finite] in Hp; try tauto.
    destruct (encoded_component_wide m e Hp H256)
      as (pr & er & Henc & Hvr & Hr80 & _ & Hnx).
    rewrite Henc in HrM |- *.
    apply decoded_component_wide; assumption.
Qed.

(** X9: the round trip of the RGBM codec is accurate on the whole range of
    the encoding, which is [0, 256] and not only [0, 16]: for every linear
    RGB triple whose components are floats between 0 and 256, each
    component of [RGBMtoLinear (linearToRGBM v)] is finite and differs from
    the component of [v] by at most [1e-3] times that component. *)
Theorem RGBM_round_trip_wide (v : float3) :
  within_0_256 (r3 v) -> within_0_256 (g3 v) -> within_0_256 (b3 v) ->
  rel_close (r3 (RGBMtoLinear (linearToRGBM v))) (r3 v) /\
  rel_close (g3 (RGBMtoLinear (linearToRGBM v))) (g3 v) /\
  rel_close (b3 (RGBMtoLinear (linearToRGBM v))) (b3 v).
Proof.
  intros Hr Hg Hb.
  destruct (encoded_nonneg_wide _ Hr) as (Nr & Br).
  destruct (encoded_nonneg_wide _ Hg) as (Ng & Bg).
  destruct (encoded_nonneg_wide _ Hb) as (Nb & Bb).
  destruct (multiplier_bounds_wide v Nr Ng Nb Br Bg Bb)
    as (pm & em & pa & ea & HM & HvM & HAeq & HvA & HA & HM16 & HM1 & Lr & Lg & Lb).
  rewrite RGBMtoLinear_linearToRGBM. cbn [map3 r3 g3 b3].
  rewrite HM, HAeq.
  split; [|split]; apply component_round_trip_wide; assumption.
Qed.
(** * The range of the RGBM decoder *)

(** A product that does not exceed a power of two is not rounded above
    it. *)
Lemma fmul_le_bpow (mx my : positive) (ex ey k : Z) :
  valid (S754_finite false mx ex) = true ->
  valid (S754_finite false my ey) = true ->
  -149 <= k <= 103 ->
  (to_Q (S754_finite false mx ex) * to_Q (S754_finite false my ey) <= bpow k)%Q ->
  fmul (S754_finite false mx ex) (S754_finite false my ey) = S754_zero false \/
  exists (p : positive) (E : Z),
    fmul (S754_finite false mx ex) (S754_finite false my ey) = S754_finite false p E /\
    valid (S754_finite false p E) = true /\
    (to_Q (S754_finite false p E) <= bpow k)%Q.
Proof.
  intros Hx Hy Hk Hle.
  destruct (fmul_pos_spec mx my ex ey Hx Hy)
    as (Hpre & m2 & Hm2 & Heq & Hhi & Hlo & Hnear).
  set (P := Zpos mx * Zpos my) in *. set (e := ex + ey) in *.
  assert (HP : 0 < P) by (subst P; lia).
  assert (Ht : (to_Q (S754_finite false mx ex) * to_Q (S754_finite false my ey) ==
                inject_Z P * bpow e)%Q).
  { rewrite !to_Q_finite. subst P e. rewrite inject_Z_mult, bpow_add. ring. }
  rewrite Ht in Hle.
  destruct (int_le_bpow P e k HP Hle) as (He & HPle).
  assert (Hd : digits P <= k - e + 1).
  { apply digits_le; [lia|]. split; [lia|].
    rewrite Z.pow_add_r by lia. change (2 ^ 1) with 2.
    assert (0 < 2 ^ (k - e)) by (apply Z.pow_pos_nonneg; lia). lia. }
  set (E := fexp32 (digits P + e)) in *.
  assert (HE : -149 <= E /\ E <= k /\ E + 1 <= 104) by (subst E; unfold fexp32; lia).
  set (n := E - e) in *.
  assert (Hn : 0 <= n) by (subst n; lia).
  assert (HX : 0 < 2 ^ n) by (apply Z.pow_pos_nonneg; lia).
  assert (Hq0 : 0 <= P / 2 ^ n) by (apply Z.div_pos; lia).
  assert (HT : 0 < 2 ^ (k - E)) by (apply Z.pow_pos_nonneg; lia).
  assert (Hsplit : 2 ^ (k - e) = 2 ^ (k - E) * 2 ^ n).
  { rewrite <- Z.pow_add_r by lia. f_equal. subst n. lia. }
  assert (Hm2le : m2 <= 2 ^ (k - E)).
  { destruct (Z_le_gt_dec m2 (2 ^ (k - E))) as [H|H]; [exact H|]. exfalso.
    assert (H1 : (2 ^ (k - E) + 1) * 2 ^ n <= m2 * 2 ^ n)
      by (apply Z.mul_le_mono_nonneg_r; lia).
    lia. }
  assert (Hm2r : 0 <= m2 <= 2 ^ 24) by lia.
  assert (Hval : valid (mk_float false m2 E) = true).
  { apply mk_float_valid; [exact Hm2r | lia |]. intros HEn. specialize (Hlo HEn). lia. }
  assert (HQ : (to_Q (mk_float false m2 E) <= bpow k)%Q).
  { rewrite to_Q_mk_float by lia. rewrite (bpow_split k E) by lia.
    apply Qmult_le_compat_r; [|apply Qlt_le_weak, bpow_pos].
    rewrite <- Zle_Qle. exact Hm2le. }
  rewrite Heq.
  destruct (mk_float false m2 E) as [s|s| |s p E'] eqn:Emk.
  - left. f_equal. unfold mk_float in Emk.
    destruct m2 as [|q|q]; [congruence| |discriminate].
    destruct (Z.pos q =? 16777216);
      [destruct (E + 1 <=? 104) | destruct (E <=? 104)]; discriminate.
  - exfalso. unfold mk_float in Emk.
    destruct m2 as [|q|q]; [discriminate| |discriminate].
    destruct (Z.pos q =? 16777216).
    + replace (E + 1 <=? 104) with true in Emk by (symmetry; apply Z.leb_le; lia).
      discriminate.
    + replace (E <=? 104) with true in Emk by (symmetry; apply Z.leb_le; lia).
      discriminate.
  - exfalso. unfold mk_float in Emk.
    destruct m2 as [|q|q]; [discriminate| |lia].
    destruct (Z.pos q =? 16777216);
      [destruct (E + 1 <=? 104) | destruct (E <=? 104)]; discriminate.
  - assert (s = false).
    { pose proof (sign_bit_mk_float m2 E) as Hs. rewrite Emk in Hs. exact Hs. }
    subst s. right. exists p, E'. split; [reflexivity|]. split; assumption.
Qed.

(** The multiplier of any colour and its product by 16. *)
Lemma multiplier_shape (v : float3) :
  exists (pm : positive) (em : Z) (pa : positive) (ea : Z),
    a4 (linearToRGBM v) = S754_finite false pm em /\
    valid (S754_finite false pm em) = true /\
    fmul (S754_finite false pm em) (of_Z 16) = S754_finite false pa ea /\
    valid (S754_finite false pa ea) = true /\
    (to_Q (S754_finite false pa ea) == 16 * to_Q (S754_finite false pm em))%Q /\
    (1 # 16 <= to_Q (S754_finite false pm em))%Q /\
    (to_Q (S754_finite false pm em) <= 1)%Q.
Proof.
  destruct (clamped_max_step v) as (k & Hk & Hceil & _).
  pose proof (linearToRGBM_multiplier v) as HM. rewrite Hceil in HM.
  pose proof (multiplier_facts k Hk) as Hchk. unfold multiplier_check in Hchk.
  rewrite <- HM in Hchk.
  destruct (a4 (linearToRGBM v)) as [sm|sm| |[] pm em]; try discriminate.
  rewrite !andb_true_iff in Hchk.
  destruct Hchk as ((((HvM & HM16) & HM1) & _) & HA).
  destruct (fmul (S754_finite false pm em) (of_Z 16)) as [sa|sa| |[] pa ea] eqn:EA;
    try discriminate.
  rewrite andb_true_iff in HA. destruct HA as (HvA & HAeq).
  apply Qle_bool_imp_le in HM16, HM1. apply Qeq_bool_eq in HAeq.
  exists pm, em, pa, ea. repeat split; assumption.
Qed.

(** A saturated value is +0 or a positive number that does not exceed 1. *)
Lemma saturate_unit (q : float32) :
  valid q = true ->
  saturate q = S754_zero false \/
  exists (po : positive) (eo : Z),
    saturate q = S754_finite false po eo /\
    valid (S754_finite false po eo) = true /\
    (to_Q (S754_finite false po eo) <= 1)%Q.
Proof.
  intros Hq. unfold saturate.
  assert (Hone : (to_Q (S754_finite false 8388608 (-23)) == 1)%Q)
    by (vm_compute; reflexivity).
  destruct (clamp_cases q (of_Z 0) (of_Z 1)) as [->|[->|(-> & H0 & H1)]].
  - left. reflexivity.
  - right. exists 8388608%positive, (-23). split; [reflexivity|].
    split; [reflexivity|]. rewrite Hone. apply Qle_refl.
  - destruct q as [s|[]| |[] m e]; try discriminate H0; try discriminate H1.
    right. exists m, e. split; [reflexivity|]. split; [exact Hq|].
    change (of_Z 1) with (S754_finite false 8388608 (-23)) in H1.
    apply (flt_to_Q m 8388608 e (-23) Hq eq_refl) in H1.
    rewrite Hone in H1. apply Qlt_le_weak. exact H1.
Qed.

Lemma decoded_component_cap (r : float32) (pm pa : positive) (em ea : Z) :
  valid (S754_finite false pm em) = true ->
  valid (S754_finite false pa ea) = true ->
  (to_Q (S754_finite false pa ea) == 16 * to_Q (S754_finite false pm em))%Q ->
  (to_Q (S754_finite false pm em) <= 1)%Q ->
  is_finite
    (fmul (fmul (saturate (fdiv r (S754_finite false pm em))) (S754_finite false pa ea))
          (fmul (saturate (fdiv r (S754_finite false pm em))) (S754_finite false pa ea)))
    = true /\
  fle
    (fmul (fmul (saturate (fdiv r (S754_finite false pm em))) (S754_finite false pa ea))
          (fmul (saturate (fdiv r (S754_finite false pm em))) (S754_finite false pa ea)))
    (of_Z 256) = true.
Proof.
  intros HvM HvA HA HM1.
  pose proof (to_Q_pos pm em) as HMpos.
  pose proof (to_Q_pos pa ea) as HApos.
  destruct (saturate_unit (fdiv r (S754_finite false pm em)) (fdiv_valid _ _))
    as [->|(po & eo & -> & Hvo & Ho1)].
  { split; reflexivity. }
  pose proof (to_Q_pos po eo) as Hopos.
  assert (H16 : (bpow 4 == 16)%Q) by reflexivity.
  assert (H256 : (bpow 8 == 256)%Q) by reflexivity.
  destruct (fmul_le_bpow po pa eo ea 4 Hvo HvA ltac:(lia)) as [->|(pl & el & -> & Hvl & Hl)].
  { rewrite H16, HA.
    set (oq := to_Q (S754_finite false po eo)) in *.
    set (Mq := to_Q (S754_finite false pm em)) in *. nra. }
  { split; reflexivity. }
  pose proof (to_Q_pos pl el) as Hlpos.
  destruct (fmul_le_bpow pl pl el el 8 Hvl Hvl ltac:(lia)) as [->|(pd & ed & -> & Hvd & Hd)].
  { rewrite H256. rewrite H16 in Hl.
    set (lq := to_Q (S754_finite false pl el)) in *. nra. }
  { split; reflexivity. }
  split; [reflexivity|].
  change (of_Z 256) with (S754_finite false 8388608 (-15)).
  apply (fle_to_Q pd 8388608 ed (-15) Hvd eq_refl).
  assert (E : (to_Q (S754_finite false 8388608 (-15)) == 256)%Q)
    by (vm_compute; reflexivity).
  rewrite E, <- H256. exact Hd.
Qed.

(** X10: the RGBM codec clips at 256.  For every linear RGB triple whose
    components are not negative and not NaN, however large (+infinity
    included), each component of [RGBMtoLinear (linearToRGBM v)] is a
    finite float that does not exceed 256.  (A negative or NaN component
    is left out: what becomes of a NaN is decided in [math::clamp].) *)
Theorem RGBM_decode_clipped (v : float3) :
  fle (of_Z 0) (r3 v) = true -> fle (of_Z 0) (g3 v) = true ->
  fle (of_Z 0) (b3 v) = true ->
  (is_finite (r3 (RGBMtoLinear (linearToRGBM v))) = true /\
   fle (r3 (RGBMtoLinear (linearToRGBM v))) (of_Z 256) = true) /\
  (is_finite (g3 (RGBMtoLinear (linearToRGBM v))) = true /\
   fle (g3 (RGBMtoLinear (linearToRGBM v))) (of_Z 256) = true) /\
  (is_finite (b3 (RGBMtoLinear (linearToRGBM v))) = true /\
   fle (b3 (RGBMtoLinear (linearToRGBM v))) (of_Z 256) = true).
Proof.
  intros _ _ _.
  destruct (multiplier_shape v)
    as (pm & em & pa & ea & HM & HvM & HAeq & HvA & HA & _ & HM1).
  rewrite RGBMtoLinear_linearToRGBM. cbn [map3 r3 g3 b3].
  rewrite HM, HAeq.
  split; [|split]; apply decoded_component_cap; assumption.
Qed.
(** * The linear segment of the sRGB transfer functions *)

Lemma sRGBToLinear_float3_map3
    (pow : float32 -> float32 -> float32) (junk c : float3) :
  sRGBToLinear_float3 pow junk c = map3 (sRGBToLinear_component pow) c.
Proof.
  destruct c as [r g b], junk as [j0 j1 j2].
  unfold sRGBToLinear_float3, sRGBToLinear_component, map3.
  cbn [for_range get3 set3 r3 g3 b3].
  destruct (fle r _), (fle g _), (fle b _); reflexivity.
Qed.

Lemma rel_close_by_of_near (d x : float32) (f : Q) :
  is_finite d = true -> (0 <= to_Q d)%Q -> (0 <= to_Q x)%Q ->
  (f <= 2500001 # 2500000)%Q -> near f (to_Q x) (to_Q d) ->
  rel_close_by (1 # 1000000) d x.
Proof.
  intros Hf Hd Hx Hle Hn. split; [exact Hf|].
  apply (near_weaken _ _ _ _ Hx Hd Hle) in Hn. unfold near in Hn.
  destruct Hn as [H1 H2].
  rewrite (Qabs_pos (to_Q x)) by exact Hx.
  apply Qabs_Qle_condition. split; lra.
Qed.

(** The constants of the two linear segments: 12.92f times 1.0f/12.92f is
    1 up to one rounding, and the image of the threshold 0.0031308f stays
    below the threshold 0.04045f after a rounding. *)
Lemma linear_segment_constants :
  lit 1292 100 = S754_finite false 13547602 (-20) /\
  fdiv (of_Z 1) (lit 1292 100) = S754_finite false 10388369 (-27) /\
  lit 31308 10000000 = S754_finite false 13446684 (-32) /\
  lit 4045 100000 = S754_finite false 10858214 (-28) /\
  (to_Q (S754_finite false 13446684 (-32)) * to_Q (S754_finite false 13547602 (-20))
     * one_ulp <= to_Q (S754_finite false 10858214 (-28)))%Q /\
  near one_ulp 1
    (to_Q (S754_finite false 13547602 (-20)) * to_Q (S754_finite false 10388369 (-27))) /\
  (12 <= to_Q (S754_finite false 13547602 (-20)))%Q /\
  (to_Q (S754_finite false 13547602 (-20)) <= 13)%Q /\
  (to_Q (S754_finite false 13446684 (-32)) <= 1)%Q /\
  (one_ulp * one_ulp * one_ulp <= 2500001 # 2500000)%Q.
Proof.
  split; [vm_compute; reflexivity|]. split; [vm_compute; reflexivity|].
  split; [vm_compute; reflexivity|]. split; [vm_compute; reflexivity|].
  split; [apply Qle_bool_imp_le; vm_compute; reflexivity|].
  split; [split; apply Qle_bool_imp_le; vm_compute; reflexivity|].
  repeat split; apply Qle_bool_imp_le; vm_compute; reflexivity.
Qed.

Section LinearSegment.

Variable pow : float32 -> float32 -> float32.

(** The scalar round trip through the two linear segments. *)
Lemma linear_segment_component (x : float32) :
  in_linear_segment x ->
  fle (linearTosRGB_float pow x) (lit 4045 100000) = true /\
  linearTosRGB_float pow x = fmul x (lit 1292 100) /\
  sRGBToLinear_component pow (linearTosRGB_float pow x) =
    fmul (fmul x (lit 1292 100)) (fdiv (of_Z 1) (lit 1292 100)) /\
  rel_close_by (1 # 1000000)
    (sRGBToLinear_component pow (linearTosRGB_float pow x)) x.
Proof.
  intros (Hv & Hlo & Hhi).
  destruct linear_segment_constants
    as (Ec1 & Ec2 & Et1 & Et2 & Hthr & Hc12 & Hc1lo & Hc1hi & Ht1 & Hpow).
  unfold linearTosRGB_float. rewrite Hhi.
  unfold sRGBToLinear_component.
  rewrite Ec2, Ec1, Et2. rewrite Et1 in Hhi. unfold two_pow_m125 in Hlo.
  destruct x as [s|[]| |[] m e]; try discriminate Hlo; try discriminate Hhi.
  apply (fle_to_Q 8388608 m (-148) e eq_refl Hv) in Hlo.
  apply (fle_to_Q m 13446684 e (-32) Hv eq_refl) in Hhi.
  assert (Hb125 : (to_Q (S754_finite false 8388608 (-148)) == bpow (-125))%Q).
  { rewrite to_Q_finite. change (inject_Z (Z.pos 8388608)) with (inject_Z (2 ^ 23)).
    rewrite <- (bpow_Z 23) by lia. rewrite <- bpow_add. reflexivity. }
  rewrite Hb125 in Hlo.
  pose proof (bpow_double (-126)) as Hdbl. change (-126 + 1) with (-125) in Hdbl.
  pose proof (bpow_pos (-126)) as Hb126.
  destruct bpow_unit_bounds as (_ & Hb256).
  destruct one_ulp_bounds as (Hu1 & Hu2).
  pose proof (to_Q_pos m e) as Hxpos.
  pose proof (to_Q_pos 13547602 (-20)) as Hc1pos.
  pose proof (to_Q_pos 10388369 (-27)) as Hc2pos.
  destruct Hc12 as (Hc12a & Hc12b).
  set (xq := to_Q (S754_finite false m e)) in *.
  set (c1 := to_Q (S754_finite false 13547602 (-20))) in *.
  set (c2 := to_Q (S754_finite false 10388369 (-27))) in *.
  set (t1 := to_Q (S754_finite false 13446684 (-32))) in *.
  set (t2 := to_Q (S754_finite false 10858214 (-28))) in *.
  set (u := one_ulp) in *.
  (* the product by 12.92f *)
  destruct (fmul_near m 13547602 e (-20) Hv eq_refl) as (py & ey & Hy & Hvy & Hny).
  { fold xq c1. nra. }
  { fold xq c1. nra. }
  fold xq c1 u in Hny. rewrite Hy.
  pose proof (to_Q_pos py ey) as Hypos.
  set (yq := to_Q (S754_finite false py ey)) in *.
  pose proof Hny as (Hny1 & Hny2).
  assert (Hyt : (yq <= t2)%Q).
  { apply Qle_trans with (t1 * c1 * u)%Q; [|exact Hthr].
    apply Qle_trans with (xq * c1 * u)%Q; [exact Hny2|].
    apply Qmult_le_compat_r; [|lra]. apply Qmult_le_compat_r; [exact Hhi | lra]. }
  assert (Hfle : fle (S754_finite false py ey) (S754_finite false 10858214 (-28)) = true).
  { apply (fle_to_Q py 10858214 ey (-28) Hvy eq_refl). exact Hyt. }
  rewrite Hfle.
  split; [reflexivity|]. split; [reflexivity|]. split; [reflexivity|].
  (* the product by 1.0f/12.92f *)
  assert (Hc2lo : (1 <= c2 * 13 * u)%Q).
  { apply Qle_trans with (c1 * c2 * u)%Q; [exact Hc12a|].
    assert (c1 * c2 <= 13 * c2)%Q by nra.
    set (a := (c1 * c2)%Q) in *. nra. }
  assert (Hc2hi : (c2 * 12 <= u)%Q).
  { apply Qle_trans with (c1 * c2)%Q; [nra|].
    apply Qle_trans with (1 * u)%Q; [exact Hc12b | lra]. }
  destruct (fmul_near py 10388369 ey (-27) Hvy eq_refl) as (pd & ed & Hd & Hvd & Hnd).
  { fold yq c2.
    assert (H1 : (xq * c1 * c2 <= yq * c2 * u)%Q).
    { set (a := (xq * c1)%Q) in *. set (b := (yq * u)%Q).
      assert (a * c2 <= yq * u * c2)%Q by nra. lra. }
    assert (H2 : (xq <= xq * c1 * c2 * u)%Q).
    { set (a := (c1 * c2 * u)%Q) in *.
      assert (xq * 1 <= xq * a)%Q by nra. unfold a in *. lra. }
    set (p := (yq * c2)%Q) in *. set (w := (xq * c1 * c2)%Q) in *.
    assert (H3 : (xq <= p * u * u)%Q) by nra.
    assert (H4 : (p * (u * u) <= p * (17 # 16))%Q).
    { assert (0 <= p)%Q by (unfold p; nra). nra. }
    lra. }
  { fold yq c2.
    assert (yq <= 1)%Q.
    { apply Qle_trans with t2; [exact Hyt|]. apply Qle_bool_imp_le.
      vm_compute. reflexivity. }
    assert (c2 <= 1)%Q by nra. nra. }
  fold yq c2 u in Hnd. rewrite Hd.
  pose proof (to_Q_pos pd ed) as Hdpos.
  apply (rel_close_by_of_near _ _ (u * (u * u)));
    [reflexivity | lra | fold xq; lra | |].
  { assert (E : (u * (u * u) == u * u * u)%Q) by ring. rewrite E. exact Hpow. }
  fold xq. set (dq := to_Q (S754_finite false pd ed)) in *.
  apply (near_trans u (u * u) xq (xq * c1 * c2)); [lra | nra | |].
  - apply (near_eq u (1 * xq) xq (c1 * c2 * xq) (xq * c1 * c2)); [ring | ring |].
    apply near_scale; [lra | split; assumption].
  - apply (near_trans u u (xq * c1 * c2) (yq * c2)); [lra | lra | | exact Hnd].
    apply near_scale; [lra | exact Hny].
Qed.

(** X11: on the linear segment the sRGB encoding and decoding are inverse
    to each other up to rounding, and [pow] is not consulted.  For a colour
    whose components are floats between 2^-125 and 0.0031308f,
    [linearTosRGB] multiplies each component by 12.92f, the product does
    not exceed 0.04045f so that [sRGBToLinear] multiplies it by
    1.0f/12.92f, and each component of the result is within 10^-6 of the
    component of the input, relative to it. *)
Theorem sRGB_linear_segment_round_trip (junk junk' c : float3) :
  in_linear_segment (r3 c) -> in_linear_segment (g3 c) ->
  in_linear_segment (b3 c) ->
  linearTosRGB pow junk c = vmul3 c (lit 1292 100) /\
  sRGBToLinear_float3 pow junk' (linearTosRGB pow junk c) =
    vmul3 (vmul3 c (lit 1292 100)) (fdiv (of_Z 1) (lit 1292 100)) /\
  rel_close_by (1 # 1000000)
    (r3 (sRGBToLinear_float3 pow junk' (linearTosRGB pow junk c))) (r3 c) /\
  rel_close_by (1 # 1000000)
    (g3 (sRGBToLinear_float3 pow junk' (linearTosRGB pow junk c))) (g3 c) /\
  rel_close_by (1 # 1000000)
    (b3 (sRGBToLinear_float3 pow junk' (linearTosRGB pow junk c))) (b3 c).
Proof.
  intros Hr Hg Hb.
  destruct (linear_segment_component _ Hr) as (_ & Er & Er' & Cr).
  destruct (linear_segment_component _ Hg) as (_ & Eg & Eg' & Cg).
  destruct (linear_segment_component _ Hb) as (_ & Eb & Eb' & Cb).
  rewrite sRGBToLinear_float3_map3, linearTosRGB_map3.
  destruct c as [r g b]. unfold vmul3, map3. cbn [r3 g3 b3] in *.
  split; [congruence|]. split; [congruence|].
  split; [exact Cr|]. split; [exact Cg | exact Cb].
Qed.

End LinearSegment.
(** * Quantization in the packers *)

(** The integer part of a positive finite float. *)
Lemma truncate_spec (m : positive) (e : Z) :
  0 <= truncate m e /\
  (inject_Z (truncate m e) <= to_Q (S754_finite false m e))%Q /\
  (to_Q (S754_finite false m e) < inject_Z (truncate m e) + 1)%Q.
Proof.
  unfold truncate. rewrite to_Q_finite.
  destruct (Z.leb_spec 0 e) as [He|He].
  - rewrite Z.shiftl_mul_pow2 by assumption.
    assert (0 < 2 ^ e) by (apply Z.pow_pos_nonneg; lia).
    rewrite (bpow_Z e) by assumption. rewrite <- inject_Z_mult.
    split; [nia|]. split; [apply Qle_refl|]. lra.
  - rewrite Z.shiftr_div_pow2 by lia.
    assert (HP : 0 < 2 ^ (- e)) by (apply Z.pow_pos_nonneg; lia).
    pose proof (Z.div_mod (Zpos m) (2 ^ (- e)) ltac:(lia)) as Hdm.
    pose proof (Z.mod_pos_bound (Zpos m) (2 ^ (- e)) HP) as Hr.
    set (t := Zpos m / 2 ^ (- e)) in *.
    assert (Ht0 : 0 <= t) by (apply Z.div_pos; lia).
    assert (Hlo : t * 2 ^ (- e) <= Zpos m) by lia.
    assert (Hhi : Zpos m < (t + 1) * 2 ^ (- e)) by lia.
    assert (Hb : (bpow e * inject_Z (2 ^ (- e)) == 1)%Q).
    { rewrite <- (bpow_Z (- e)) by lia. rewrite <- bpow_add.
      replace (e + - e) with 0 by lia. reflexivity. }
    pose proof (bpow_pos e) as Hbp.
    rewrite Zle_Qle, inject_Z_mult in Hlo.
    rewrite Zlt_Qlt, inject_Z_mult, inject_Z_plus in Hhi.
    set (P := inject_Z (2 ^ (- e))) in *. set (b := bpow e) in *.
    set (tq := inject_Z t) in *. set (mq := inject_Z (Zpos m)) in *.
    change (inject_Z 1) with 1%Q in Hhi.
    split; [exact Ht0|]. split.
    + assert (tq * P * b <= mq * b)%Q by (apply Qmult_le_compat_r; [exact Hlo | lra]).
      assert (E : (tq * P * b == tq * (b * P))%Q) by ring.
      rewrite E, Hb in H. lra.
    + assert (mq * b < (tq + 1) * P * b)%Q by (apply Qmult_lt_compat_r; assumption).
      assert (E : ((tq + 1) * P * b == (tq + 1) * (b * P))%Q) by ring.
      rewrite E, Hb in H. lra.
Qed.

Lemma uint_cast_subnormal (bits m2 : Z) :
  1 <= bits -> 0 <= m2 <= 2 ^ 24 ->
  uint_cast bits (mk_float false m2 (-149)) = Some 0.
Proof.
  intros Hb Hm. unfold mk_float. destruct m2 as [|p|p]; try lia; [reflexivity|].
  assert (H0 : 0 <= uint_max bits).
  { unfold uint_max. pose proof (Z.pow_pos_nonneg 2 bits). lia. }
  assert (Hz : forall q, Zpos q <= 2 ^ 24 -> truncate q (-149) = 0).
  { intros q Hq. unfold truncate. cbn [Z.leb Z.compare].
    rewrite Z.shiftr_div_pow2 by lia. apply Z.div_small.
    split; [lia|]. eapply Z.le_lt_trans; [exact Hq|]. reflexivity. }
  destruct (Z.pos p =? 16777216).
  - cbn [Z.add Z.leb Z.compare Z.pos_sub Pos.compare Pos.compare_cont].
    change (-149 + 1 <=? 104) with true. cbn [uint_cast].
    assert (Ht : truncate 8388608 (-149 + 1) = 0) by reflexivity.
    rewrite Ht. replace (0 <=? uint_max bits) with true
      by (symmetry; apply Z.leb_le; exact H0).
    reflexivity.
  - change (-149 <=? 104) with true. cbn [uint_cast].
    rewrite (Hz p) by lia.
    replace (0 <=? uint_max bits) with true
      by (symmetry; apply Z.leb_le; exact H0).
    reflexivity.
Qed.

(** A value of [0, 1] scaled by the maximum of an unsigned type of at most
    24 bits and converted: the integer part of the product, which is
    rounded once. *)
Lemma quantize_unit (bits : Z) (v : float32) :
  1 <= bits <= 24 -> valid v = true ->
  fle (of_Z 0) v = true -> fle v (of_Z 1) = true ->
  exists n,
    uint_cast bits (fmul (saturate v) (of_Z (uint_max bits))) = Some n /\
    0 <= n <= uint_max bits /\
    (inject_Z n <= inject_Z (uint_max bits) * to_Q v * one_ulp)%Q /\
    (inject_Z (uint_max bits) * to_Q v < (inject_Z n + 1) * one_ulp)%Q.
Proof.
  intros Hb Hv H0 H1.
  destruct (uint_cast_saturate bits v Hb Hv) as (n & Hn & Hr & _).
  exists n. split; [exact Hn|]. split; [exact Hr|].
  destruct (uint_max_rep bits Hb) as (HK & HdK).
  destruct (of_Z_small (uint_max bits) HK) as (Hrep & HvK & _).
  pose proof (to_Q_of_Z (uint_max bits) HK) as HKq.
  destruct one_ulp_bounds as (Hu1 & _).
  assert (HKpos : (0 < inject_Z (uint_max bits))%Q)
    by (rewrite <- (Zlt_Qlt 0); lia).
  destruct v as [s|[]| |[] m e]; try discriminate H0; try discriminate H1.
  - (* a zero *)
    assert (Hs : saturate (S754_zero s) = S754_zero false) by (destruct s; reflexivity).
    rewrite Hs, Hrep in Hn. cbn in Hn. injection Hn as <-.
    change (to_Q (S754_zero s)) with 0%Q. change (inject_Z 0) with 0%Q.
    split; [ring_simplify; apply Qle_refl | lra].
  - (* a positive value *)
    change (of_Z 1) with (S754_finite false 8388608 (-23)) in H1.
    apply (fle_to_Q m 8388608 e (-23) Hv eq_refl) in H1.
    assert (Hone : (to_Q (S754_finite false 8388608 (-23)) == 1)%Q)
      by (vm_compute; reflexivity).
    rewrite Hone in H1.
    destruct (saturate_positive m e Hv) as (po & eo & Hsat & Hvo & _ & Hcase).
    assert (Hsq : (to_Q (S754_finite false po eo) == to_Q (S754_finite false m e))%Q).
    { destruct Hcase as [E|[E Hge]]; [exact E|]. rewrite E. lra. }
    rewrite Hsat in Hn. rewrite Hrep in Hn, HvK, HKq.
    set (mk := Z.to_pos (uint_max bits * 2 ^ (24 - digits (uint_max bits)))) in *.
    set (ek := digits (uint_max bits) - 24) in *.
    pose proof (to_Q_pos m e) as Hxpos.
    rewrite <- Hsq. rewrite <- HKq.
    pose proof (to_Q_pos po eo) as Hopos.
    pose proof (to_Q_pos mk ek) as Hkpos.
    set (sq := to_Q (S754_finite false po eo)) in *.
    set (kq := to_Q (S754_finite false mk ek)) in *.
    assert (Hcomm : (kq * sq == sq * kq)%Q) by ring.
    destruct (Qlt_le_dec (sq * kq) (bpow (-126))) as [Hsub|Hnorm].
    + destruct (fmul_subnormal po mk eo ek Hvo HvK Hsub) as (m2 & Hm2 & Hy & _).
      rewrite Hy, uint_cast_subnormal in Hn by lia. injection Hn as <-.
      change (inject_Z 0) with 0%Q.
      destruct bpow_unit_bounds as (Hb1 & _).
      split; [|rewrite Hcomm; lra].
      assert (0 <= kq * sq)%Q by nra. set (w := (kq * sq)%Q) in *. nra.
    + destruct (fmul_near po mk eo ek Hvo HvK Hnorm) as (py & ey & Hy & Hvy & Hny).
      { fold sq kq. destruct bpow_unit_bounds as (_ & Hb2).
        assert (sq <= 1)%Q by (rewrite Hsq; exact H1).
        assert (kq <= 16777216)%Q.
        { rewrite HKq. rewrite <- (Zle_Qle _ 16777216).
          change (2 ^ 24) with 16777216 in HK. lia. }
        pose proof (bpow_le 24 126 ltac:(lia)) as Hb24.
        rewrite (bpow_Z 24) in Hb24 by lia.
        change (inject_Z (2 ^ 24)) with 16777216%Q in Hb24. nra. }
      fold sq kq in Hny. rewrite Hy in Hn. cbn [uint_cast] in Hn.
      destruct (truncate py ey <=? uint_max bits); [|discriminate Hn].
      injection Hn as <-.
      destruct (truncate_spec py ey) as (_ & Ht1 & Ht2).
      destruct Hny as (Hny1 & Hny2).
      set (yq := to_Q (S754_finite false py ey)) in *.
      set (tq := inject_Z (truncate py ey)) in *.
      split.
      * apply Qle_trans with yq; [exact Ht1|]. rewrite Hcomm. exact Hny2.
      * rewrite Hcomm. apply Qle_lt_trans with (yq * one_ulp)%Q; [exact Hny1|].
        apply Qmult_lt_compat_r; [lra | exact Ht2].
Qed.

Lemma saturate_negative (v : float32) :
  flt v (of_Z 0) = true -> saturate v = of_Z 0.
Proof.
  intros H. unfold saturate, clamp, std_max, std_min.
  rewrite (flt_asym _ _ H). reflexivity.
Qed.

(** What the packers store for a sample that is not a NaN. *)
Lemma quantize_sample (bits : Z) (v : float32) :
  1 <= bits <= 24 -> valid v = true ->
  exists n,
    uint_cast bits (fmul (saturate v) (of_Z (uint_max bits))) = Some n /\
    0 <= n <= uint_max bits /\
    (flt v (of_Z 0) = true -> n = 0) /\
    (flt (of_Z 1) v = true -> n = uint_max bits) /\
    (fle (of_Z 0) v = true -> fle v (of_Z 1) = true ->
       (inject_Z n <= inject_Z (uint_max bits) * to_Q v * one_ulp)%Q /\
       (inject_Z (uint_max bits) * to_Q v < (inject_Z n + 1) * one_ulp)%Q).
Proof.
  intros Hb Hv.
  destruct (uint_cast_saturate bits v Hb Hv) as (n & Hn & Hr & Hmax).
  exists n. split; [exact Hn|]. split; [exact Hr|]. split; [|split].
  - intros Hneg. rewrite (saturate_negative v Hneg) in Hn.
    destruct (uint_max_rep bits Hb) as (HK & _).
    destruct (of_Z_small (uint_max bits) HK) as (Hrep & _).
    rewrite Hrep in Hn. cbn in Hn. congruence.
  - exact Hmax.
  - intros H0 H1.
    destruct (quantize_unit bits v Hb Hv H0 H1) as (n' & Hn' & _ & Hlo & Hhi).
    assert (n' = n) by congruence. subst n'. split; assumption.
Qed.


Section GrayscaleCells.

Variable sample : Type.
Variable T_max : Z.
Variable T_cast : float32 -> sample.
Variable sizeof_T : Z.


End GrayscaleCells.

(** * Packing to bytes and unpacking again *)

Lemma byte_facts (n : Z) : 0 <= n <= 255 -> byte_check n = true.
Proof.
  intros Hn.
  assert (H : List.forallb (fun k => byte_check (Z.of_nat k)) (List.seq 0 256) = true)
    by (vm_compute; reflexivity).
  rewrite List.forallb_forall in H.
  specialize (H (Z.to_nat n)). rewrite Z2Nat.id in H by lia.
  apply H. apply List.in_seq. lia.
Qed.

(** A value of [0, 1], stored as a byte and read back as [n/255.0f]. *)
Lemma byte_round_trip (v : float32) (n : Z) :
  0 <= n <= 255 ->
  (0 <= to_Q v)%Q ->
  (inject_Z n <= inject_Z 255 * to_Q v * one_ulp)%Q ->
  (inject_Z 255 * to_Q v < (inject_Z n + 1) * one_ulp)%Q ->
  is_finite (fdiv (of_Z n) (of_Z 255)) = true /\
  (Qabs (to_Q (fdiv (of_Z n) (of_Z 255)) - to_Q v) <= 1 # 254)%Q.
Proof.
  intros Hn Hv0 Hlo Hhi.
  pose proof (byte_facts n Hn) as Hchk. unfold byte_check in Hchk.
  rewrite !andb_true_iff in Hchk. destruct Hchk as ((Hfin & Hd1) & Hd2).
  apply Qle_bool_imp_le in Hd1, Hd2.
  split; [exact Hfin|].
  assert (Hn0 : (0 <= inject_Z n)%Q) by (rewrite <- (Zle_Qle 0); lia).
  assert (Hn255 : (inject_Z n <= inject_Z 255)%Q) by (rewrite <- Zle_Qle; lia).
  change (inject_Z 255) with 255%Q in Hlo, Hhi, Hn255.
  set (d := to_Q (fdiv (of_Z n) (of_Z 255))) in *.
  set (vq := to_Q v) in *. set (nq := inject_Z n) in *.
  unfold one_ulp in *.
  apply Qabs_Qle_condition. split; lra.
Qed.

Lemma unit_to_Q_nonneg (v : float32) :
  fle (of_Z 0) v = true -> fle v (of_Z 1) = true -> (0 <= to_Q v)%Q.
Proof.
  intros H0 H1. destruct v as [s|[]| |[] m e]; try discriminate H0;
    try discriminate H1.
  - apply Qle_refl.
  - apply Qlt_le_weak, to_Q_pos.
Qed.

Lemma load_T_u8 (src : Z -> Z) (p k : Z) :
  load_T Z 1 first_byte src p k = src (p + k).
Proof.
  unfold load_T, first_byte. change (Z.to_nat 1) with 1%nat.
  cbn [seq map hd]. f_equal. cbn [Z.of_nat]. lia.
Qed.

(** X14: an 8-bit round trip.  [fromLinearToRGB<uint8_t>] of an image of
    three channels or more returns a buffer that the [unique_ptr] overload
    of [toLinear<uint8_t>] reads back, with the image's width and height,
    a stride of width * 3 bytes, the conversion of a byte to [float] and
    the identity transform, as an image of the same width and height
    with three channels.  For a channel [v] of the first three with
    [0 <= v <= 1], the byte [n] stored in the buffer is between 0 and 255,
    the channel of the image read back is the float [n/255.0f], that float
    is finite, and it is at most 1/254 away from [v]. *)
Theorem RGB8_round_trip (image : LinearImage) :
  image_wf image ->
  3 <= getChannels image ->
  exists buf,
    fromLinearToRGB (option Z) (uint_max 8) (uint_cast 8) 1 image = Returned buf /\
    getWidth (toLinear_unique_ptr_u8 (getWidth image) (getHeight image)
                (getWidth image * 3) buf of_Z identity3) = getWidth image /\
    getHeight (toLinear_unique_ptr_u8 (getWidth image) (getHeight image)
                 (getWidth image * 3) buf of_Z identity3) = getHeight image /\
    getChannels (toLinear_unique_ptr_u8 (getWidth image) (getHeight image)
                   (getWidth image * 3) buf of_Z identity3) = 3 /\
    forall x y i,
      0 <= x < getWidth image -> 0 <= y < getHeight image -> 0 <= i < 3 ->
      fle (of_Z 0) (pixel_channel image x y i) = true ->
      fle (pixel_channel image x y i) (of_Z 1) = true ->
      exists n,
        cells buf !! Z.to_nat ((y * getWidth image + x) * 3 + i) =
          Some (Some (Some n)) /\
        0 <= n <= 255 /\
        pixel_channel
          (toLinear_unique_ptr_u8 (getWidth image) (getHeight image)
             (getWidth image * 3) buf of_Z identity3) x y i =
          fdiv (of_Z n) (of_Z 255) /\
        is_finite (fdiv (of_Z n) (of_Z 255)) = true /\
        (Qabs (to_Q (fdiv (of_Z n) (of_Z 255))
               - to_Q (pixel_channel image x y i)) <= 1 # 254)%Q.
Proof.
  intros Hwf Hc. pose proof Hwf as (Hw & Hh & _).
  destruct (fromLinearToRGB_cells (option Z) (uint_max 8) (uint_cast 8) 1
              image Hwf Hc) as (buf & Heq & _ & _ & Hcell).
  exists buf. split; [exact Heq|]. unfold toLinear_unique_ptr_u8.
  destruct (toLinear_data Z (uint_max 8) 1 first_byte
              (getWidth image) (getHeight image) (getWidth image * 3)
              (get_u8 buf) of_Z identity3 Hw Hh)
    as (data & -> & Hl & Hdata).
  cbn [getWidth getHeight getChannels].
  split; [reflexivity|]. split; [reflexivity|]. split; [reflexivity|].
  intros x y i Hx Hy Hi H0 H1.
  pose proof (Hcell x y i Hx Hy Hi) as Hstored.
  set (v := pixel_channel image x y i) in *.
  destruct (quantize_sample 8 v ltac:(lia) (pixel_channel_valid image x y i Hwf))
    as (n & Hn & Hr & _ & _ & Hunit).
  destruct (Hunit H0 H1) as (Hlo & Hhi).
  rewrite Hn in Hstored.
  assert (Hpix : pixel_channel
            (MkLinearImage (getWidth image) (getHeight image) 3 data) x y i =
          fdiv (of_Z n) (of_Z 255)).
  { unfold pixel_channel, load. cbn [getData getWidth getChannels].
    replace (Z.to_nat ((y * getWidth image + x) * 3 + i))
      with (3 * (Z.to_nat y * Z.to_nat (getWidth image) + Z.to_nat x)
            + Z.to_nat i)%nat by lia.
    rewrite Hdata by lia. cbn [default from_option id].
    unfold toLinear_pixel, identity3, vdiv3. rewrite get3_map3.
    rewrite !load_T_u8. rewrite !Z2Nat.id by lia.
    assert (Hbyte : get_u8 buf (y * (getWidth image * 3) + x * (3 * 1) + i) = n).
    { unfold get_u8.
      replace (y * (getWidth image * 3) + x * (3 * 1) + i)
        with ((y * getWidth image + x) * 3 + i) by lia.
      rewrite Hstored. reflexivity. }
    assert (Ei : i = 0 \/ i = 1 \/ i = 2) by lia.
    destruct Ei as [-> | [-> | ->]]; cbn [Z.to_nat Pos.to_nat Pos.iter_op Nat.add get3 r3 g3 b3];
      rewrite Hbyte; reflexivity. }
  exists n. split; [exact Hstored|].
  split; [change (uint_max 8) with 255 in Hr; exact Hr|].
  split; [exact Hpix|].
  apply byte_round_trip; [exact Hr | | exact Hlo | exact Hhi].
  apply unit_to_Q_nonneg; assumption.
Qed.

(** * The theorems at sample inputs *)

Lemma two_pixels_wf : image_wf two_pixels.
Proof.
  unfold image_wf, two_pixels. cbn [getWidth getHeight getChannels getData].
  split; [lia|]. split; [lia|]. split; [lia|]. split; [reflexivity|].
  repeat constructor.
Defined.

Lemma gray_pixels_wf : image_wf gray_pixels.
Proof.
  unfold image_wf, gray_pixels. cbn [getWidth getHeight getChannels getData].
  split; [lia|]. split; [lia|]. split; [lia|]. split; [reflexivity|].
  repeat constructor.
Defined.

Lemma linearToRGBM_range_witness :
  fle (of_Z 0) (r3 sample_color) = true /\
  fle (of_Z 0) (g3 sample_color) = true /\
  fle (of_Z 0) (b3 sample_color) = true /\
  (fle (fdiv (of_Z 1) (of_Z 16)) (a4 (linearToRGBM sample_color)) = true /\
   fle (a4 (linearToRGBM sample_color)) (of_Z 1) = true) /\
  (exists k,
     16 <= k <= 255 /\ is_step (a4 (linearToRGBM sample_color)) k /\
     ceil (fmul (clamped_max sample_color) (of_Z 255)) = of_Z k /\
     fle (fmul (clamped_max sample_color) (of_Z 255)) (of_Z k) = true) /\
  (fle (of_Z 0) (r4 (linearToRGBM sample_color)) = true /\
   fle (r4 (linearToRGBM sample_color)) (of_Z 1) = true) /\
  (fle (of_Z 0) (g4 (linearToRGBM sample_color)) = true /\
   fle (g4 (linearToRGBM sample_color)) (of_Z 1) = true) /\
  (fle (of_Z 0) (b4 (linearToRGBM sample_color)) = true /\
   fle (b4 (linearToRGBM sample_color)) (of_Z 1) = true).
Proof.
  split; [reflexivity|]. split; [reflexivity|]. split; [reflexivity|].
  apply (linearToRGBM_range sample_color); reflexivity.
Defined.

Lemma fromLinearTosRGB_layout_witness :
  image_wf two_pixels /\ 3 <= getChannels two_pixels /\
  exists buf,
    fromLinearTosRGB Z 255 cast_u8 1 pow_first black two_pixels = Returned buf /\
    byte_size buf = getWidth two_pixels * getHeight two_pixels * 3 * 1 /\
    Z.of_nat (length (cells buf)) = getWidth two_pixels * getHeight two_pixels * 3 /\
    forall x y i,
      0 <= x < getWidth two_pixels -> 0 <= y < getHeight two_pixels -> 0 <= i < 3 ->
      cells buf !! Z.to_nat ((y * getWidth two_pixels + x) * 3 + i) =
        Some (Some (cast_u8
          (fmul (linearTosRGB_float pow_first (saturate (pixel_channel two_pixels x y i)))
                (of_Z 255)))).
Proof.
  split; [exact two_pixels_wf|]. split; [cbn; lia|].
  apply (fromLinearTosRGB_layout Z 255 cast_u8 1 pow_first black two_pixels).
  - exact two_pixels_wf.
  - cbn. lia.
Defined.

Lemma toLinear_pixels_witness :
  0 <= 2 < 2 ^ 32 /\ 0 <= 1 < 2 ^ 32 /\
  getWidth (toLinear Z 255 1 first_byte 2 1 8 ramp of_Z identity3) = 2 /\
  getHeight (toLinear Z 255 1 first_byte 2 1 8 ramp of_Z identity3) = 1 /\
  getChannels (toLinear Z 255 1 first_byte 2 1 8 ramp of_Z identity3) = 3 /\
  (forall x y, 0 <= x < 2 -> 0 <= y < 1 ->
     get_float3 (toLinear Z 255 1 first_byte 2 1 8 ramp of_Z identity3) x y =
       identity3
         (vdiv3
            (Float3
               (of_Z (load_T Z 1 first_byte ramp (y * 8 + x * (3 * 1)) 0))
               (of_Z (load_T Z 1 first_byte ramp (y * 8 + x * (3 * 1)) 1))
               (of_Z (load_T Z 1 first_byte ramp (y * 8 + x * (3 * 1)) 2)))
            (of_Z 255))) /\
  (forall src' : Z -> Z,
     (forall y j, 0 <= y < 1 -> 0 <= j < 2 * 3 * 1 ->
        src' (y * 8 + j) = ramp (y * 8 + j)) ->
     toLinear Z 255 1 first_byte 2 1 8 src' of_Z identity3 =
     toLinear Z 255 1 first_byte 2 1 8 ramp of_Z identity3).
Proof.
  split; [lia|]. split; [lia|].
  apply (toLinear_pixels Z 255 1 first_byte 2 1 8 ramp of_Z identity3); lia.
Defined.

Lemma fromLinearToGrayscale_contract_witness :
  image_wf two_pixels /\ getChannels two_pixels <> 1 /\
  fromLinearToGrayscale Z 255 cast_u8 1 two_pixels = AssertionFailed /\
  image_wf gray_pixels /\ getChannels gray_pixels = 1 /\
  exists buf,
    fromLinearToGrayscale Z 255 cast_u8 1 gray_pixels = Returned buf /\
    byte_size buf = getWidth gray_pixels * getHeight gray_pixels * 1 /\
    Z.of_nat (length (cells buf)) = getWidth gray_pixels * getHeight gray_pixels /\
    forall x y,
      0 <= x < getWidth gray_pixels -> 0 <= y < getHeight gray_pixels ->
      cells buf !! Z.to_nat (y * getWidth gray_pixels + x) =
        Some (Some (cast_u8
          (fmul (saturate (pixel_channel gray_pixels x y 0)) (of_Z 255)))).
Proof.
  split; [exact two_pixels_wf|]. split; [cbn; lia|].
  split.
  { apply (proj1 (fromLinearToGrayscale_contract Z 255 cast_u8 1 two_pixels
                    two_pixels_wf)). cbn. lia. }
  split; [exact gray_pixels_wf|]. split; [reflexivity|].
  apply (proj2 (fromLinearToGrayscale_contract Z 255 cast_u8 1 gray_pixels
                  gray_pixels_wf)). reflexivity.
Defined.

Lemma clipped_pixels_wf : image_wf clipped_pixels.
Proof.
  unfold image_wf, clipped_pixels. cbn [getWidth getHeight getChannels getData].
  split; [lia|]. split; [lia|]. split; [lia|]. split; [reflexivity|].
  repeat constructor.
Defined.

Lemma fromLinearToRGB_saturates_witness :
  1 <= 8 <= 24 /\ image_wf clipped_pixels /\ 3 <= getChannels clipped_pixels /\
  (flt (of_Z 1) (pixel_channel clipped_pixels 0 0 0) = true /\
   flt (pixel_channel clipped_pixels 0 0 2) (of_Z 0) = true /\
   flt (of_Z 1) (pixel_channel clipped_pixels 1 0 0) = true) /\
  exists buf,
    fromLinearToRGB (option Z) (uint_max 8) (uint_cast 8) (8 / 8) clipped_pixels
      = Returned buf /\
    forall x y i,
      0 <= x < getWidth clipped_pixels -> 0 <= y < getHeight clipped_pixels ->
      0 <= i < 3 ->
      exists n,
        cells buf !! Z.to_nat ((y * getWidth clipped_pixels + x) * 3 + i) =
          Some (Some (Some n)) /\
        0 <= n <= uint_max 8 /\
        (flt (of_Z 1) (pixel_channel clipped_pixels x y i) = true -> n = uint_max 8).
Proof.
  split; [lia|]. split; [exact clipped_pixels_wf|]. split; [cbn; lia|].
  split; [repeat split; reflexivity|].
  apply (fromLinearToRGB_saturates 8 clipped_pixels).
  - lia.
  - exact clipped_pixels_wf.
  - cbn. lia.
Defined.

Lemma RGBM_round_trip_witness :
  (within_0_16 (r3 sample_color) /\ within_0_16 (g3 sample_color) /\
   within_0_16 (b3 sample_color)) /\
  (rel_close (r3 (RGBMtoLinear (linearToRGBM sample_color))) (r3 sample_color) /\
   rel_close (g3 (RGBMtoLinear (linearToRGBM sample_color))) (g3 sample_color) /\
   rel_close (b3 (RGBMtoLinear (linearToRGBM sample_color))) (b3 sample_color)).
Proof.
  assert (Hr : within_0_16 (r3 sample_color)) by (repeat split; reflexivity).
  assert (Hg : within_0_16 (g3 sample_color)) by (repeat split; reflexivity).
  assert (Hb : within_0_16 (b3 sample_color)) by (repeat split; reflexivity).
  split; [split; [exact Hr | split; [exact Hg | exact Hb]]|].
  apply (RGBM_round_trip sample_color Hr Hg Hb).
Defined.

(** * The further properties at sample inputs *)

Lemma two_pixels_nonneg :
  forall x y c,
    0 <= x < getWidth two_pixels -> 0 <= y < getHeight two_pixels -> 0 <= c < 3 ->
    fle (of_Z 0) (pixel_channel two_pixels x y c) = true.
Proof.
  intros x y c Hx Hy Hc. cbn [two_pixels getWidth getHeight] in Hx, Hy.
  assert (Ey : y = 0) by lia. subst y.
  assert (Ex : x = 0 \/ x = 1) by lia.
  assert (Ec : c = 0 \/ c = 1 \/ c = 2) by lia.
  destruct Ex as [-> | ->]; destruct Ec as [-> | [-> | ->]]; reflexivity.
Defined.

Lemma fromLinearToRGBM_layout_witness :
  image_wf two_pixels /\
  (getChannels two_pixels < 3 ->
     fromLinearToRGBM Z 255 cast_u8 1 two_pixels = AssertionFailed) /\
  (3 <= getChannels two_pixels ->
     exists buf,
       fromLinearToRGBM Z 255 cast_u8 1 two_pixels = Returned buf /\
       byte_size buf = getWidth two_pixels * getHeight two_pixels * 4 * 1 /\
       Z.of_nat (length (cells buf)) = getWidth two_pixels * getHeight two_pixels * 4 /\
       forall x y i,
         0 <= x < getWidth two_pixels -> 0 <= y < getHeight two_pixels -> 0 <= i < 4 ->
         cells buf !! Z.to_nat ((y * getWidth two_pixels + x) * 4 + i) =
           Some (Some (cast_u8
             (fmul (get4 (linearToRGBM
                            (Float3 (pixel_channel two_pixels x y 0)
                                    (pixel_channel two_pixels x y 1)
                                    (pixel_channel two_pixels x y 2)))
                         (Z.to_nat i))
                   (of_Z 255))))).
Proof.
  split; [exact two_pixels_wf|].
  apply (fromLinearToRGBM_layout Z 255 cast_u8 1 two_pixels). exact two_pixels_wf.
Defined.

Lemma fromLinearToRGBM_uint8_witness :
  image_wf two_pixels /\ 3 <= getChannels two_pixels /\
  exists buf,
    fromLinearToRGBM (option Z) (uint_max 8) (uint_cast 8) 1 two_pixels = Returned buf /\
    forall x y,
      0 <= x < getWidth two_pixels -> 0 <= y < getHeight two_pixels ->
      (forall i, 0 <= i < 3 ->
         exists n,
           cells buf !! Z.to_nat ((y * getWidth two_pixels + x) * 4 + i) =
             Some (Some (Some n)) /\
           0 <= n <= 255) /\
      (exists k,
         cells buf !! Z.to_nat ((y * getWidth two_pixels + x) * 4 + 3) =
           Some (Some (Some k)) /\
         16 <= k <= 255 /\
         is_step (a4 (linearToRGBM
                        (Float3 (pixel_channel two_pixels x y 0)
                                (pixel_channel two_pixels x y 1)
                                (pixel_channel two_pixels x y 2)))) k).
Proof.
  split; [exact two_pixels_wf|]. split; [cbn; lia|].
  apply (fromLinearToRGBM_uint8 two_pixels).
  - exact two_pixels_wf.
  - cbn. lia.
  - exact two_pixels_nonneg.
Defined.

Lemma toLinearFromRGBM_pixels_witness :
  0 <= 2 < 2 ^ 32 /\
  getWidth (toLinearFromRGBM rgbm_pixels 2 2) = 2 /\
  getHeight (toLinearFromRGBM rgbm_pixels 2 2) = 2 /\
  getChannels (toLinearFromRGBM rgbm_pixels 2 2) = 3 /\
  Z.of_nat (length (getData (toLinearFromRGBM rgbm_pixels 2 2))) = 2 * 2 * 3 /\
  forall x y rgbm,
    0 <= x < 2 -> 0 <= y < 2 ->
    rgbm_pixels !! Z.to_nat (y * 2 + x) = Some rgbm ->
    get_float3 (toLinearFromRGBM rgbm_pixels 2 2) x y = RGBMtoLinear rgbm.
Proof.
  split; [lia|].
  apply (toLinearFromRGBM_pixels rgbm_pixels 2 2); lia.
Defined.

Lemma toLinearWithAlpha_pixels_witness :
  0 <= 2 < 2 ^ 32 /\ 0 <= 1 < 2 ^ 32 /\
  getWidth (toLinearWithAlpha Z 255 1 first_byte 2 1 8 ramp of_Z identity4) = 2 /\
  getHeight (toLinearWithAlpha Z 255 1 first_byte 2 1 8 ramp of_Z identity4) = 1 /\
  getChannels (toLinearWithAlpha Z 255 1 first_byte 2 1 8 ramp of_Z identity4) = 4 /\
  Z.of_nat (length (getData
    (toLinearWithAlpha Z 255 1 first_byte 2 1 8 ramp of_Z identity4))) = 2 * 1 * 4 /\
  forall x y, 0 <= x < 2 -> 0 <= y < 1 ->
    get_float4 (toLinearWithAlpha Z 255 1 first_byte 2 1 8 ramp of_Z identity4) x y =
      identity4
        (vdiv4
           (Float4
              (of_Z (load_T Z 1 first_byte ramp (y * 8 + x * (4 * 1)) 0))
              (of_Z (load_T Z 1 first_byte ramp (y * 8 + x * (4 * 1)) 1))
              (of_Z (load_T Z 1 first_byte ramp (y * 8 + x * (4 * 1)) 2))
              (of_Z (load_T Z 1 first_byte ramp (y * 8 + x * (4 * 1)) 3)))
           (of_Z 255)).
Proof.
  split; [lia|]. split; [lia|].
  apply (toLinearWithAlpha_pixels Z 255 1 first_byte 2 1 8 ramp of_Z identity4); lia.
Defined.

Lemma toLinear_empty_witness :
  0 <= 0 < 2 ^ 32 /\ 0 <= 5 < 2 ^ 32 /\ (0 = 0 \/ 5 = 0) /\
  toLinear Z 255 1 first_byte 0 5 8 ramp of_Z identity3 = MkLinearImage 0 5 3 [] /\
  forall (bpr' : Z) (src' : Z -> Z) (proc' : Z -> float32)
         (transform' : float3 -> float3),
    toLinear Z 255 1 first_byte 0 5 bpr' src' proc' transform' =
    toLinear Z 255 1 first_byte 0 5 8 ramp of_Z identity3.
Proof.
  split; [lia|]. split; [lia|]. split; [left; reflexivity|].
  apply (toLinear_empty Z 255 1 first_byte 0 5 8 ramp of_Z identity3);
    [lia | lia | left; reflexivity].
Defined.

Lemma RGBMtoLinear_never_negative_witness :
  valid (r4 rgbm_pixel) = true /\ valid (g4 rgbm_pixel) = true /\
  valid (b4 rgbm_pixel) = true /\ valid (a4 rgbm_pixel) = true /\
  (sign_bit (r3 (RGBMtoLinear rgbm_pixel)) = false /\
   flt (r3 (RGBMtoLinear rgbm_pixel)) (of_Z 0) = false) /\
  (sign_bit (g3 (RGBMtoLinear rgbm_pixel)) = false /\
   flt (g3 (RGBMtoLinear rgbm_pixel)) (of_Z 0) = false) /\
  (sign_bit (b3 (RGBMtoLinear rgbm_pixel)) = false /\
   flt (b3 (RGBMtoLinear rgbm_pixel)) (of_Z 0) = false).
Proof.
  split; [reflexivity|]. split; [reflexivity|]. split; [reflexivity|].
  split; [reflexivity|].
  apply (RGBMtoLinear_never_negative rgbm_pixel); reflexivity.
Defined.

Lemma dim_color_in_linear_segment :
  in_linear_segment (r3 dim_color) /\ in_linear_segment (g3 dim_color) /\
  in_linear_segment (b3 dim_color).
Proof. repeat split; reflexivity. Defined.

Lemma sRGB_linear_segment_round_trip_witness :
  (in_linear_segment (r3 dim_color) /\ in_linear_segment (g3 dim_color) /\
   in_linear_segment (b3 dim_color)) /\
  linearTosRGB pow_first black dim_color = vmul3 dim_color (lit 1292 100) /\
  sRGBToLinear_float3 pow_first black (linearTosRGB pow_first black dim_color) =
    vmul3 (vmul3 dim_color (lit 1292 100)) (fdiv (of_Z 1) (lit 1292 100)) /\
  rel_close_by (1 # 1000000)
    (r3 (sRGBToLinear_float3 pow_first black (linearTosRGB pow_first black dim_color)))
    (r3 dim_color) /\
  rel_close_by (1 # 1000000)
    (g3 (sRGBToLinear_float3 pow_first black (linearTosRGB pow_first black dim_color)))
    (g3 dim_color) /\
  rel_close_by (1 # 1000000)
    (b3 (sRGBToLinear_float3 pow_first black (linearTosRGB pow_first black dim_color)))
    (b3 dim_color).
Proof.
  split; [exact dim_color_in_linear_segment|].
  destruct dim_color_in_linear_segment as (Hr & Hg & Hb).
  apply (sRGB_linear_segment_round_trip pow_first black black dim_color Hr Hg Hb).
Defined.



Lemma bright_color_within_0_256 :
  within_0_256 (r3 bright_color) /\ within_0_256 (g3 bright_color) /\
  within_0_256 (b3 bright_color).
Proof. repeat split; reflexivity. Defined.

Lemma RGBM_round_trip_wide_witness :
  (within_0_256 (r3 bright_color) /\ within_0_256 (g3 bright_color) /\
   within_0_256 (b3 bright_color)) /\
  (rel_close (r3 (RGBMtoLinear (linearToRGBM bright_color))) (r3 bright_color) /\
   rel_close (g3 (RGBMtoLinear (linearToRGBM bright_color))) (g3 bright_color) /\
   rel_close (b3 (RGBMtoLinear (linearToRGBM bright_color))) (b3 bright_color)).
Proof.
  split; [exact bright_color_within_0_256|].
  destruct bright_color_within_0_256 as (Hr & Hg & Hb).
  apply (RGBM_round_trip_wide bright_color Hr Hg Hb).
Defined.

Lemma RGBM_decode_clipped_witness :
  (fle (of_Z 0) (r3 huge_color) = true /\ fle (of_Z 0) (g3 huge_color) = true /\
   fle (of_Z 0) (b3 huge_color) = true) /\
  (is_finite (r3 (RGBMtoLinear (linearToRGBM huge_color))) = true /\
   fle (r3 (RGBMtoLinear (linearToRGBM huge_color))) (of_Z 256) = true) /\
  (is_finite (g3 (RGBMtoLinear (linearToRGBM huge_color))) = true /\
   fle (g3 (RGBMtoLinear (linearToRGBM huge_color))) (of_Z 256) = true) /\
  (is_finite (b3 (RGBMtoLinear (linearToRGBM huge_color))) = true /\
   fle (b3 (RGBMtoLinear (linearToRGBM huge_color))) (of_Z 256) = true).
Proof.
  split; [repeat split; reflexivity|].
  apply (RGBM_decode_clipped huge_color); reflexivity.
Defined.

Lemma RGB8_round_trip_witness :
  image_wf two_pixels /\ 3 <= getChannels two_pixels /\
  exists buf,
    fromLinearToRGB (option Z) (uint_max 8) (uint_cast 8) 1 two_pixels = Returned buf /\
    getWidth (toLinear_unique_ptr_u8 (getWidth two_pixels) (getHeight two_pixels)
                (getWidth two_pixels * 3) buf of_Z identity3) = getWidth two_pixels /\
    getHeight (toLinear_unique_ptr_u8 (getWidth two_pixels) (getHeight two_pixels)
                 (getWidth two_pixels * 3) buf of_Z identity3) = getHeight two_pixels /\
    getChannels (toLinear_unique_ptr_u8 (getWidth two_pixels) (getHeight two_pixels)
                   (getWidth two_pixels * 3) buf of_Z identity3) = 3 /\
    forall x y i,
      0 <= x < getWidth two_pixels -> 0 <= y < getHeight two_pixels -> 0 <= i < 3 ->
      fle (of_Z 0) (pixel_channel two_pixels x y i) = true ->
      fle (pixel_channel two_pixels x y i) (of_Z 1) = true ->
      exists n,
        cells buf !! Z.to_nat ((y * getWidth two_pixels + x) * 3 + i) =
          Some (Some (Some n)) /\
        0 <= n <= 255 /\
        pixel_channel
          (toLinear_unique_ptr_u8 (getWidth two_pixels) (getHeight two_pixels)
             (getWidth two_pixels * 3) buf of_Z identity3) x y i =
          fdiv (of_Z n) (of_Z 255) /\
        is_finite (fdiv (of_Z n) (of_Z 255)) = true /\
        (Qabs (to_Q (fdiv (of_Z n) (of_Z 255))
               - to_Q (pixel_channel two_pixels x y i)) <= 1 # 254)%Q.
Proof.
  split; [exact two_pixels_wf|]. split; [cbn; lia|].
  apply (RGB8_round_trip two_pixels).
  - exact two_pixels_wf.
  - cbn. lia.
Defined.
